(** * Harmonica: Legendre tables, point-mass forward model, prism-layer coarsening

  A shallow embedding of three source files of the harmonica package

    - [harmonica/_spherical_harmonics/legendre.py]
    - [harmonica/forward/point_mass.py]
    - [harmonica/_forward/prism_layer.py]

  together with the properties that its specification states about them.

  Numeric conventions.  A [float64] is idealised as an exact number (a real
  in the Legendre and point-mass parts, a rational in the prism-layer part,
  where indices are obtained by floor division and everything computes) or
  the not-a-number value; rounding, overflow and signed infinities are not
  modelled.  Indexing is bounds checked as in Python and NumPy: reading or
  writing outside an array raises [IndexError] (the loops are compiled by
  numba, which leaves such an access unchecked unless bounds checking is
  switched on; the embedding takes the checked semantics).  Division in
  the compiled point-mass kernels follows Python: a zero divisor raises
  [ZeroDivisionError].  The conversion [int(...)] of a floor quotient is
  taken exact; the compiled conversion is to a 64-bit integer, and a
  statement that depends on the value of the quotient assumes that it fits
  ([int64_quotient]). *)

From Stdlib Require Import Reals Lqa Lra Lia ZArith QArith Qround Qcanon String List.
From stdpp Require Import base list numbers strings.

Set Default Proof Using "Type".

(** ** Part I: the embedding *)

(** *** Exceptions, arrays and loops shared by the three files *)

Module Numpy.

Inductive exn : Type :=
| IndexError
| ZeroDivisionError
| TypeError
| KeyError
| ValueError (msg : string).

Definition result (A : Type) : Type := (exn + A)%type.

Definition Ok {A} (a : A) : result A := inr a.
Definition Raise {A} (e : exn) : result A := inl e.

#[global] Instance result_ret : MRet result := fun A a => inr a.
#[global] Instance result_bind : MBind result :=
  fun A B f c => match c with inl e => inl e | inr a => f a end.

(** A float64 over the number type [K]. *)
Inductive float (K : Type) : Type :=
| NaN
| Num (k : K).
Arguments NaN {K}.
Arguments Num {K} k.

Definition isnan {K} (v : float K) : bool :=
  match v with NaN => true | Num _ => false end.

Definition lift2 {K} (op : K → K → K) (a b : float K) : float K :=
  match a, b with
  | Num x, Num y => Num (op x y)
  | _, _ => NaN
  end.

(** [range(start, stop)] on natural numbers. *)
Definition range (start stop : nat) : list nat := seq start (stop - start).

(** [for a in l: s = body(a, s)], stopping at the first exception. *)
Fixpoint for_each {A S} (l : list A) (body : A → S → result S) (s : S)
  : result S :=
  match l with
  | [] => Ok s
  | a :: l' => s' ← body a s; for_each l' body s'
  end.

(** A two-dimensional array: its rows, and a ghost history of the index
    pairs assigned since it was allocated (oldest first).  The history is
    not program data; it records which entries a construction touches. *)
Record ndarray (K : Type) : Type := mk_ndarray {
  cells : list (list (float K));
  written : list (nat * nat)
}.
Arguments mk_ndarray {K} cells written.
Arguments cells {K} n.
Arguments written {K} n.

(** [np.full((rows, cols), v)] *)
Definition np_full {K} (rows cols : nat) (v : float K) : ndarray K :=
  mk_ndarray (replicate rows (replicate cols v)) [].

(** [p.shape[0]] *)
Definition shape0 {K} (p : ndarray K) : nat := length (cells p).

(** [a[i]] for a non-negative index. *)
Definition index {A} (a : list A) (i : nat) : result A :=
  match a !! i with
  | Some v => Ok v
  | None => Raise IndexError
  end.

(** [a[n, m]] on the rows of a two-dimensional array. *)
Definition index2 {A} (a : list (list A)) (n m : nat) : result A :=
  row ← index a n; index row m.

(** [p[n, m]] *)
Definition getitem {K} (p : ndarray K) (n m : nat) : result (float K) :=
  index2 (cells p) n m.

(** [p[n, m] = v] *)
Definition setitem {K} (p : ndarray K) (n m : nat) (v : float K)
  : result (ndarray K) :=
  match cells p !! n with
  | Some row =>
      if decide (m < length row)%nat
      then Ok (mk_ndarray (<[n := <[m := v]> row]> (cells p))
                          (written p ++ [(n, m)]))
      else Raise IndexError
  | None => Raise IndexError
  end.

End Numpy.

(** *** legendre.py *)

Module Legendre.
Import Numpy.
Local Open Scope R_scope.

Abbreviation float := (Numpy.float R).
Abbreviation table := (Numpy.ndarray R).

Definition fadd : float → float → float := lift2 Rplus.
Definition fsub : float → float → float := lift2 Rminus.
Definition fmul : float → float → float := lift2 Rmult.
Definition fdiv : float → float → float := lift2 Rdiv.
Definition fneg (a : float) : float :=
  match a with NaN => NaN | Num x => Num (- x) end.

(** [np.sqrt]: not-a-number on a negative argument. *)
Definition np_sqrt (r : R) : float :=
  if Rle_dec 0 r then Num (sqrt r) else NaN.

(** The value of a Python integer as a float. *)
Definition of_int (n : nat) : R := INR n.

(** The three constructors run the same two loops and differ in [p[0, 0]]
    and in the coefficients [a_nm], [b_nm], [c_nm], [d_nm]. *)
Record coefficients : Type := {
  p_00 : float;
  a_nm : nat → nat → float;
  b_nm : nat → nat → float;
  c_nm : nat → float;
  d_nm : nat → float
}.

(** Body of [for m in range(0, n - 1)]. *)
Definition off_diagonal (cf : coefficients) (x : R) (n m : nat) (p : table)
  : result table :=
  p1 ← getitem p (n - 1) m;
  p2 ← getitem p (n - 2) m;
  setitem p n m
    (fadd (fmul (fmul (a_nm cf n m) (Num x)) p1) (fmul (b_nm cf n m) p2)).

(** Body of [for n in range(1, max_degree + 1)]. *)
Definition degree_step (cf : coefficients) (x : R) (sqrt_x : float)
    (n : nat) (p : table) : result table :=
  p ← for_each (range 0 (n - 1)) (off_diagonal cf x n) p;
  q ← getitem p (n - 1) (n - 1);
  p ← setitem p n (n - 1) (fmul (fmul (c_nm cf n) (Num x)) q);
  q ← getitem p (n - 1) (n - 1);
  setitem p n n (fmul (fmul (d_nm cf n) sqrt_x) q).

Definition legendre_table (cf : coefficients) (x : R) (max_degree : nat)
  : result table :=
  let p := np_full (max_degree + 1) (max_degree + 1) NaN in
  let sqrt_x := np_sqrt (1 - x ^ 2) in
  p ← setitem p 0 0 (p_00 cf);
  for_each (range 1 (max_degree + 1)) (degree_step cf x sqrt_x) p.

Definition unnormalized : coefficients := {|
  p_00 := Num 1;
  a_nm := fun n m => Num ((2 * of_int n - 1) / (of_int n - of_int m));
  b_nm := fun n m => Num (- (of_int n + of_int m - 1) / (of_int n - of_int m));
  c_nm := fun n => Num (2 * of_int n - 1);
  d_nm := fun n => Num (2 * of_int n - 1)
|}.

Definition assoc_legendre : R → nat → result table :=
  legendre_table unnormalized.

Definition schmidt : coefficients := {|
  p_00 := Num 1;
  a_nm := fun n m =>
    fdiv (Num (2 * of_int n - 1))
         (np_sqrt ((of_int n + of_int m) * (of_int n - of_int m)));
  b_nm := fun n m =>
    fneg (np_sqrt ((of_int n + of_int m - 1) * (of_int n - of_int m - 1)
                   / ((of_int n + of_int m) * (of_int n - of_int m))));
  c_nm := fun n => np_sqrt (2 * of_int n - 1);
  d_nm := fun n =>
    if decide (n = 1%nat) then Num 1 else np_sqrt (1 - 1 / (2 * of_int n))
|}.

Definition assoc_legendre_schmidt : R → nat → result table :=
  legendre_table schmidt.

Definition full : coefficients := {|
  p_00 := np_sqrt (1 / 2);
  a_nm := fun n m =>
    np_sqrt ((2 * of_int n + 1) * (2 * of_int n - 1)
             / ((of_int n + of_int m) * (of_int n - of_int m)));
  b_nm := fun n m =>
    fneg (np_sqrt ((of_int n + of_int m - 1) * (of_int n - of_int m - 1)
                   * (2 * of_int n + 1)
                   / ((of_int n + of_int m) * (of_int n - of_int m)
                      * (2 * of_int n - 3))));
  c_nm := fun n => np_sqrt (2 * of_int n + 1);
  d_nm := fun n => np_sqrt (1 + 1 / (2 * of_int n))
|}.

Definition assoc_legendre_full : R → nat → result table :=
  legendre_table full.

(** Body of [for m in range(1, n)] in [assoc_legendre_deriv]. *)
Definition deriv_inner (p : table) (n m : nat) (p_deriv : table)
  : result table :=
  lo ← getitem p n (m - 1);
  hi ← getitem p n (m + 1);
  setitem p_deriv n m
    (fmul (Num (1 / 2))
       (fsub (fmul (Num ((of_int n + of_int m) * (of_int n - of_int m + 1))) lo)
             hi)).

Definition deriv_step (p : table) (n : nat) (p_deriv : table)
  : result table :=
  p1 ← getitem p n 1;
  p_deriv ← setitem p_deriv n 0 (fneg p1);
  p_deriv ← for_each (range 1 n) (deriv_inner p n) p_deriv;
  q ← getitem p n (n - 1);
  setitem p_deriv n n (fmul (Num (of_int n)) q).

(** The size of the table that [assoc_legendre_deriv] allocates:
    [max_degree = p.shape[0] + 1], then [max_degree + 1] rows and columns. *)
Definition deriv_max_degree (p : table) : nat := shape0 p + 1.

Definition assoc_legendre_deriv (x : R) (p : table) : result table :=
  let max_degree := deriv_max_degree p in
  let p_deriv := np_full (max_degree + 1) (max_degree + 1) NaN in
  p_deriv ← setitem p_deriv 0 0 (Num 0);
  for_each (range 1 (max_degree + 1)) (deriv_step p) p_deriv.

End Legendre.

(** *** point_mass.py *)

Module PointMass.
Import Numpy.
Local Open Scope R_scope.
Local Open Scope string_scope.

(** A one-dimensional float array (after [np.atleast_1d(i).ravel()]). *)
Abbreviation array := (list R).

Definition _distance_cartesian_sq (point_a point_b : R * R * R) : R :=
  let '(easting, northing, down) := point_a in
  let '(easting_p, northing_p, down_p) := point_b in
  (easting - easting_p) ^ 2 + (northing - northing_p) ^ 2 + (down - down_p) ^ 2.

Definition _distance_cartesian (point_a point_b : R * R * R) : R :=
  sqrt (_distance_cartesian_sq point_a point_b).

(** [a / b] on floats in a compiled kernel: numba keeps the error model of
    Python, so a zero divisor raises [ZeroDivisionError]. *)
Definition truediv (a b : R) : result R :=
  if Req_EM_T b 0 then Raise ZeroDivisionError else Ok (a / b).

(** [x ** y] for a positive exponent [y]: zero to the power [y] is zero, a
    positive [x] gives [exp (y * ln x)].  (A negative [x] with a fractional
    exponent is not-a-number in the code; the real-valued arrays of this
    part have no such value, and no statement below relies on that case.) *)
Definition power (x y : R) : R := if Req_EM_T x 0 then 0 else Rpower x y.

Definition kernel_potential_cartesian
    (easting northing down easting_p northing_p down_p : R) : result R :=
  truediv 1 (_distance_cartesian (easting, northing, down)
                                 (easting_p, northing_p, down_p)).

Definition kernel_g_z
    (easting northing down easting_p northing_p down_p : R) : result R :=
  let distance_sq :=
    _distance_cartesian_sq (easting, northing, down) (easting_p, northing_p, down_p) in
  truediv (down_p - down) (power distance_sq (3 / 2)).

Definition kernel_potential_spherical
    (longitude cosphi sinphi radius longitude_p cosphi_p sinphi_p radius_p : R)
  : result R :=
  let coslambda := cos (longitude_p - longitude) in
  let cospsi := sinphi_p * sinphi + cosphi_p * cosphi * coslambda in
  let distance_sq := (radius - radius_p) ^ 2 + 2 * radius * radius_p * (1 - cospsi) in
  truediv 1 (sqrt distance_sq).

Definition kernel_g_r
    (longitude cosphi sinphi radius longitude_p cosphi_p sinphi_p radius_p : R)
  : result R :=
  let coslambda := cos (longitude_p - longitude) in
  let cospsi := sinphi_p * sinphi + cosphi_p * cosphi * coslambda in
  let distance_sq := (radius - radius_p) ^ 2 + 2 * radius * radius_p * (1 - cospsi) in
  let delta_z := radius_p * cospsi - radius in
  truediv delta_z (power distance_sq (3 / 2)).

(** A kernel function object: the Cartesian kernels take six arguments, the
    spherical ones eight.  Calling one with the other number of arguments is
    a [TypeError]; otherwise the call returns what the kernel returns, or
    raises what it raises. *)
Inductive kernel : Type :=
| Kernel6 (f : R → R → R → R → R → R → result R)
| Kernel8 (f : R → R → R → R → R → R → R → R → result R).

Definition call6 (k : kernel) (a b c d e f : R) : result R :=
  match k with
  | Kernel6 g => g a b c d e f
  | Kernel8 _ => Raise TypeError
  end.

Definition call8 (k : kernel) (a b c d e f g h : R) : result R :=
  match k with
  | Kernel8 u => u a b c d e f g h
  | Kernel6 _ => Raise TypeError
  end.

(** [out[l] += v] *)
Definition iadd (out : array) (l : nat) (v : R) : result array :=
  o ← index out l; Ok (<[l := o + v]> out).

Definition jit_point_mass_cartesian
    (easting northing down easting_p northing_p down_p masses out : array)
    (kernel : kernel) : result array :=
  for_each (range 0 (length easting)) (fun l out =>
    for_each (range 0 (length easting_p)) (fun m out =>
      mass ← index masses m;
      e ← index easting l; n ← index northing l; d ← index down l;
      e_p ← index easting_p m; n_p ← index northing_p m; d_p ← index down_p m;
      k ← call6 kernel e n d e_p n_p d_p;
      iadd out l (mass * k)) out) out.

(** [np.radians] *)
Definition radians (a : array) : array := map (fun d => d * PI / 180) a.

Definition jit_point_mass_spherical
    (longitude latitude radius longitude_p latitude_p radius_p masses out : array)
    (kernel : kernel) : result array :=
  let longitude := radians longitude in
  let latitude := radians latitude in
  let cosphi := map cos latitude in
  let sinphi := map sin latitude in
  let longitude_p := radians longitude_p in
  let latitude_p := radians latitude_p in
  let cosphi_p := map cos latitude_p in
  let sinphi_p := map sin latitude_p in
  for_each (range 0 (length longitude)) (fun l out =>
    for_each (range 0 (length longitude_p)) (fun m out =>
      mass ← index masses m;
      lon ← index longitude l; c ← index cosphi l; s ← index sinphi l;
      r ← index radius l;
      lon_p ← index longitude_p m; c_p ← index cosphi_p m;
      s_p ← index sinphi_p m; r_p ← index radius_p m;
      k ← call8 kernel lon c s r lon_p c_p s_p r_p;
      iadd out l (mass * k)) out) out.

(** A [dict] with string keys, as the literal lists its items. *)
Fixpoint dict_get {A} (d : list (string * A)) (key : string) : option A :=
  match d with
  | [] => None
  | (k, v) :: d' => if String.eqb key k then Some v else dict_get d' key
  end.

(** [key in d] *)
Definition dict_mem {A} (d : list (string * A)) (key : string) : bool :=
  match dict_get d key with Some _ => true | None => false end.

(** [key in (a, b, ...)] for a tuple of strings. *)
Definition str_in (key : string) (t : list string) : bool :=
  existsb (String.eqb key) t.

(** [d[key]]; a missing key is a [KeyError]. *)
Definition dict_item {A} (d : list (string * A)) (key : string) : result A :=
  match dict_get d key with Some v => Ok v | None => Raise KeyError end.

Definition dispatcher : Type :=
  array → array → array → array → array → array → array → array → kernel
  → result array.

Definition dispatchers : list (string * dispatcher) :=
  [ ("cartesian", jit_point_mass_cartesian);
    ("spherical", jit_point_mass_spherical) ].

Definition kernels : list (string * list (string * kernel)) :=
  [ ("cartesian", [ ("potential", Kernel6 kernel_potential_cartesian);
                    ("g_z", Kernel6 kernel_g_z) ]);
    ("spherical", [ ("potential", Kernel8 kernel_potential_spherical);
                    ("g_r", Kernel8 kernel_g_r) ]) ].

(** One step of NumPy broadcasting on the sizes of one-dimensional arrays. *)
Definition broadcast_dim (a b : nat) : result nat :=
  if decide (a = 1%nat) then Ok b
  else if decide (b = 1%nat) then Ok a
  else if decide (a = b) then Ok a
  else Raise (ValueError
         "shape mismatch: objects cannot be broadcast to a single shape").

(** The [size] of [np.broadcast] applied to the three coordinate arrays. *)
Definition broadcast_size (coordinates : array * array * array) : result nat :=
  let '(c0, c1, c2) := coordinates in
  d ← broadcast_dim (length c0) (length c1);
  broadcast_dim d (length c2).

Section Constants.

(** [harmonica.constants.GRAVITATIONAL_CONST], imported by the module. *)
Variable GRAVITATIONAL_CONST : R.

Definition point_mass_gravity
    (coordinates points : array * array * array) (masses : array)
    (field coordinate_system : string) : result array :=
  if negb (str_in coordinate_system ["cartesian"; "spherical"]) then
    Raise (ValueError
             ("Coordinate system " ++ coordinate_system ++ " not recognized"))
  else
  kernels_cs ← dict_item kernels coordinate_system;
  if negb (dict_mem kernels_cs field) then
    Raise (ValueError ("Gravity field " ++ field ++ " not recognized"))
  else
  cast_size ← broadcast_size coordinates;
  let result := replicate cast_size 0 in
  let '(c0, c1, c2) := coordinates in
  let '(p0, p1, p2) := points in
  dispatch ← dict_item dispatchers coordinate_system;
  kernel ← dict_item kernels_cs field;
  result ← dispatch c0 c1 c2 p0 p1 p2 masses result kernel;
  let result := map (fun r => r * GRAVITATIONAL_CONST) result in
  let result :=
    if str_in field ["g_r"; "g_z"]
    then map (fun r => r * 100000) result
    else result in
  Ok result.

End Constants.

End PointMass.

(** *** prism_layer.py *)

Module PrismLayer.
Import Numpy.
Local Open Scope Z_scope.
Local Open Scope Qc_scope.
Local Open Scope string_scope.

Abbreviation float := (Numpy.float Qc).
(** A two-dimensional float array, indexed (northing, easting). *)
Abbreviation array2 := (list (list float)).

Definition of_Z (z : Z) : Qc := Q2Qc (inject_Z z).
Definition half : Qc := Q2Qc (1 # 2).

(** [a.size] *)
Definition size {A} (a : list A) : Z := Z.of_nat (length a).

(** [a[i]] for a Python integer: a negative index counts from the end. *)
Definition item {A} (a : list A) (i : Z) : result A :=
  let i := if (i <? 0)%Z then (i + size a)%Z else i in
  if (i <? 0)%Z then Raise IndexError else index a (Z.to_nat i).

(** [a[j, i]] *)
Definition item2 {A} (a : list (list A)) (j i : Z) : result A :=
  row ← item a j; item row i.

(** [a.min()] *)
Definition np_min (a : list Qc) : result Qc :=
  match a with
  | [] => Raise (ValueError "zero-size array to reduction operation minimum")
  | x :: xs => Ok (fold_left (fun m y => if Qclt_le_dec y m then y else m) xs x)
  end.

(** [int(a // b)] on floats. *)
Definition floor_div (a b : Qc) : result Z :=
  if decide (b = 0) then Raise ZeroDivisionError else Ok (Qfloor (a / b)).

(** [range(lo, hi)] *)
Definition zrange (lo hi : Z) : list Z :=
  map (fun k => (lo + Z.of_nat k)%Z) (seq 0 (Z.to_nat (hi - lo))).

(** [range(0, stop, step)] *)
Definition range_step (stop step : Z) : result (list Z) :=
  if decide (step = 0)%Z then Raise (ValueError "range() arg 3 must not be zero")
  else if decide (step < 0)%Z then Ok []
  else Ok (map (fun k => (Z.of_nat k * step)%Z)
               (seq 0 (Z.to_nat ((stop + step - 1) / step)))).

(** [a[j : j + factor, i : i + factor]] for [0 <= j], [0 <= i]: slices are
    clipped to the array. *)
Definition slice2 (a : array2) (j i factor : Z) : array2 :=
  map (fun row => take (Z.to_nat factor) (drop (Z.to_nat i) row))
      (take (Z.to_nat factor) (drop (Z.to_nat j) a)).

Definition fsum (xs : list float) : float :=
  fold_left (lift2 Qcplus) xs (Num 0).

(** [np.mean] of a two-dimensional block: the sum of its entries over their
    number; not-a-number for an empty block. *)
Definition np_mean (block : array2) : float :=
  let xs := concat block in
  match xs with
  | [] => NaN
  | _ => lift2 Qcdiv (fsum xs) (Num (of_Z (size xs)))
  end.

Section Driver.

(** The value that the kernel returns and the accumulation [result = 0],
    [result += ...] on it. *)
Context {V : Type} (zero : V) (add : V → V → V).

(** [forward_func(easting, northing, upward, west, east, south, north,
    bottom, top, density)] *)
Definition forward_kernel : Type :=
  Qc → Qc → Qc → Qc → Qc → Qc → Qc → float → float → float → V.

Variable forward_func : forward_kernel.

(** "Get bounding indices of the finer box": [(i_min, i_max, j_min, j_max)]. *)
Definition bounding_indices (easting northing : Qc)
    (prisms_easting prisms_northing : list Qc)
    (fine_distance spacing_easting spacing_northing : Qc)
  : result (Z * Z * Z * Z) :=
  easting_min ← np_min prisms_easting;
  northing_min ← np_min prisms_northing;
  q ← floor_div (easting - easting_min - fine_distance) spacing_easting;
  let i_min := Z.max q 0 in
  q ← floor_div (easting - easting_min + fine_distance) spacing_easting;
  let i_max := Z.min (q + 1) (size prisms_easting) in
  q ← floor_div (northing - northing_min - fine_distance) spacing_northing;
  let j_min := Z.max q 0 in
  q ← floor_div (northing - northing_min + fine_distance) spacing_northing;
  let j_max := Z.min (q + 1) (size prisms_northing) in
  Ok (i_min, i_max, j_min, j_max).

(** "Forward model the finer grid" *)
Definition forward_finer (easting northing upward : Qc)
    (prisms_easting prisms_northing : list Qc)
    (prisms_bottom prisms_top prisms_densities : array2)
    (prism_size_easting prism_size_northing : Qc)
    (box : Z * Z * Z * Z) (result : V) : Numpy.result V :=
  let '(i_min, i_max, j_min, j_max) := box in
  for_each (zrange i_min i_max) (fun i result =>
    c ← item prisms_easting i;
    let west := c - prism_size_easting / 2 in
    let east := c + prism_size_easting / 2 in
    for_each (zrange j_min j_max) (fun j result =>
      c ← item prisms_northing j;
      let south := c - prism_size_northing / 2 in
      let north := c + prism_size_northing / 2 in
      bottom ← item2 prisms_bottom j i;
      top ← item2 prisms_top j i;
      density ← item2 prisms_densities j i;
      Ok (add result
            (forward_func easting northing upward west east south north
                          bottom top density))) result) result.

(** "Forward model the coarser grid" *)
Definition forward_coarser (easting northing upward : Qc)
    (prisms_easting prisms_northing : list Qc)
    (prisms_bottom prisms_top prisms_densities : array2)
    (prism_size_easting prism_size_northing : Qc) (factor : Z)
    (box : Z * Z * Z * Z) (result : V) : Numpy.result V :=
  let '(i_min, i_max, j_min, j_max) := box in
  i_range ← range_step (size prisms_easting) factor;
  for_each i_range (fun i result =>
    c ← item prisms_easting i;
    let west := c - half * prism_size_easting in
    let east := c + (of_Z factor - half) * prism_size_easting in
    j_range ← range_step (size prisms_northing) factor;
    for_each j_range (fun j result =>
      if (i_min <=? i)%Z && (i <? i_max)%Z && (j_min <=? j)%Z && (j <? j_max)%Z
      then Ok result
      else
        c ← item prisms_northing j;
        let south := c - half * prism_size_northing in
        let north := c + (of_Z factor - half) * prism_size_northing in
        let bottom := np_mean (slice2 prisms_bottom j i factor) in
        let top := np_mean (slice2 prisms_top j i factor) in
        let density := np_mean (slice2 prisms_densities j i factor) in
        if isnan density then Ok result
        else
          Ok (add result
                (forward_func easting northing upward west east south north
                              bottom top density))) result) result.

Definition _gravity_coarser (easting northing upward : Qc)
    (prisms_easting prisms_northing : list Qc)
    (prisms_bottom prisms_top prisms_densities : array2)
    (fine_distance : Qc) (factor : Z) : result V :=
  e1 ← item prisms_easting 1;
  e0 ← item prisms_easting 0;
  let prism_size_easting := e1 - e0 in
  n1 ← item prisms_northing 1;
  n0 ← item prisms_northing 0;
  let prism_size_northing := n1 - n0 in
  let spacing_easting := prism_size_easting * of_Z factor in
  let spacing_northing := prism_size_northing * of_Z factor in
  box ← bounding_indices easting northing prisms_easting prisms_northing
          fine_distance spacing_easting spacing_northing;
  result ← forward_finer easting northing upward prisms_easting prisms_northing
             prisms_bottom prisms_top prisms_densities
             prism_size_easting prism_size_northing box zero;
  forward_coarser easting northing upward prisms_easting prisms_northing
    prisms_bottom prisms_top prisms_densities
    prism_size_easting prism_size_northing factor box result.

End Driver.

(** The part of the layer dataset that [update_top_bottom] reads and
    writes: the prism-centre coordinates and the [top] and [bottom]
    coordinates. *)
Record layer : Type := mk_layer {
  easting : list Qc;
  northing : list Qc;
  top : array2;
  bottom : array2
}.

(** [self.shape] *)
Definition shape (self : layer) : nat * nat :=
  (length (northing self), length (easting self)).

(** [a.shape == s] *)
Definition has_shape (a : array2) (s : nat * nat) : bool :=
  (length a =? fst s)%nat && forallb (fun row => (length row =? snd s)%nat) a.

(** [reference]: a float ([ndim == 0]) or a two-dimensional array. *)
Inductive reference_arg : Type :=
| Scalar (v : float)
| Grid (a : array2).

(** [a < b] on floats: false when either is not-a-number. *)
Definition flt (a b : float) : bool :=
  match a, b with
  | Num x, Num y => bool_decide (x < y)
  | _, _ => false
  end.

(** [a <= b] on floats: false when either is not-a-number. *)
Definition fle (a b : float) : bool :=
  match a, b with
  | Num x, Num y => bool_decide (x <= y)
  | _, _ => false
  end.

(** [dst[mask] = src[mask]] on a copy of [dst]. *)
Definition masked_assign (dst : array2) (mask : list (list bool)) (src : array2)
  : array2 :=
  zip_with (fun drow mrow =>
              zip_with (fun (d : float) (ms : bool * float) =>
                          if fst ms then snd ms else d) drow mrow)
           dst (zip_with zip mask src).

Definition update_top_bottom (self : layer) (surface : array2)
    (reference : reference_arg) : result layer :=
  if negb (has_shape surface (shape self)) then
    Raise (ValueError "Invalid surface array")
  else
  reference ←
    match reference with
    | Grid a =>
        if negb (has_shape a (shape self))
        then Raise (ValueError "Invalid reference array")
        else Ok a
    | Scalar v =>
        Ok (replicate (fst (shape self)) (replicate (snd (shape self)) v))
    end;
  let top := surface in
  let bottom := reference in
  let reverse := zip_with (zip_with flt) surface reference in
  let top := masked_assign top reverse reference in
  let bottom := masked_assign bottom reverse surface in
  Ok (mk_layer (easting self) (northing self) top bottom).

End PrismLayer.

(** ** Part II: notions used in the statements *)

Module NumpySpec.
Import Numpy.

(** Every exception that [r] can be satisfies [P]. *)
Definition raises_only {A} (P : exn → Prop) (r : result A) : Prop :=
  ∀ e, r = Raise e → P e.

(** The only exception that [r] can be is [IndexError]. *)
Definition index_error_only {A} (r : result A) : Prop :=
  raises_only (fun e => e = IndexError) r.

End NumpySpec.

Module LegendreSpec.
Import Numpy Legendre.

(** The array has [rows] rows of [cols] entries each. *)
Definition has_shape {K} (p : ndarray K) (rows cols : nat) : Prop :=
  length (cells p) = rows ∧ Forall (fun row => length row = cols) (cells p).

(** The recursion of the constructors read as a function of degree and
    order: the value that the loops leave in [p[n, m]] for [m <= n]. *)
Fixpoint legendre_value (cf : coefficients) (x : R) (sqrt_x : float)
    (n m : nat) : float :=
  match n with
  | O => if decide (m = 0%nat) then p_00 cf else NaN
  | S n1 =>
      if decide (m = S n1) then
        fmul (fmul (d_nm cf (S n1)) sqrt_x) (legendre_value cf x sqrt_x n1 n1)
      else if decide (m = n1) then
        fmul (fmul (c_nm cf (S n1)) (Num x)) (legendre_value cf x sqrt_x n1 n1)
      else if decide (m < n1)%nat then
        fadd (fmul (fmul (a_nm cf (S n1) m) (Num x))
                   (legendre_value cf x sqrt_x n1 m))
             (fmul (b_nm cf (S n1) m)
                   match n1 with
                   | O => NaN
                   | S n2 => legendre_value cf x sqrt_x n2 m
                   end)
      else NaN
  end.

(** The table while row [k] is being filled: rows below [k] are complete,
    row [k] holds its first [j] entries, everything else is untouched. *)
Definition partial_entry (cf : coefficients) (x : R) (sqrt_x : float)
    (k j n m : nat) : float :=
  if decide ((n < k)%nat ∧ (m ≤ n)%nat) then legendre_value cf x sqrt_x n m
  else if decide (n = k ∧ (m < j)%nat) then legendre_value cf x sqrt_x n m
  else NaN.

Definition table_state (cf : coefficients) (x : R) (sqrt_x : float)
    (size k j : nat) (p : table) : Prop :=
  has_shape p size size
  ∧ (∀ n m, (n < size)%nat → (m < size)%nat →
            getitem p n m = Ok (partial_entry cf x sqrt_x k j n m))
  ∧ Forall (fun nm : nat * nat => (nm.2 ≤ nm.1)%nat) (written p).

End LegendreSpec.

Module PointMassSpec.
Import Numpy PointMass.
Local Open Scope R_scope.
Local Open Scope string_scope.

(** A point: (easting, northing, down) or (longitude, latitude, radius). *)
Definition point : Type := R * R * R.

(** The three coordinate arrays of a point set. *)
Definition columns (points : list point) : array * array * array :=
  (map (fun p : point => p.1.1) points,
   map (fun p : point => p.1.2) points,
   map (fun p : point => p.2) points).

(** The field selectors that the specification allows for each coordinate
    system: [potential] and [g_z] for [cartesian], [potential] and [g_r] for
    [spherical]. *)
Definition valid_combination (coordinate_system field : string) : bool :=
  (String.eqb coordinate_system "cartesian"
   && (String.eqb field "potential" || String.eqb field "g_z"))
  || (String.eqb coordinate_system "spherical"
      && (String.eqb field "potential" || String.eqb field "g_r")).

(** The acceleration fields. *)
Definition acceleration_field (field : string) : bool :=
  String.eqb field "g_z" || String.eqb field "g_r".



Definition degrees_to_radians (d : R) : R := d * PI / 180.

(** The kernel of a (coordinate system, field) pair as a function of the
    observation point and the source point. *)
Definition cartesian_pair (k : R → R → R → R → R → R → result R)
    (o s : point) : result R :=
  k o.1.1 o.1.2 o.2 s.1.1 s.1.2 s.2.

Definition spherical_pair (k : R → R → R → R → R → R → R → R → result R)
    (o s : point) : result R :=
  k (degrees_to_radians o.1.1)
    (cos (degrees_to_radians o.1.2)) (sin (degrees_to_radians o.1.2)) o.2
    (degrees_to_radians s.1.1)
    (cos (degrees_to_radians s.1.2)) (sin (degrees_to_radians s.1.2)) s.2.

Definition pair_kernel (coordinate_system field : string)
  : option (point → point → result R) :=
  if String.eqb coordinate_system "cartesian" then
    if String.eqb field "potential"
    then Some (cartesian_pair kernel_potential_cartesian)
    else if String.eqb field "g_z" then Some (cartesian_pair kernel_g_z)
    else None
  else if String.eqb coordinate_system "spherical" then
    if String.eqb field "potential"
    then Some (spherical_pair kernel_potential_spherical)
    else if String.eqb field "g_r" then Some (spherical_pair kernel_g_r)
    else None
  else None.

(** The squared distance between an observation point and a source, as the
    kernels of the coordinate system compute it. *)
Definition distance_sq (coordinate_system : string) (o s : point) : R :=
  if String.eqb coordinate_system "spherical" then
    let coslambda := cos (degrees_to_radians s.1.1 - degrees_to_radians o.1.1) in
    let cospsi :=
      sin (degrees_to_radians s.1.2) * sin (degrees_to_radians o.1.2)
      + cos (degrees_to_radians s.1.2) * cos (degrees_to_radians o.1.2)
        * coslambda in
    (o.2 - s.2) ^ 2 + 2 * o.2 * s.2 * (1 - cospsi)
  else _distance_cartesian_sq o s.

(** No source lies at an observation point: every squared distance between
    an observation point and a source is positive. *)
Definition apart (coordinate_system : string) (obs sources : list point)
  : Prop :=
  Forall (fun o => Forall (fun s => 0 < distance_sq coordinate_system o s)
                          sources) obs.

(** Some source lies at an observation point. *)
Definition coincide (coordinate_system : string) (obs sources : list point)
  : Prop :=
  ∃ o s, o ∈ obs ∧ s ∈ sources ∧ distance_sq coordinate_system o s = 0.

(** The number that a kernel call returns. *)
Definition returned (r : result R) : R :=
  match r with
  | inr v => v
  | inl _ => 0
  end.

Definition pair_value (k : point → point → result R) (o s : point) : R :=
  returned (k o s).

(** The raw pairwise sum at one observation point: the masses times the
    kernel, accumulated over the sources in order, starting from zero. *)
Definition pairwise_sum (k : point → point → R) (sources : list point)
    (masses : list R) (o : point) : R :=
  fold_left (fun acc (sm : point * R) => acc + sm.2 * k o sm.1)
            (zip sources masses) 0.



(** A sample value for the gravitational constant (SI units). *)
Definition gravitational_const_sample : R := 6674 / 100000000000000.

End PointMassSpec.

Module PrismLayerSpec.
Import Numpy PrismLayer.
Local Open Scope Z_scope.
Local Open Scope Qc_scope.

(** The entry [(j, i)] of a two-dimensional array, if it exists. *)
Definition cell {A} (a : list (list A)) (j i : nat) : option A :=
  row ← a !! j; row !! i.

(** The reference height at a cell. *)
Definition reference_at (reference : reference_arg) (j i : nat)
  : option float :=
  match reference with
  | Scalar v => Some v
  | Grid a => cell a j i
  end.

(** The shape that [update_top_bottom] accepts for [reference]. *)
Definition reference_fits (self : layer) (reference : reference_arg) : bool :=
  match reference with
  | Scalar _ => true
  | Grid a => has_shape a (shape self)
  end.

(** Every cell of the layer has [bottom <= top]. *)
Definition bottom_below_top (self : layer) : Prop :=
  ∀ j i b t, cell (bottom self) j i = Some b → cell (top self) j i = Some t →
             fle b t = true.

(** One kernel call: the ten arguments of [forward_func]. *)
Record call : Type := Call {
  obs_easting : Qc;
  obs_northing : Qc;
  obs_upward : Qc;
  west : Qc;
  east : Qc;
  south : Qc;
  north : Qc;
  prism_bottom : float;
  prism_top : float;
  prism_density : float
}.

Definition apply_kernel {V} (forward_func : @forward_kernel V) (c : call) : V :=
  forward_func (obs_easting c) (obs_northing c) (obs_upward c)
    (west c) (east c) (south c) (north c)
    (prism_bottom c) (prism_top c) (prism_density c).

(** A kernel that returns the call it receives; accumulated with list
    concatenation it yields the sequence of kernel calls of a run. *)
Definition record_call : @forward_kernel (list call) :=
  fun e n u w ea s no b t d => [Call e n u w ea s no b t d].

Definition kernel_calls (easting northing upward : Qc)
    (prisms_easting prisms_northing : list Qc)
    (prisms_bottom prisms_top prisms_densities : array2)
    (fine_distance : Qc) (factor : Z) : result (list call) :=
  _gravity_coarser [] (@app call) record_call easting northing upward
    prisms_easting prisms_northing prisms_bottom prisms_top prisms_densities
    fine_distance factor.

(** The centre coordinate with index [i], and the grid value at
    (northing index [j], easting index [i]). *)
Definition centre (a : list Qc) (i : Z) : Qc := default 0 (a !! Z.to_nat i).
Definition value (a : array2) (j i : Z) : float :=
  default NaN (cell a (Z.to_nat j) (Z.to_nat i)).

(** The index window [(i_min, i_max, j_min, j_max)]. *)
Definition in_window (box : Z * Z * Z * Z) (i j : Z) : bool :=
  let '(i_min, i_max, j_min, j_max) := box in
  (i_min <=? i)%Z && (i <? i_max)%Z && (j_min <=? j)%Z && (j <? j_max)%Z.

(** The cells [(i, j)] of the window, in the order of the fine loops. *)
Definition near_cells (box : Z * Z * Z * Z) : list (Z * Z) :=
  let '(i_min, i_max, j_min, j_max) := box in
  flat_map (fun i => map (fun j => (i, j)) (zrange j_min j_max))
           (zrange i_min i_max).

(** The values of [range(0, stop, step)] for a positive step. *)
Definition steps (stop step : Z) : list Z :=
  map (fun k => (Z.of_nat k * step)%Z)
      (seq 0 (Z.to_nat ((stop + step - 1) / step))).

(** Fine prism [(i, j)] lies in the block with origin [(bi, bj)]. *)
Definition in_block (factor bi bj i j : Z) : bool :=
  (bi <=? i)%Z && (i <? bi + factor)%Z && (bj <=? j)%Z && (j <? bj + factor)%Z.

(** The centres [a] are evenly spaced: [a[k] = first + k * spacing] with a
    positive spacing, and there are at least two of them. *)
Definition regular (a : list Qc) (first spacing : Qc) : Prop :=
  0 < spacing ∧ (2 ≤ length a)%nat
  ∧ ∀ k, (k < length a)%nat →
         a !! k = Some (first + of_Z (Z.of_nat k) * spacing).

(** The centre [c] lies within distance [d] of the coordinate [x]. *)
Definition within (c x d : Qc) : Prop := x - d ≤ c ∧ c ≤ x + d.

(** The floor quotient [a // b] by a positive [b], and that quotient plus
    one, are 64-bit integers: the conversion [int] is exact on them. *)
Definition int64_quotient (a b : Qc) : Prop :=
  of_Z (- 2 ^ 63) * b ≤ a ∧ a < of_Z (2 ^ 63 - 1) * b.

(** The two quotients behind the bounds of the window on one axis are
    64-bit integers. *)
Definition window_int64 (x first fine_distance spacing : Qc) : Prop :=
  int64_quotient (x - first - fine_distance) spacing
  ∧ int64_quotient (x - first + fine_distance) spacing.

Section Grid.

Variables (easting northing upward : Qc).
Variables (prisms_easting prisms_northing : list Qc).
Variables (prisms_bottom prisms_top prisms_densities : array2).

(** The window lies inside the grid. *)
Definition window_in_grid (box : Z * Z * Z * Z) : Prop :=
  let '(i_min, i_max, j_min, j_max) := box in
  (0 ≤ i_min ∧ i_max ≤ size prisms_easting
   ∧ 0 ≤ j_min ∧ j_max ≤ size prisms_northing)%Z.

(** The three grids have one row per northing and one column per easting. *)
Definition grid_fits : Prop :=
  let s := (length prisms_northing, length prisms_easting) in
  has_shape prisms_bottom s = true ∧ has_shape prisms_top s = true
  ∧ has_shape prisms_densities s = true.

Definition fine_prism_sized (size_easting size_northing : Qc) (ij : Z * Z)
  : call :=
  let '(i, j) := ij in
  Call easting northing upward
    (centre prisms_easting i - size_easting / 2)
    (centre prisms_easting i + size_easting / 2)
    (centre prisms_northing j - size_northing / 2)
    (centre prisms_northing j + size_northing / 2)
    (value prisms_bottom j i) (value prisms_top j i)
    (value prisms_densities j i).

Definition coarse_prism_sized (size_easting size_northing : Qc) (factor : Z)
    (ij : Z * Z) : call :=
  let '(i, j) := ij in
  Call easting northing upward
    (centre prisms_easting i - half * size_easting)
    (centre prisms_easting i + (of_Z factor - half) * size_easting)
    (centre prisms_northing j - half * size_northing)
    (centre prisms_northing j + (of_Z factor - half) * size_northing)
    (np_mean (slice2 prisms_bottom j i factor))
    (np_mean (slice2 prisms_top j i factor))
    (np_mean (slice2 prisms_densities j i factor)).

Definition size_easting : Qc := centre prisms_easting 1 - centre prisms_easting 0.
Definition size_northing : Qc :=
  centre prisms_northing 1 - centre prisms_northing 0.

(** The call for fine prism [(i, j)]: its own horizontal extent, bottom,
    top and density. *)
Definition fine_prism : Z * Z → call :=
  fine_prism_sized size_easting size_northing.

(** The call for the block with origin [(i, j)]: [factor] prism sizes from
    the west and south faces of its first prism, with the means of the
    block's bottom, top and density. *)
Definition coarse_prism (factor : Z) : Z * Z → call :=
  coarse_prism_sized size_easting size_northing factor.

(** The window that [_gravity_coarser] computes. *)
Definition near_window (fine_distance : Qc) (factor : Z)
  : result (Z * Z * Z * Z) :=
  e1 ← item prisms_easting 1;
  e0 ← item prisms_easting 0;
  n1 ← item prisms_northing 1;
  n0 ← item prisms_northing 0;
  bounding_indices easting northing prisms_easting prisms_northing
    fine_distance ((e1 - e0) * of_Z factor) ((n1 - n0) * of_Z factor).

(** The origins of the blocks of the tiling, in the order of the coarse
    loops. *)
Definition block_origins (factor : Z) : list (Z * Z) :=
  flat_map (fun i => map (fun j => (i, j)) (steps (size prisms_northing) factor))
           (steps (size prisms_easting) factor).

(** The blocks that the coarse loops evaluate: origin outside the window,
    mean density a number. *)
Definition evaluated (factor : Z) (box : Z * Z * Z * Z) (ij : Z * Z) : bool :=
  negb (in_window box ij.1 ij.2)
  && negb (isnan (np_mean (slice2 prisms_densities ij.2 ij.1 factor))).

Definition evaluated_blocks (factor : Z) (box : Z * Z * Z * Z)
  : list (Z * Z) :=
  filter (fun ij => evaluated factor box ij = true) (block_origins factor).

(** All cells in the order in which the layer lists its prisms (northing
    index outermost). *)
Definition layer_cells : list (Z * Z) :=
  flat_map (fun j => map (fun i => (i, j)) (zrange 0 (size prisms_easting)))
           (zrange 0 (size prisms_northing)).

(** The exact summation: the kernel on every fine prism of the layer, each
    once, accumulated from zero. *)
Definition exact_summation {V} (zero : V) (add : V → V → V)
    (forward_func : @forward_kernel V) : V :=
  fold_left (fun acc c => add acc (apply_kernel forward_func c))
            (map fine_prism layer_cells) zero.

End Grid.

End PrismLayerSpec.

(** ** Part I, continued: further notions for the Legendre tables *)

Module LegendreFacts.
Import Numpy Legendre.
Local Open Scope R_scope.

(** The coefficients that the loops use are numbers: [p[0, 0]], [c_nm] and
    [d_nm] from degree 1 on, [a_nm] and [b_nm] for [m < n - 1]. *)
Definition coefficients_finite (cf : coefficients) : Prop :=
  isnan (p_00 cf) = false
  ∧ (∀ n, (1 ≤ n)%nat → isnan (c_nm cf n) = false ∧ isnan (d_nm cf n) = false)
  ∧ (∀ n m, (m + 2 ≤ n)%nat →
            isnan (a_nm cf n m) = false ∧ isnan (b_nm cf n m) = false).

(** The sign [(-1)^k]. *)
Definition sign (k : nat) : R := (-1) ^ k.

(** The three constructors, by their coefficients. *)
Definition constructors : list coefficients := [unnormalized; schmidt; full].

End LegendreFacts.
Module PointMassFacts.
Import Numpy PointMass PointMassSpec.

(** The arrays [second] and [third] hold, at least, the second and third
    coordinates of the points, in order. *)
Definition covers (points : list point) (second third : array) : Prop :=
  ∀ l o, points !! l = Some o →
         second !! l = Some o.1.2 ∧ third !! l = Some o.2.

End PointMassFacts.

(** *** prism_layer.py: the grid check, the thin-prism filter and the loop
    over the observation points *)

Module PrismLayerFunctions.
Import Numpy PrismLayer.
Local Open Scope Z_scope.
Local Open Scope Qc_scope.
Local Open Scope string_scope.

(** [np.abs] *)
Definition np_abs (x : Qc) : Qc := if Qclt_le_dec x 0 then - x else x.

(** The default tolerances of [np.allclose]: [rtol=1e-05], [atol=1e-08]. *)
Definition rtol : Qc := Q2Qc (1 # 100000).
Definition atol : Qc := Q2Qc (1 # 100000000).

(** [np.isclose(a, b)] on numbers: [abs(a - b) <= atol + rtol * abs(b)]. *)
Definition isclose (a b : Qc) : bool :=
  bool_decide (np_abs (a - b) <= atol + rtol * np_abs b)%Qc.

(** [np.allclose(a, b)] for a scalar [a] and an array [b]. *)
Definition np_allclose (a : Qc) (b : list Qc) : bool := forallb (isclose a) b.

(** [a[1:] - a[:-1]] *)
Definition differences (a : list Qc) : list Qc :=
  zip_with Qcminus (drop 1 a) (take (length a - 1) a).

Definition _check_regular_grid (easting northing : list Qc) : result unit :=
  e1 ← item easting 1;
  e0 ← item easting 0;
  if negb (np_allclose (e1 - e0) (differences easting)) then
    Raise (ValueError "Passed easting coordinates are not evenly spaced.")
  else
  n1 ← item northing 1;
  n0 ← item northing 0;
  if negb (np_allclose (n1 - n0) (differences northing)) then
    Raise (ValueError "Passed northing coordinates are not evenly spaced.")
  else Ok tt.

(** The boundaries of one prism: a row of the array that [_to_prisms]
    returns, [(west, east, south, north, bottom, top)]. *)
Definition prism : Type := Qc * Qc * Qc * Qc * float * float.

Definition west_of (p : prism) : Qc := p.1.1.1.1.1.
Definition east_of (p : prism) : Qc := p.1.1.1.1.2.
Definition south_of (p : prism) : Qc := p.1.1.1.2.
Definition north_of (p : prism) : Qc := p.1.1.2.
Definition bottom_of (p : prism) : float := p.1.2.
Definition top_of (p : prism) : float := p.2.

(** The entries of [a] at which the boolean [mask] holds, in order. *)
Fixpoint select {A} (a : list A) (mask : list bool) : list A :=
  match a, mask with
  | x :: a', b :: mask' => if b then x :: select a' mask' else select a' mask'
  | _, _ => []
  end.

(** [a[mask]] for a boolean mask: the sizes must agree. *)
Definition boolean_index {A} (a : list A) (mask : list bool)
  : result (list A) :=
  if decide (length a = length mask) then Ok (select a mask)
  else Raise IndexError.

(** [top - bottom] on floats. *)
Definition fminus : float → float → float := lift2 Qcminus.

Definition _discard_thin_prisms (prisms : list prism) (density : list float)
    (thickness_threshold : float)
  : result (list prism * list float) :=
  let thickness := map (fun p => fminus (top_of p) (bottom_of p)) prisms in
  let null_prisms := map (fun t => flt t thickness_threshold) thickness in
  prisms ← boolean_index prisms (map negb null_prisms);
  density ← boolean_index density (map negb null_prisms);
  Ok (prisms, density).

(** [result += v] on floats. *)
Definition fplus : float → float → float := lift2 Qcplus.

(** The compiled loop over the observation points:
    [out[k] += _gravity_coarser(easting[k], northing[k], upward[k], ...)]. *)
Definition gravity_coarser (coordinates : list Qc * list Qc * list Qc)
    (prisms_easting prisms_northing : list Qc)
    (prisms_bottom prisms_top prisms_densities : array2)
    (forward_func : @forward_kernel float) (fine_distance : Qc) (factor : Z)
    (out : list float) : result (list float) :=
  let '(easting, northing, upward) := coordinates in
  for_each (range 0 (length easting)) (fun k out =>
    o ← index out k;
    e ← index easting k;
    n ← index northing k;
    u ← index upward k;
    v ← _gravity_coarser (Num 0) fplus forward_func e n u
          prisms_easting prisms_northing prisms_bottom prisms_top
          prisms_densities fine_distance factor;
    Ok (<[k := fplus o v]> out)) out.

(** The dataset that [prism_layer] builds, as far as its coordinates go:
    the grid check on the centres, then [update_top_bottom] on the new
    dataset.  (The property arrays are stored by [vd.make_xarray_grid] and
    not read here.) *)
Definition prism_layer (coordinates : list Qc * list Qc) (surface : array2)
    (reference : reference_arg) : result layer :=
  let '(easting, northing) := coordinates in
  _ ← _check_regular_grid easting northing;
  update_top_bottom (mk_layer easting northing [] []) surface reference.

End PrismLayerFunctions.

(** *** prism_layer.py: the properties and methods of the dataset accessor

    [self] is the dataset behind the accessor: its centres and its [top] and
    [bottom] coordinates.  xarray keeps every variable of the dataset in the
    shape of the grid.  A property array such as the density is looked up by
    name in the dataset by xarray; the methods below take its values. *)

Module DatasetAccessorPrismLayer.
Import Numpy PrismLayer PrismLayerFunctions.
Local Open Scope Z_scope.
Local Open Scope Qc_scope.
Local Open Scope string_scope.

Definition dims : string * string := ("northing", "easting").

(** [(s_north, s_east)] *)
Definition spacing (self : layer) : result (Qc * Qc) :=
  _ ← _check_regular_grid (easting self) (northing self);
  n1 ← item (northing self) 1;
  n0 ← item (northing self) 0;
  e1 ← item (easting self) 1;
  e0 ← item (easting self) 0;
  Ok (n1 - n0, e1 - e0).

(** [a.max()] *)
Definition np_max (a : list Qc) : result Qc :=
  match a with
  | [] => Raise (ValueError "zero-size array to reduction operation maximum")
  | x :: xs => Ok (fold_left (fun m y => if Qclt_le_dec m y then y else m) xs x)
  end.

(** [(west, east, south, north)] *)
Definition boundaries (self : layer) : result (Qc * Qc * Qc * Qc) :=
  s ← spacing self;
  let '(s_north, s_east) := s in
  emin ← np_min (easting self);
  let west := emin - s_east / 2 in
  emax ← np_max (easting self);
  let east := emax + s_east / 2 in
  nmin ← np_min (northing self);
  let south := nmin - s_north / 2 in
  nmax ← np_max (northing self);
  let north := nmax + s_north / 2 in
  Ok (west, east, south, north).

(** The number of prisms of the layer. *)
Definition size (self : layer) : nat :=
  (length (northing self) * length (easting self))%nat.

(** The arithmetic of [_get_prism_horizontal_boundaries] for one centre. *)
Definition horizontal_boundaries (spacing : Qc * Qc) (easting northing : Qc)
  : Qc * Qc * Qc * Qc :=
  let west := easting - spacing.2 / 2 in
  let east := easting + spacing.2 / 2 in
  let south := northing - spacing.1 / 2 in
  let north := northing + spacing.1 / 2 in
  (west, east, south, north).

(** [_get_prism_horizontal_boundaries] on the centre of one prism. *)
Definition _get_prism_horizontal_boundaries (self : layer)
    (easting northing : Qc) : result (Qc * Qc * Qc * Qc) :=
  spacing ← spacing self;
  Ok (horizontal_boundaries spacing easting northing).

(** [_get_prism_horizontal_boundaries] on arrays of centres: the same
    arithmetic, elementwise. *)
Definition _get_prism_horizontal_boundaries_arrays (self : layer)
    (easting northing : list Qc) : result (list (Qc * Qc * Qc * Qc)) :=
  spacing ← spacing self;
  Ok (zip_with (horizontal_boundaries spacing) easting northing).

(** [np.meshgrid(x, y)]: two arrays with one row per [y] and one column per
    [x]. *)
Definition meshgrid (x y : list Qc) : list (list Qc) * list (list Qc) :=
  (map (fun _ => x) y, map (fun yj => map (fun _ => yj) x) y).

(** [a.ravel()] *)
Definition ravel {A} (a : list (list A)) : list A := concat a.

(** [np.vstack((west, east, south, north, bottom, top)).T]: the columns
    must have one size. *)
Definition vstack_T (horizontal : list (Qc * Qc * Qc * Qc))
    (bottom top : list float) : result (list prism) :=
  if decide (length horizontal = length bottom
             ∧ length horizontal = length top)
  then Ok (zip_with (fun hb bt => (hb, bt.1, bt.2)) horizontal (zip bottom top))
  else Raise (ValueError
    "all the input array dimensions except for the concatenation axis must match exactly").

Definition _to_prisms (self : layer) : result (list prism) :=
  let '(easting, northing) := meshgrid (easting self) (northing self) in
  horizontal ←
    _get_prism_horizontal_boundaries_arrays self (ravel easting)
      (ravel northing);
  let bottom := ravel (bottom self) in
  let top := ravel (top self) in
  vstack_T horizontal bottom top.

(** [indices] is [(index_northing, index_easting)]. *)
Definition get_prism (self : layer) (indices : Z * Z) : result prism :=
  center_easting ← item (easting self) indices.2;
  center_northing ← item (northing self) indices.1;
  horizontal ←
    _get_prism_horizontal_boundaries self center_easting center_northing;
  bottom ← item2 (bottom self) indices.1 indices.2;
  top ← item2 (top self) indices.1 indices.2;
  Ok (horizontal, bottom, top).

(** The mask and whether the warning about missing property values was
    issued. *)
Definition _get_nonans_mask (self : layer) (property : option array2)
  : list (list bool) * bool :=
  let mask :=
    zip_with (zip_with andb)
      (map (map (fun v => negb (isnan v))) (top self))
      (map (map (fun v => negb (isnan v))) (bottom self)) in
  match property with
  | None => (mask, false)
  | Some values =>
      let mask_property := map (map (fun v => negb (isnan v))) values in
      let warned :=
        negb (forallb (fun b : bool => b)
                (select (ravel mask_property) (ravel mask))) in
      (zip_with (zip_with andb) mask mask_property, warned)
  end.

Section Gravity.

(** [harmonica.prism_gravity], imported by the module: it receives the
    observation points, the prisms, their densities and the field (with the
    progress-bar flag and the keyword arguments, passed on untouched). *)
Context {Coordinates Out : Type}.
Variable prism_gravity :
  Coordinates → list prism → list float → string → result Out.

(** The result of [prism_gravity], with the warning flag of the mask. *)
Definition gravity (self : layer) (coordinates : Coordinates) (field : string)
    (density : array2) (thickness_threshold : option float)
  : result (bool * Out) :=
  boundaries ← _to_prisms self;
  let '(mask, warned) := _get_nonans_mask self (Some density) in
  boundaries ← boolean_index boundaries (ravel mask);
  density ← boolean_index (ravel density) (ravel mask);
  selected ←
    match thickness_threshold with
    | Some threshold => _discard_thin_prisms boundaries density threshold
    | None => Ok (boundaries, density)
    end;
  out ← prism_gravity coordinates selected.1 selected.2 field;
  Ok (warned, out).

End Gravity.

Section GravityCoarser.

(** [harmonica._forward.prism_gravity.FIELDS], imported by the module: the
    kernel of every field. *)
Variable FIELDS : list (string * @forward_kernel float).

(** [result *= c] *)
Definition scale (c : Qc) (result : list float) : list float :=
  map (fun r => lift2 Qcmult r (Num c)) result.

Definition gravity_coarser (self : layer)
    (coordinates : list Qc * list Qc * list Qc) (field : string)
    (fine_distance : Qc) (factor : Z) (density : array2)
  : result (list float) :=
  let '(c0, c1, c2) := coordinates in
  d ← PointMass.broadcast_dim (length c0) (length c1);
  cast_size ← PointMass.broadcast_dim d (length c2);
  let result := replicate cast_size (Num 0) in
  _ ← _check_regular_grid (easting self) (northing self);
  forward_func ← PointMass.dict_item FIELDS field;
  result ←
    PrismLayerFunctions.gravity_coarser coordinates
      (easting self) (northing self) (bottom self) (top self) density
      forward_func fine_distance factor result;
  let result :=
    if PointMass.str_in field ["g_z"; "g_ez"; "g_nz"]
    then scale (of_Z (-1)) result else result in
  let result :=
    if PointMass.str_in field ["g_e"; "g_n"; "g_z"]
    then scale (of_Z 100000) result else result in
  let result :=
    if PointMass.str_in field ["g_ee"; "g_nn"; "g_zz"; "g_en"; "g_ez"; "g_nz"]
    then scale (of_Z 1000000000) result else result in
  Ok result.

End GravityCoarser.

End DatasetAccessorPrismLayer.

(** *** Notions used to state further properties of the prism layer *)

Module PrismLayerFacts.
Import Numpy PrismLayer PrismLayerSpec PrismLayerFunctions.
Local Open Scope Z_scope.
Local Open Scope Qc_scope.

(** The centres [a] are evenly spaced, with a spacing of any sign:
    [a[k] = first + k * spacing], and there are at least two of them. *)
Definition evenly_spaced (a : list Qc) (first spacing : Qc) : Prop :=
  (2 ≤ length a)%nat
  ∧ ∀ k, (k < length a)%nat →
         a !! k = Some (first + of_Z (Z.of_nat k) * spacing).

(** The last of evenly spaced centres. *)
Definition last_centre (a : list Qc) (first spacing : Qc) : Qc :=
  first + of_Z (size a - 1) * spacing.

(** Every centre is smaller than the next one. *)
Definition strictly_increasing (a : list Qc) : Prop :=
  ∀ k x y, a !! k = Some x → a !! S k = Some y → x < y.

(** The [top] and [bottom] coordinates have the shape of the grid, as xarray
    keeps them. *)
Definition well_shaped (self : layer) : Prop :=
  has_shape (top self) (shape self) = true
  ∧ has_shape (bottom self) (shape self) = true.

(** The spacings that [spacing] reads off the first two centres,
    [(s_north, s_east)]. *)
Definition first_spacing (self : layer) : Qc * Qc :=
  (centre (northing self) 1 - centre (northing self) 0,
   centre (easting self) 1 - centre (easting self) 0).

(** The prism of the cell with northing index [j] and easting index [i]:
    half a spacing on each side of its centre, with the cell's bottom and
    top. *)
Definition prism_at (self : layer) (j i : Z) : prism :=
  (DatasetAccessorPrismLayer.horizontal_boundaries (first_spacing self)
     (centre (easting self) i) (centre (northing self) j),
   value (bottom self) j i, value (top self) j i).

(** A sample layer: three columns, two rows. *)
Definition sample_layer : layer :=
  mk_layer [of_Z 0; of_Z 2; of_Z 4] [of_Z 1; of_Z 4]
    [[Num (of_Z 5); Num (of_Z 6); Num (of_Z 7)];
     [Num (of_Z 8); NaN; Num (of_Z 9)]]
    [[Num (of_Z 0); Num (of_Z 0); Num (of_Z 0)];
     [Num (of_Z 1); Num (of_Z 1); Num (of_Z 1)]].

(** A density for the sample layer, with one missing value. *)
Definition sample_density : array2 :=
  [[Num (of_Z 2670); Num (of_Z 2670); NaN];
   [Num (of_Z 2670); Num (of_Z 2000); Num (of_Z 2670)]].

End PrismLayerFacts.

Module CoarseningFacts.
Import Numpy PrismLayer PrismLayerSpec.
Local Open Scope Z_scope.

(** All cells [(i, j)] of the grid, easting index outermost: the order of
    the coarse loops when [factor] is one. *)
Definition grid_cells (prisms_easting prisms_northing : list Qc)
  : list (Z * Z) :=
  flat_map (fun i => map (fun j => (i, j)) (zrange 0 (size prisms_northing)))
           (zrange 0 (size prisms_easting)).

(** The cell lies outside the window and its density is a number. *)
Definition far_and_dense (prisms_densities : array2) (box : Z * Z * Z * Z)
    (ij : Z * Z) : Prop :=
  in_window box ij.1 ij.2 = false
  ∧ isnan (value prisms_densities ij.2 ij.1) = false.

#[global] Instance far_and_dense_dec prisms_densities box ij :
  Decision (far_and_dense prisms_densities box ij).
Proof. unfold far_and_dense. apply _. Defined.

(** The cells outside the window whose density is a number, in the order of
    the coarse loops. *)
Definition far_cells (prisms_easting prisms_northing : list Qc)
    (prisms_densities : array2) (box : Z * Z * Z * Z) : list (Z * Z) :=
  filter (far_and_dense prisms_densities box)
         (grid_cells prisms_easting prisms_northing).

(** No cell of the grid has a missing density. *)
Definition no_missing_density (prisms_easting prisms_northing : list Qc)
    (prisms_densities : array2) : Prop :=
  ∀ i j, (0 ≤ i < size prisms_easting)%Z → (0 ≤ j < size prisms_northing)%Z →
         isnan (value prisms_densities j i) = false.

End CoarseningFacts.

Module ThinPrismFacts.
Import Numpy PrismLayer PrismLayerFunctions.

(** The prism is kept by [_discard_thin_prisms]: its thickness is not
    below the threshold (a comparison with not-a-number is false, so a
    missing thickness or threshold keeps the prism). *)
Definition thick (thickness_threshold : float) (p : prism) : bool :=
  negb (flt (fminus (top_of p) (bottom_of p)) thickness_threshold).

End ThinPrismFacts.

Module MaskFacts.
Import Numpy PrismLayer PrismLayerSpec PrismLayerFunctions PrismLayerFacts
  ThinPrismFacts.

(** The cell [(i, j)] has a top and a bottom boundary. *)
Definition bounded (self : layer) (ij : Z * Z) : bool :=
  negb (isnan (value (top self) ij.2 ij.1))
  && negb (isnan (value (bottom self) ij.2 ij.1)).

(** The cell has a top, a bottom and a value of the property. *)
Definition complete (self : layer) (values : array2) (ij : Z * Z) : bool :=
  bounded self ij && negb (isnan (value values ij.2 ij.1)).

(** The cell's prism is passed on by [gravity]: it is complete and, when a
    thickness threshold is given, not thinner than the threshold. *)
Definition passed (self : layer) (density : array2)
    (thickness_threshold : option float) (ij : Z * Z) : bool :=
  complete self density ij
  && match thickness_threshold with
     | Some threshold => thick threshold (prism_at self ij.2 ij.1)
     | None => true
     end.

(** The cells whose prisms [gravity] passes on, northing index outermost. *)
Definition passed_cells (self : layer) (density : array2)
    (thickness_threshold : option float) : list (Z * Z) :=
  filter (fun ij => passed self density thickness_threshold ij = true)
         (layer_cells (easting self) (northing self)).

End MaskFacts.

Module AccessorFacts.
Import Numpy PrismLayer PrismLayerFunctions.
Local Open Scope Qc_scope.
Local Open Scope string_scope.

(** An observation point: (easting, northing, upward). *)
Definition observation : Type := Qc * Qc * Qc.

(** The three coordinate arrays of a list of observation points. *)
Definition coordinate_arrays (obs : list observation)
  : list Qc * list Qc * list Qc :=
  (map (fun o : observation => o.1.1) obs,
   map (fun o : observation => o.1.2) obs,
   map (fun o : observation => o.2) obs).

(** The factor between the kernel's sum and the value that the accessor
    returns for a field: the sign for the downward components times the
    conversion to mGal or to Eotvos. *)
Definition unit_factor (field : string) : Qc :=
  (if PointMass.str_in field ["g_z"; "g_ez"; "g_nz"] then of_Z (-1) else 1)
  * (if PointMass.str_in field ["g_e"; "g_n"; "g_z"] then of_Z 100000 else 1)
  * (if PointMass.str_in field
          ["g_ee"; "g_nn"; "g_zz"; "g_en"; "g_ez"; "g_nz"]
     then of_Z 1000000000 else 1).

(** A kernel that counts its calls, and a table of fields that holds it. *)
Definition counting_kernel : @forward_kernel float :=
  fun _ _ _ _ _ _ _ _ _ _ => Num (of_Z 1).
Definition sample_fields : list (string * @forward_kernel float) :=
  [("potential", counting_kernel); ("g_z", counting_kernel)].

End AccessorFacts.

(** ** Part III: proofs *)

Section Loops.
Import Numpy.
Context {A St : Type}.
Implicit Types (l : list A) (body : A → St → result St) (s : St).

Lemma for_each_app l1 l2 body s :
  for_each (l1 ++ l2) body s = s' ← for_each l1 body s; for_each l2 body s'.
Proof.
  revert s; induction l1 as [|a l1 IH]; intros s; simpl; [done|].
  destruct (body a s) as [e|s']; simpl; [done|]. apply IH.
Qed.

Lemma for_each_ext l body1 body2 s :
  (∀ a s, a ∈ l → body1 a s = body2 a s) →
  for_each l body1 s = for_each l body2 s.
Proof.
  revert s; induction l as [|a l IH]; intros s H; simpl; [done|].
  rewrite H by left.
  destruct (body2 a s) as [e|s']; simpl; [done|].
  apply IH. intros; apply H. by right.
Qed.

(** A loop whose body keeps an invariant indexed by the number of
    iterations already done runs to its end. *)
Lemma for_each_invariant (I : nat → St → Prop) l body s :
  I 0%nat s →
  (∀ k a s, l !! k = Some a → I k s → ∃ s', body a s = Ok s' ∧ I (S k) s') →
  ∃ s', for_each l body s = Ok s' ∧ I (length l) s'.
Proof.
  revert I s; induction l as [|a l IH]; intros I s H0 Hstep; simpl.
  - by exists s.
  - destruct (Hstep 0%nat a s eq_refl H0) as (s1 & -> & H1); simpl.
    apply (IH (fun k => I (S k))); [done|].
    intros k b t Hk Ht. by apply (Hstep (S k) b t).
Qed.

End Loops.

Section Exceptions.
Import Numpy NumpySpec.
Context (P : exn → Prop).

Lemma raises_only_ok {A} (a : A) : raises_only P (Ok a).
Proof. intros e [=]. Qed.

Lemma raises_only_raise {A} e : P e → raises_only P (Raise e : result A).
Proof. intros He e' [= <-]. done. Qed.

Lemma raises_only_bind {A B} (c : result A) (f : A → result B) :
  raises_only P c → (∀ a, raises_only P (f a)) → raises_only P (c ≫= f).
Proof.
  intros Hc Hf. destruct c as [e|a]; simpl; [|apply Hf].
  intros e' [= <-]. by apply Hc.
Qed.

Lemma raises_only_index {A} (a : list A) i :
  P IndexError → raises_only P (index a i).
Proof.
  intros HP. unfold index. destruct (a !! i);
    [apply raises_only_ok|by apply raises_only_raise].
Qed.

Lemma raises_only_for_each {A S} (l : list A) (body : A → S → result S) s :
  (∀ a s, raises_only P (body a s)) → raises_only P (for_each l body s).
Proof.
  intros Hbody. revert s; induction l as [|a l IH]; intros s; simpl.
  - apply raises_only_ok.
  - apply raises_only_bind; [apply Hbody|apply IH].
Qed.

End Exceptions.

Section RangeLoops.
Import Numpy.
Context {St : Type}.

Lemma range_lookup a b k :
  (a + k < b)%nat → range a b !! k = Some (a + k)%nat.
Proof. intros H. unfold range. apply lookup_seq. lia. Qed.

Lemma range_lookup_inv a b k x :
  range a b !! k = Some x → x = (a + k)%nat ∧ (a + k < b)%nat.
Proof. unfold range. intros H%lookup_seq. lia. Qed.

Lemma for_each_range (I : nat → St → Prop) a b
    (body : nat → St → result St) (s : St) :
  (a ≤ b)%nat → I a s →
  (∀ k s, (a ≤ k < b)%nat → I k s → ∃ s', body k s = Ok s' ∧ I (S k) s') →
  ∃ s', for_each (range a b) body s = Ok s' ∧ I b s'.
Proof.
  intros Hab H0 Hstep.
  destruct (for_each_invariant (fun k => I (a + k)%nat) (range a b) body s)
    as (s' & Hs' & HI).
  - by rewrite Nat.add_0_r.
  - intros k x t Hk Ht. apply range_lookup_inv in Hk as [-> Hk].
    replace (a + S k)%nat with (S (a + k)) by lia. apply Hstep; [lia|done].
  - exists s'. split; [done|].
    unfold range in HI. rewrite length_seq in HI.
    by replace (a + (b - a))%nat with b in HI by lia.
Qed.

End RangeLoops.
Section Arrays.
Import Numpy LegendreSpec.
Context {K : Type}.
Implicit Types (p : ndarray K) (v : float K).

Lemma np_full_shape rows cols v : has_shape (np_full rows cols v) rows cols.
Proof.
  split; simpl; [apply length_replicate|].
  apply Forall_replicate, length_replicate.
Qed.

Lemma getitem_np_full rows cols v n m :
  (n < rows)%nat → (m < cols)%nat → getitem (np_full rows cols v) n m = Ok v.
Proof.
  intros Hn Hm. unfold getitem, index2, index; simpl.
  rewrite lookup_replicate_2 by done; simpl.
  by rewrite lookup_replicate_2.
Qed.

Lemma getitem_in_bounds p rows cols n m :
  has_shape p rows cols → (n < rows)%nat → (m < cols)%nat →
  ∃ v, getitem p n m = Ok v.
Proof.
  intros [Hr Hc] Hn Hm. unfold getitem, index2, index.
  destruct (lookup_lt_is_Some_2 (cells p) n) as [row Hrow]; [lia|].
  rewrite Hrow; simpl.
  assert (length row = cols) as Hlen
    by (eapply Forall_lookup_1 in Hc; eauto).
  destruct (lookup_lt_is_Some_2 row m) as [v Hv]; [lia|].
  rewrite Hv. by exists v.
Qed.

Lemma setitem_in_bounds p rows cols n m v :
  has_shape p rows cols → (n < rows)%nat → (m < cols)%nat →
  ∃ p', setitem p n m v = Ok p' ∧ has_shape p' rows cols ∧
        written p' = written p ++ [(n, m)] ∧
        ∀ n' m', getitem p' n' m' =
                 if decide (n' = n ∧ m' = m) then Ok v else getitem p n' m'.
Proof.
  intros [Hr Hc] Hn Hm. unfold setitem.
  destruct (lookup_lt_is_Some_2 (cells p) n) as [row Hrow]; [lia|].
  rewrite Hrow.
  assert (length row = cols) as Hlen
    by (eapply Forall_lookup_1 in Hc; eauto).
  rewrite decide_True by lia.
  eexists; split; [done|]. split; [|split; [done|]].
  - split; simpl; [by rewrite length_insert|].
    apply Forall_insert; [done|]. by rewrite length_insert.
  - intros n' m'. unfold getitem, index2, index; simpl.
    destruct (decide (n' = n)) as [->|Hne].
    + rewrite list_lookup_insert_eq by lia. simpl.
      destruct (decide (m' = m)) as [->|Hme].
      * rewrite list_lookup_insert_eq by lia. by rewrite decide_True.
      * rewrite list_lookup_insert_ne by done.
        rewrite decide_False by tauto. by rewrite Hrow.
    + rewrite list_lookup_insert_ne by done.
      by rewrite decide_False by tauto.
Qed.

End Arrays.
Section LegendreTable.
Import Numpy Legendre LegendreSpec.
Variables (cf : coefficients) (x : R) (sqrt_x : float) (size : nat).

Local Abbreviation value := (legendre_value cf x sqrt_x).
Local Abbreviation state := (table_state cf x sqrt_x size).

Lemma value_diagonal n1 :
  value (S n1) (S n1) = fmul (fmul (d_nm cf (S n1)) sqrt_x) (value n1 n1).
Proof. cbn [legendre_value]. by rewrite decide_True. Qed.

Lemma value_sectoral n1 :
  value (S n1) n1 = fmul (fmul (c_nm cf (S n1)) (Num x)) (value n1 n1).
Proof.
  cbn [legendre_value]. rewrite decide_False by lia. by rewrite decide_True.
Qed.

Lemma value_off_diagonal n2 m :
  (m < S n2)%nat →
  value (S (S n2)) m =
  fadd (fmul (fmul (a_nm cf (S (S n2)) m) (Num x)) (value (S n2) m))
       (fmul (b_nm cf (S (S n2)) m) (value n2 m)).
Proof.
  intros Hm. change (value (S (S n2)) m) with
    (if decide (m = S (S n2)) then
       fmul (fmul (d_nm cf (S (S n2))) sqrt_x) (value (S n2) (S n2))
     else if decide (m = S n2) then
       fmul (fmul (c_nm cf (S (S n2))) (Num x)) (value (S n2) (S n2))
     else if decide (m < S n2)%nat then
       fadd (fmul (fmul (a_nm cf (S (S n2)) m) (Num x)) (value (S n2) m))
            (fmul (b_nm cf (S (S n2)) m) (value n2 m))
     else NaN).
  rewrite decide_False by lia. rewrite decide_False by lia.
  by rewrite decide_True.
Qed.

Lemma partial_entry_next k j n m :
  (j ≤ k)%nat →
  partial_entry cf x sqrt_x k (S j) n m =
  if decide (n = k ∧ m = j) then value k j
  else partial_entry cf x sqrt_x k j n m.
Proof.
  intros Hj. unfold partial_entry.
  repeat case_decide; try done; try lia; destruct_and?; subst; try done; lia.
Qed.

Lemma partial_entry_row_done k n m :
  partial_entry cf x sqrt_x k (S k) n m = partial_entry cf x sqrt_x (S k) 0 n m.
Proof.
  unfold partial_entry.
  repeat case_decide; try done; destruct_and?; subst; try done; lia.
Qed.

Lemma partial_entry_below k j n m :
  (n < k)%nat → (m ≤ n)%nat → partial_entry cf x sqrt_x k j n m = value n m.
Proof. intros. unfold partial_entry. by rewrite decide_True. Qed.

Lemma state_read k j p n m :
  state k j p → (n < k)%nat → (k < size)%nat → (m ≤ n)%nat →
  getitem p n m = Ok (value n m).
Proof.
  intros (_ & Hget & _) Hn Hk Hm.
  rewrite Hget by lia. by rewrite partial_entry_below.
Qed.

Lemma state_write k j p v :
  state k j p → (k < size)%nat → (j ≤ k)%nat → v = value k j →
  ∃ p', setitem p k j v = Ok p' ∧ state k (S j) p'.
Proof.
  intros (Hshape & Hget & Hlog) Hk Hj ->.
  destruct (setitem_in_bounds p size size k j (value k j))
    as (p' & Hset & Hshape' & Hlog' & Hget'); [done|lia|lia|].
  exists p'. split; [done|]. split; [done|]. split.
  - intros n m Hn Hm. rewrite Hget', partial_entry_next by done.
    case_decide; [done|]. by apply Hget.
  - rewrite Hlog'. apply Forall_app. split; [done|].
    apply Forall_singleton. simpl. lia.
Qed.

Lemma state_row_done k p : state k (S k) p → state (S k) 0 p.
Proof.
  intros (Hshape & Hget & Hlog). split; [done|]. split; [|done].
  intros n m Hn Hm. rewrite Hget by done. by rewrite partial_entry_row_done.
Qed.

Lemma off_diagonal_state n m p :
  state n m p → (n < size)%nat → (m < n - 1)%nat →
  ∃ p', off_diagonal cf x n m p = Ok p' ∧ state n (S m) p'.
Proof.
  intros Hp Hn Hm. unfold off_diagonal.
  rewrite (state_read n m p (n - 1) m) by (done || lia). simpl.
  rewrite (state_read n m p (n - 2) m) by (done || lia). simpl.
  apply state_write; [done|done|lia|].
  destruct n as [|[|n2]]; [lia|lia|].
  rewrite value_off_diagonal by lia.
  replace (S (S n2) - 1)%nat with (S n2) by lia.
  by replace (S (S n2) - 2)%nat with n2 by lia.
Qed.

Lemma degree_step_state n p :
  state n 0 p → (1 ≤ n < size)%nat →
  ∃ p', degree_step cf x sqrt_x n p = Ok p' ∧ state (S n) 0 p'.
Proof.
  intros Hp Hn. unfold degree_step.
  destruct (for_each_range (fun m => state n m) 0 (n - 1)
              (off_diagonal cf x n) p) as (p1 & -> & Hp1); [lia|done| |].
  { intros m q Hm Hq. apply off_diagonal_state; [done|lia|lia]. }
  simpl.
  rewrite (state_read n (n - 1) p1 (n - 1) (n - 1)) by (done || lia). simpl.
  destruct (state_write n (n - 1) p1
              (fmul (fmul (c_nm cf n) (Num x)) (value (n - 1) (n - 1))))
    as (p2 & -> & Hp2); [done|lia|lia| |].
  { destruct n as [|n1]; [lia|].
    replace (S n1 - 1)%nat with n1 by lia. by rewrite value_sectoral. }
  simpl. replace (S (n - 1)) with n in Hp2 by lia.
  rewrite (state_read n n p2 (n - 1) (n - 1)) by (done || lia). simpl.
  destruct (state_write n n p2
              (fmul (fmul (d_nm cf n) sqrt_x) (value (n - 1) (n - 1))))
    as (p3 & -> & Hp3); [done|lia|lia| |].
  { destruct n as [|n1]; [lia|].
    replace (S n1 - 1)%nat with n1 by lia. by rewrite value_diagonal. }
  exists p3. split; [done|]. by apply state_row_done.
Qed.

End LegendreTable.

Section LegendreConstructors.
Import Numpy Legendre LegendreSpec.

(** Every constructor returns the tabulated recursion: the table has
    [max_degree + 1] rows and columns, holds [legendre_value] on and below
    the diagonal and not-a-number above it, and only entries with [m <= n]
    were ever assigned. *)
Lemma legendre_table_spec cf x max_degree :
  ∃ p, legendre_table cf x max_degree = Ok p
       ∧ table_state cf x (np_sqrt (1 - x ^ 2)) (max_degree + 1)
           (max_degree + 1) 0 p.
Proof.
  unfold legendre_table. set (size := (max_degree + 1)%nat).
  set (sqrt_x := np_sqrt (1 - x ^ 2)).
  assert (table_state cf x sqrt_x size 0 0 (np_full size size NaN)) as H0.
  { split; [apply np_full_shape|]. split; [|by apply Forall_nil].
    intros n m Hn Hm. rewrite getitem_np_full by done.
    unfold partial_entry. rewrite decide_False by lia.
    by rewrite decide_False by lia. }
  destruct (state_write cf x sqrt_x size 0 0 _ (p_00 cf) H0)
    as (p1 & -> & Hp1); [lia|lia|done|].
  simpl. apply state_row_done in Hp1.
  apply (for_each_range (fun k => table_state cf x sqrt_x size k 0));
    [lia|done|].
  intros k p Hk Hp. apply degree_step_state; [done|lia].
Qed.

End LegendreConstructors.
Section LegendreClaims.
Import Numpy Legendre LegendreSpec.
Local Open Scope R_scope.

Lemma table_state_final cf x max_degree p :
  table_state cf x (np_sqrt (1 - x ^ 2)) (max_degree + 1) (max_degree + 1) 0 p →
  has_shape p (max_degree + 1) (max_degree + 1)
  ∧ (∀ n m, (n ≤ max_degree)%nat → (m ≤ max_degree)%nat →
            getitem p n m =
            Ok (if decide (m ≤ n)%nat
                then legendre_value cf x (np_sqrt (1 - x ^ 2)) n m else NaN))
  ∧ (∀ n m, (n, m) ∈ written p → (m ≤ n)%nat).
Proof.
  intros (Hshape & Hget & Hlog). split; [done|]. split.
  - intros n m Hn Hm. rewrite Hget by lia. f_equal.
    unfold partial_entry. case_decide as H1; case_decide as H2; try done; try lia.
    rewrite decide_False; [done|lia].
  - intros n m Hin. rewrite Forall_forall in Hlog. apply (Hlog (n, m) Hin).
Qed.

(** C9: for every argument [x] (in particular for [x] in [-1, 1]) and every
    [max_degree], each of the three constructors returns a table with
    [max_degree + 1] rows and columns in which every entry with [m > n] is
    not-a-number, and every assignment made while building it targets an
    entry with [m <= n]. *)
Theorem C9_entries_above_diagonal_are_nan (x : R) (max_degree : nat) :
  Forall (fun constructor : R → nat → result table =>
            ∃ p, constructor x max_degree = Ok p
                 ∧ has_shape p (max_degree + 1) (max_degree + 1)
                 ∧ (∀ n m, (n ≤ max_degree)%nat → (m ≤ max_degree)%nat →
                           (n < m)%nat → getitem p n m = Ok NaN)
                 ∧ (∀ n m, (n, m) ∈ written p → (m ≤ n)%nat))
         [assoc_legendre; assoc_legendre_schmidt; assoc_legendre_full].
Proof.
  assert (∀ cf, ∃ p, legendre_table cf x max_degree = Ok p
                 ∧ has_shape p (max_degree + 1) (max_degree + 1)
                 ∧ (∀ n m, (n ≤ max_degree)%nat → (m ≤ max_degree)%nat →
                           (n < m)%nat → getitem p n m = Ok NaN)
                 ∧ (∀ n m, (n, m) ∈ written p → (m ≤ n)%nat)) as H.
  { intros cf. destruct (legendre_table_spec cf x max_degree) as (p & Hp & Hst).
    apply table_state_final in Hst as (Hshape & Hget & Hlog).
    exists p. split; [done|]. split; [done|]. split; [|done].
    intros n m Hn Hm Hnm. rewrite Hget by done.
    by rewrite decide_False by lia. }
  repeat constructor; apply H.
Qed.

Lemma np_sqrt_at_one : np_sqrt (1 - 1 ^ 2) = Num 0.
Proof.
  unfold np_sqrt. replace (1 - 1 ^ 2) with 0 by ring.
  destruct (Rle_dec 0 0) as [_|H]; [by rewrite sqrt_0|]. exfalso; lra.
Qed.

(** At [x = 1] the unnormalized recursion gives 1 in column 0 and 0 in every
    other column on or below the diagonal. *)
Lemma unnormalized_value_at_one n m :
  (m ≤ n)%nat →
  legendre_value unnormalized 1 (Num 0) n m =
  Num (if decide (m = 0%nat) then 1 else 0).
Proof.
  revert m. induction (lt_wf n) as [n _ IH]. intros m Hm.
  destruct n as [|n1].
  { assert (m = 0%nat) as -> by lia. done. }
  destruct (decide (m = S n1)) as [->|Hd].
  { rewrite value_diagonal, (IH n1) by lia.
    rewrite (decide_False (P := S n1 = 0%nat)) by lia.
    cbn [fmul fadd lift2 unnormalized d_nm]. f_equal. ring. }
  destruct (decide (m = n1)) as [->|Hs].
  { rewrite value_sectoral, (IH n1) by lia.
    cbn [fmul fadd lift2 unnormalized c_nm]. f_equal.
    case_decide as H0; [|ring].
    subst n1. unfold of_int. simpl. ring. }
  destruct n1 as [|n2]; [lia|].
  rewrite value_off_diagonal by lia.
  rewrite (IH (S n2)), (IH n2) by lia.
  cbn [fmul fadd lift2 unnormalized a_nm b_nm]. f_equal.
  case_decide as H0; [|ring].
  subst m. unfold of_int. rewrite !S_INR. simpl (INR 0).
  pose proof (pos_INR n2). field. lra.
Qed.

(** C8: the unnormalized table computed at [x = 1] holds 1 at [P[n, 0]] for
    every degree [n <= max_degree] and 0 at [P[n, m]] for every
    [0 < m <= n <= max_degree]. *)
Theorem C8_unnormalized_table_at_one (max_degree n m : nat) :
  (n ≤ max_degree)%nat → (m ≤ n)%nat →
  ∃ p, assoc_legendre 1 max_degree = Ok p
       ∧ getitem p n 0 = Ok (Num 1)
       ∧ ((0 < m)%nat → getitem p n m = Ok (Num 0)).
Proof.
  intros Hn Hm.
  destruct (legendre_table_spec unnormalized 1 max_degree) as (p & Hp & Hst).
  apply table_state_final in Hst as (_ & Hget & _).
  exists p. split; [done|]. rewrite np_sqrt_at_one in Hget. split.
  - rewrite Hget by lia. rewrite decide_True by lia.
    by rewrite unnormalized_value_at_one by lia.
  - intros Hpos. rewrite Hget by lia. rewrite decide_True by lia.
    rewrite unnormalized_value_at_one by lia.
    by rewrite decide_False by lia.
Qed.

Lemma C8_unnormalized_table_at_one_witness :
  ∃ p, assoc_legendre 1 3 = Ok p
       ∧ getitem p 2 0 = Ok (Num 1)
       ∧ ((0 < 1)%nat → getitem p 2 1 = Ok (Num 0)).
Proof. apply (C8_unnormalized_table_at_one 3 2 1); lia. Defined.

End LegendreClaims.
Section DerivativeRaises.
Import Numpy NumpySpec Legendre LegendreSpec.

Lemma index_error_only_getitem (p : table) n m :
  index_error_only (getitem p n m).
Proof.
  apply raises_only_bind; [by apply raises_only_index|].
  intros a. by apply raises_only_index.
Qed.

Lemma index_error_only_setitem (p : table) n m v :
  index_error_only (setitem p n m v).
Proof.
  unfold setitem. destruct (cells p !! n); [|by apply raises_only_raise].
  case_decide; [apply raises_only_ok|by apply raises_only_raise].
Qed.

Lemma index_error_only_deriv_step p n q :
  index_error_only (deriv_step p n q).
Proof.
  unfold deriv_step.
  repeat first
    [ apply index_error_only_getitem | apply index_error_only_setitem
    | apply raises_only_for_each; intros; unfold deriv_inner
    | apply raises_only_bind; [|intros] ].
Qed.

(** A loop whose body can only raise [IndexError], and does raise it at some
    element whatever the state, raises [IndexError]. *)
Lemma for_each_raises {A S} (l : list A) (body : A → S → result S) s a :
  a ∈ l →
  (∀ s, body a s = Raise IndexError) →
  (∀ b s, index_error_only (body b s)) →
  for_each l body s = Raise IndexError.
Proof.
  intros Hin Hfail Honly. revert s.
  induction l as [|b l IH]; intros s; [by apply elem_of_nil in Hin|].
  simpl. apply elem_of_cons in Hin as [<-|Hin].
  - by rewrite Hfail.
  - destruct (body b s) as [e|s'] eqn:Hb; simpl; [|by apply IH].
    by rewrite (Honly b s e Hb).
Qed.

(** Row [p.shape[0]] does not exist. *)
Lemma deriv_step_out_of_bounds p n q :
  (shape0 p ≤ n)%nat → deriv_step p n q = Raise IndexError.
Proof.
  intros Hn. unfold deriv_step, getitem, index2, index, shape0 in *.
  by rewrite lookup_ge_None_2.
Qed.

Lemma assoc_legendre_deriv_raises (x : R) (p : table) :
  assoc_legendre_deriv x p = Raise IndexError.
Proof.
  unfold assoc_legendre_deriv.
  set (size := (deriv_max_degree p + 1)%nat).
  destruct (setitem_in_bounds (np_full size size NaN) size size 0 0 (Num 0%R))
    as (q & -> & _); [apply np_full_shape|unfold size; lia..|].
  simpl. apply (for_each_raises _ _ _ (shape0 p + 1)%nat).
  - unfold range, size, deriv_max_degree. apply elem_of_seq. lia.
  - intros s. apply deriv_step_out_of_bounds. lia.
  - intros b s. apply index_error_only_deriv_step.
Qed.

(** C3 (the code departs from the claim): for every [x] and every input
    table [p], [assoc_legendre_deriv] allocates a table with
    [p.shape[0] + 2] rows and columns, two more than [p] has, and its loop
    reaches row [p.shape[0]] of [p], which does not exist: the call raises
    [IndexError] instead of returning the derivative table. *)
Theorem C3_deriv_reads_out_of_bounds (x : R) (p : table) :
  (deriv_max_degree p + 1 = shape0 p + 2)%nat
  ∧ assoc_legendre_deriv x p = Raise IndexError.
Proof.
  split; [unfold deriv_max_degree; lia|apply assoc_legendre_deriv_raises].
Qed.

(** The same on the table of degree 1 at [x = 0]: two rows go in, four rows
    are allocated, and the call raises. *)
Example assoc_legendre_deriv_degree_one :
  ∃ p, assoc_legendre 0 1 = Ok p ∧ shape0 p = 2%nat
       ∧ (deriv_max_degree p + 1 = 4)%nat
       ∧ assoc_legendre_deriv 0 p = Raise IndexError.
Proof.
  destruct (legendre_table_spec unnormalized 0 1) as (p & Hp & Hst).
  unfold table_state, has_shape in Hst. destruct Hst as [[Hs _] _].
  exists p. split; [done|].
  unfold deriv_max_degree, shape0. rewrite Hs.
  split; [done|]. split; [done|]. apply assoc_legendre_deriv_raises.
Qed.

End DerivativeRaises.
Section PartialLoops.
Import Numpy.
Context {A St : Type} (I : St → Prop) (e : exn).
Implicit Types (l : list A) (body : A → St → result St) (s : St).

(** A loop whose body keeps [I] when it returns and raises nothing but [e]
    does the same as a whole. *)
Lemma for_each_partial l body s :
  I s →
  (∀ a s', a ∈ l → I s' →
     match body a s' with inr s'' => I s'' | inl e' => e' = e end) →
  match for_each l body s with inr s' => I s' | inl e' => e' = e end.
Proof.
  revert s; induction l as [|a l IH]; intros s Hs Hbody; simpl; [done|].
  pose proof (Hbody a s ltac:(left) Hs) as Ha.
  destruct (body a s) as [e'|s1]; simpl; [done|].
  apply IH; [done|]. intros b t Hb. apply Hbody. by right.
Qed.

(** Such a loop raises [e] when it reaches an element at which the body
    always raises [e]. *)
Lemma for_each_first_raise l1 x l2 body s :
  I s →
  (∀ a s', a ∈ l1 → I s' →
     match body a s' with inr s'' => I s'' | inl e' => e' = e end) →
  (∀ s', I s' → body x s' = Raise e) →
  for_each (l1 ++ x :: l2) body s = Raise e.
Proof.
  intros Hs Hbody Hx. rewrite for_each_app.
  pose proof (for_each_partial l1 body s Hs Hbody) as H.
  destruct (for_each l1 body s) as [e'|s1]; simpl; [by subst|].
  by rewrite (Hx s1 H).
Qed.

End PartialLoops.
Section PairwiseLoops.
Import Numpy PointMass PointMassSpec.
Local Open Scope R_scope.

Lemma index_lookup {A} (a : list A) i v : a !! i = Some v → index a i = Ok v.
Proof. intros H. unfold index. by rewrite H. Qed.

Lemma index_map {A B} (f : A → B) (a : list A) i v :
  a !! i = Some v → index (map f a) i = Ok (f v).
Proof.
  intros H. apply index_lookup.
  change (map f a) with (f <$> a). by rewrite list_lookup_fmap, H.
Qed.

Lemma range_split (a b : nat) :
  (a < b)%nat → range 0 b = range 0 a ++ a :: range (S a) b.
Proof.
  intros Hab. unfold range. rewrite !Nat.sub_0_r.
  replace b with (a + S (b - S a))%nat at 1 by lia.
  by rewrite seq_app.
Qed.

Lemma elem_of_range (a k : nat) : k ∈ range 0 a ↔ (k < a)%nat.
Proof. unfold range. rewrite elem_of_seq. lia. Qed.

(** The two loops, with the value [term l m] that the source [m] adds to
    [out[l]]; [term l m] is the call [kk o s] on the observation point and
    the source behind the two indices. *)
Context {O Sr : Type} (obs : list O) (srcs : list Sr).
Variables (term : nat → nat → result R) (kk : O → Sr → result R).
Hypothesis term_eq :
  ∀ l m o s, obs !! l = Some o → srcs !! m = Some s → term l m = kk o s.

Local Abbreviation inner l :=
  (fun (m : nat) (out : array) => v ← term l m; iadd out l v).

Local Abbreviation loops init :=
  (for_each (range 0 (length obs))
     (fun l out => for_each (range 0 (length srcs)) (inner l) out) init).

Lemma inner_loop (t : Sr → R) l o (out : array) v0 :
  obs !! l = Some o → out !! l = Some v0 →
  (∀ s, s ∈ srcs → kk o s = Ok (t s)) →
  for_each (range 0 (length srcs)) (inner l) out =
  Ok (<[l := fold_left (fun acc s => acc + t s) srcs v0]> out).
Proof using term_eq.
  intros Ho Hout Ht.
  destruct (for_each_range
              (fun m out' =>
                 out' = <[l := fold_left (fun acc s => acc + t s)
                                         (take m srcs) v0]> out)
              0 (length srcs) (inner l) out) as (out' & -> & Hout').
  - lia.
  - simpl. by rewrite list_insert_id.
  - intros m out' Hm ->.
    destruct (lookup_lt_is_Some_2 srcs m) as [s Hs]; [lia|].
    rewrite (term_eq l m o s) by done.
    rewrite (Ht s) by (by eapply list_elem_of_lookup_2).
    simpl. unfold iadd.
    assert (l < length out)%nat by (by eapply lookup_lt_Some).
    rewrite (index_lookup _ l _ (list_lookup_insert_eq _ _ _ H)). simpl.
    eexists; split; [done|].
    rewrite list_insert_insert_eq.
    by rewrite (take_S_r _ _ _ Hs), fold_left_app.
  - by rewrite Hout', firstn_all.
Qed.

(** When every call returns, the loops return the sums; the entries of the
    output beyond the observation points keep their zeros. *)
Lemma pairwise_loops_padded (t : O → Sr → R) pad :
  (∀ o s, o ∈ obs → s ∈ srcs → kk o s = Ok (t o s)) →
  loops (replicate (length obs + pad) 0)
  = Ok (map (fun o => fold_left (fun acc s => acc + t o s) srcs 0) obs
        ++ replicate pad 0).
Proof using term_eq.
  intros Ht.
  set (F := fun o => fold_left (fun acc s => acc + t o s) srcs 0).
  destruct (for_each_range
              (fun l out =>
                 out = map F (take l obs)
                       ++ replicate (length obs - l + pad) 0)
              0 (length obs)
              (fun l out => for_each (range 0 (length srcs)) (inner l) out)
              (replicate (length obs + pad) 0)) as (out & -> & Hout).
  - lia.
  - simpl. by rewrite Nat.sub_0_r.
  - intros l out Hl ->.
    destruct (lookup_lt_is_Some_2 obs l) as [o Ho]; [lia|].
    assert (length (map F (take l obs)) = l) as Hlen
      by (rewrite length_map, length_take; lia).
    rewrite (inner_loop (t o) l o _ 0 Ho).
    2:{ rewrite lookup_app_r by lia. rewrite Hlen, Nat.sub_diag.
        apply lookup_replicate_2. lia. }
    2:{ intros s Hs. apply Ht; [by eapply list_elem_of_lookup_2|done]. }
    eexists; split; [done|]. fold (F o).
    rewrite insert_app_r_alt by lia. rewrite Hlen, Nat.sub_diag.
    replace (length obs - l + pad)%nat
      with (S (length obs - S l + pad)) by lia.
    simpl. rewrite (take_S_r _ _ _ Ho), map_app. simpl.
    by rewrite <- app_assoc.
  - rewrite Hout, firstn_all, Nat.sub_diag. done.
Qed.

Hypothesis kk_exn : ∀ o s e, kk o s = Raise e → e = ZeroDivisionError.

Lemma inner_step l m (out : array) n :
  (l < length obs)%nat → (m < length srcs)%nat →
  length out = n → (l < n)%nat →
  match inner l m out with
  | inr out' => length out' = n
  | inl e => e = ZeroDivisionError
  end.
Proof using term_eq kk_exn.
  intros Hl Hm Hn Hln.
  destruct (lookup_lt_is_Some_2 obs l Hl) as [o Ho].
  destruct (lookup_lt_is_Some_2 srcs m Hm) as [s Hs].
  rewrite (term_eq l m o s Ho Hs).
  destruct (kk o s) as [e|v] eqn:Hk; simpl; [by apply (kk_exn o s)|].
  unfold iadd. destruct (lookup_lt_is_Some_2 out l) as [v0 Hv0]; [lia|].
  rewrite (index_lookup _ _ _ Hv0). simpl. by rewrite length_insert.
Qed.

(** When some call raises [ZeroDivisionError] (and no call raises anything
    else), so do the loops. *)
Lemma pairwise_loops_raise pad :
  (∃ o s, o ∈ obs ∧ s ∈ srcs ∧ kk o s = Raise ZeroDivisionError) →
  loops (replicate (length obs + pad) 0) = Raise ZeroDivisionError.
Proof using term_eq kk_exn.
  intros (o & s & [l0 Ho]%list_elem_of_lookup_1
            & [m0 Hs]%list_elem_of_lookup_1 & Hk).
  pose proof (lookup_lt_Some _ _ _ Ho) as Hl0.
  pose proof (lookup_lt_Some _ _ _ Hs) as Hm0.
  set (n := (length obs + pad)%nat).
  assert (length (replicate n 0) = n) as Hinit by apply length_replicate.
  assert (∀ l out, (l < length obs)%nat → length out = n →
            match for_each (range 0 (length srcs)) (inner l) out with
            | inr out' => length out' = n
            | inl e => e = ZeroDivisionError
            end) as Hinner.
  { intros l out Hl Hout.
    apply (for_each_partial (fun out => length out = n)); [done|].
    intros m out' Hm%elem_of_range Hout'.
    apply inner_step; try done. lia. }
  rewrite (range_split l0 (length obs)) by done.
  apply (for_each_first_raise (fun out => length out = n)); [done| |].
  - intros l out Hl%elem_of_range Hout. apply Hinner; [lia|done].
  - intros out Hout. rewrite (range_split m0 (length srcs)) by done.
    apply (for_each_first_raise (fun out => length out = n)); [done| |].
    + intros m out' Hm%elem_of_range Hout'.
      apply inner_step; try done; lia.
    + intros out' Hout'. by rewrite (term_eq l0 m0 o s Ho Hs), Hk.
Qed.

End PairwiseLoops.
Section Dispatchers.
Import Numpy PointMass PointMassSpec PointMassFacts.
Local Open Scope R_scope.

Lemma zip_lookup_Some {A B} (a : list A) (b : list B) i x y :
  zip a b !! i = Some (x, y) → a !! i = Some x ∧ b !! i = Some y.
Proof.
  revert b i; induction a as [|a0 a IH]; intros [|b0 b] [|i]; simpl;
    try done.
  - intros [= -> ->]. done.
  - apply IH.
Qed.

Lemma zip_lookup_both {A B} (a : list A) (b : list B) i x y :
  a !! i = Some x → b !! i = Some y → zip a b !! i = Some (x, y).
Proof.
  revert b i; induction a as [|a0 a IH]; intros [|b0 b] [|i]; simpl;
    try done.
  - by intros [= ->] [= ->].
  - apply IH.
Qed.

Lemma zip_length_covered {A B} (a : list A) (b : list B) :
  (∀ i, (i < length a)%nat → is_Some (b !! i)) →
  length (zip a b) = length a.
Proof.
  revert b; induction a as [|a0 a IH]; intros [|b0 b] H; simpl; try done.
  - destruct (H 0%nat) as [? [=]]. simpl; lia.
  - f_equal. apply IH. intros i Hi. apply (H (S i)). simpl; lia.
Qed.

Lemma lookup_map_Some {A B} (f : A → B) (a : list A) i x :
  a !! i = Some x → map f a !! i = Some (f x).
Proof.
  intros H. change (map f a) with (f <$> a). by rewrite list_lookup_fmap, H.
Qed.

(** What the loops add to the output for one source: its mass times what
    the kernel returns. *)
Local Abbreviation weighted k :=
  (fun (o : point) (sm : point * R) => v ← k o sm.1; Ok (sm.2 * v)).

Section Weighted.

Variables (k : point → point → result R).
Variables (obs sources : list point) (masses : array).
Hypothesis masses_cover :
  ∀ m, (m < length sources)%nat → is_Some (masses !! m).

Lemma weighted_returns o sm :
  (∀ o s, o ∈ obs → s ∈ sources → ∃ v, k o s = Ok v) →
  o ∈ obs → sm ∈ zip sources masses →
  weighted k o sm = Ok (sm.2 * pair_value k o sm.1).
Proof using Type.
  intros Hdef Ho [m Hm]%list_elem_of_lookup_1. destruct sm as [s mass].
  apply zip_lookup_Some in Hm as [Hs _]. cbn [fst snd].
  destruct (Hdef o s Ho) as [v Hv]; [by eapply list_elem_of_lookup_2|].
  unfold pair_value. by rewrite Hv.
Qed.

Lemma weighted_exn o sm e :
  (∀ o s e, k o s = Raise e → e = ZeroDivisionError) →
  weighted k o sm = Raise e → e = ZeroDivisionError.
Proof using Type.
  intros Hexn. cbv beta. destruct (k o sm.1) as [e'|v] eqn:Hk; simpl; [|done].
  intros [= <-]. by apply (Hexn o sm.1).
Qed.

Lemma weighted_raises :
  (∃ o s, o ∈ obs ∧ s ∈ sources ∧ k o s = Raise ZeroDivisionError) →
  ∃ o sm, o ∈ obs ∧ sm ∈ zip sources masses
          ∧ weighted k o sm = Raise ZeroDivisionError.
Proof using masses_cover.
  intros (o & s & Ho & [m Hs]%list_elem_of_lookup_1 & Hk).
  destruct (masses_cover m) as [mass Hmass]; [by eapply lookup_lt_Some|].
  exists o, (s, mass). split; [done|]. split.
  - eapply list_elem_of_lookup_2. by apply zip_lookup_both.
  - cbn [fst snd]. by rewrite Hk.
Qed.

End Weighted.

(** The Cartesian loops on observation arrays that hold the points [obs]
    (and possibly more in the second and third array), on source arrays
    that hold at least the points [sources], and on an output of
    [length obs + pad] zeros: the pairwise sums when every kernel call
    returns, a [ZeroDivisionError] when one of them raises it. *)
Lemma jit_point_mass_cartesian_prefix k obs sources northing down
    northing_p down_p masses pad :
  covers obs northing down → covers sources northing_p down_p →
  (∀ m, (m < length sources)%nat → is_Some (masses !! m)) →
  let r :=
    jit_point_mass_cartesian
      (map (fun p : point => p.1.1) obs) northing down
      (map (fun p : point => p.1.1) sources) northing_p down_p
      masses (replicate (length obs + pad) 0) (Kernel6 k) in
  ((∀ o s, o ∈ obs → s ∈ sources → ∃ v, cartesian_pair k o s = Ok v) →
   r = Ok (map (pairwise_sum (pair_value (cartesian_pair k)) sources masses)
               obs
           ++ replicate pad 0))
  ∧ ((∀ o s e, cartesian_pair k o s = Raise e → e = ZeroDivisionError) →
     (∃ o s, o ∈ obs ∧ s ∈ sources
             ∧ cartesian_pair k o s = Raise ZeroDivisionError) →
     r = Raise ZeroDivisionError).
Proof.
  intros Hobs Hsrc Hmass r.
  set (term := fun l m : nat =>
       mass ← index masses m;
       e ← index (map (fun p : point => p.1.1) obs) l;
       n ← index northing l;
       d ← index down l;
       e_p ← index (map (fun p : point => p.1.1) sources) m;
       n_p ← index northing_p m;
       d_p ← index down_p m;
       k' ← call6 (Kernel6 k) e n d e_p n_p d_p;
       Ok (mass * k')).
  assert (r = for_each (range 0 (length obs))
                (fun l out =>
                   for_each (range 0 (length (zip sources masses)))
                     (fun m out => v ← term l m; iadd out l v) out)
                (replicate (length obs + pad) 0)) as ->.
  { subst r term. unfold jit_point_mass_cartesian.
    rewrite !length_map, <- (zip_length_covered sources masses Hmass).
    apply for_each_ext. intros l out _.
    apply for_each_ext. intros m out' _.
    repeat (match goal with
            | |- context [index ?a ?i] => destruct (index a i); simpl; [done|]
            end).
    unfold call6. by destruct (k _ _ _ _ _ _). }
  assert (∀ l m o sm, obs !! l = Some o → zip sources masses !! m = Some sm →
            term l m = weighted (cartesian_pair k) o sm) as Hterm.
  { intros l m o [s mass] Ho [Hs Hm]%zip_lookup_Some. subst term. cbv beta.
    destruct (Hobs l o Ho) as [Hn Hd]. destruct (Hsrc m s Hs) as [Hnp Hdp].
    rewrite (index_lookup _ _ _ Hm); simpl.
    rewrite (index_map _ _ _ _ Ho); simpl.
    rewrite (index_lookup _ _ _ Hn), (index_lookup _ _ _ Hd); simpl.
    rewrite (index_map _ _ _ _ Hs); simpl.
    by rewrite (index_lookup _ _ _ Hnp), (index_lookup _ _ _ Hdp). }
  split.
  - intros Hdef.
    apply (pairwise_loops_padded obs (zip sources masses) term
             (weighted (cartesian_pair k)) Hterm
             (fun o sm => sm.2 * pair_value (cartesian_pair k) o sm.1) pad).
    intros o sm. by apply weighted_returns.
  - intros Hexn Hraise.
    apply (pairwise_loops_raise obs (zip sources masses) term
             (weighted (cartesian_pair k)) Hterm).
    + intros o sm e. by apply weighted_exn.
    + by apply weighted_raises.
Qed.

(** The same for the spherical loops, which convert the angles to radians
    and take the sine and cosine of the latitudes first. *)
Lemma jit_point_mass_spherical_prefix k obs sources latitude radius
    latitude_p radius_p masses pad :
  covers obs latitude radius → covers sources latitude_p radius_p →
  (∀ m, (m < length sources)%nat → is_Some (masses !! m)) →
  let r :=
    jit_point_mass_spherical
      (map (fun p : point => p.1.1) obs) latitude radius
      (map (fun p : point => p.1.1) sources) latitude_p radius_p
      masses (replicate (length obs + pad) 0) (Kernel8 k) in
  ((∀ o s, o ∈ obs → s ∈ sources → ∃ v, spherical_pair k o s = Ok v) →
   r = Ok (map (pairwise_sum (pair_value (spherical_pair k)) sources masses)
               obs
           ++ replicate pad 0))
  ∧ ((∀ o s e, spherical_pair k o s = Raise e → e = ZeroDivisionError) →
     (∃ o s, o ∈ obs ∧ s ∈ sources
             ∧ spherical_pair k o s = Raise ZeroDivisionError) →
     r = Raise ZeroDivisionError).
Proof.
  intros Hobs Hsrc Hmass r.
  set (term := fun l m : nat =>
       mass ← index masses m;
       lon ← index (map (fun p : point => p.1.1 * PI / 180) obs) l;
       c ← index (map (fun d => cos (d * PI / 180)) latitude) l;
       s ← index (map (fun d => sin (d * PI / 180)) latitude) l;
       r ← index radius l;
       lon_p ← index (map (fun p : point => p.1.1 * PI / 180) sources) m;
       c_p ← index (map (fun d => cos (d * PI / 180)) latitude_p) m;
       s_p ← index (map (fun d => sin (d * PI / 180)) latitude_p) m;
       r_p ← index radius_p m;
       k' ← call8 (Kernel8 k) lon c s r lon_p c_p s_p r_p;
       Ok (mass * k')).
  assert (r = for_each (range 0 (length obs))
                (fun l out =>
                   for_each (range 0 (length (zip sources masses)))
                     (fun m out => v ← term l m; iadd out l v) out)
                (replicate (length obs + pad) 0)) as ->.
  { subst r term. unfold jit_point_mass_spherical, radians.
    rewrite !length_map, <- (zip_length_covered sources masses Hmass).
    rewrite !map_map.
    apply for_each_ext. intros l out _.
    apply for_each_ext. intros m out' _.
    repeat (match goal with
            | |- context [index ?a ?i] => destruct (index a i); simpl; [done|]
            end).
    unfold call8. by destruct (k _ _ _ _ _ _ _ _). }
  assert (∀ l m o sm, obs !! l = Some o → zip sources masses !! m = Some sm →
            term l m = weighted (spherical_pair k) o sm) as Hterm.
  { intros l m o [s mass] Ho [Hs Hm]%zip_lookup_Some. subst term. cbv beta.
    destruct (Hobs l o Ho) as [Hn Hd]. destruct (Hsrc m s Hs) as [Hnp Hdp].
    rewrite (index_lookup _ _ _ Hm); simpl.
    rewrite (index_map _ _ _ _ Ho); simpl.
    rewrite !(index_map _ _ _ _ Hn), (index_lookup _ _ _ Hd); simpl.
    rewrite (index_map _ _ _ _ Hs); simpl.
    by rewrite !(index_map _ _ _ _ Hnp), (index_lookup _ _ _ Hdp). }
  split.
  - intros Hdef.
    apply (pairwise_loops_padded obs (zip sources masses) term
             (weighted (spherical_pair k)) Hterm
             (fun o sm => sm.2 * pair_value (spherical_pair k) o sm.1) pad).
    intros o sm. by apply weighted_returns.
  - intros Hexn Hraise.
    apply (pairwise_loops_raise obs (zip sources masses) term
             (weighted (spherical_pair k)) Hterm).
    + intros o sm e. by apply weighted_exn.
    + by apply weighted_raises.
Qed.

End Dispatchers.
Section Kernels.
Import Numpy NumpySpec PointMass PointMassSpec.
Local Open Scope R_scope.
Local Open Scope string_scope.

Lemma truediv_nonzero a b : b ≠ 0 → truediv a b = Ok (a / b).
Proof. intros H. unfold truediv. by destruct (Req_EM_T b 0). Qed.

Lemma truediv_zero a : truediv a 0 = Raise ZeroDivisionError.
Proof. unfold truediv. by destruct (Req_EM_T 0 0). Qed.

Lemma truediv_exn a b e : truediv a b = Raise e → e = ZeroDivisionError.
Proof. unfold truediv. destruct (Req_EM_T b 0); [|done]. by intros [= <-]. Qed.

Lemma power_zero y : power 0 y = 0.
Proof. unfold power. by destruct (Req_EM_T 0 0). Qed.

Lemma power_positive x y : 0 < x → power x y = Rpower x y ∧ 0 < power x y.
Proof.
  intros Hx. unfold power. destruct (Req_EM_T x 0); [lra|].
  split; [done|]. unfold Rpower. apply exp_pos.
Qed.

Lemma distance_sq_cartesian o s :
  distance_sq "cartesian" o s = _distance_cartesian_sq o s.
Proof. reflexivity. Qed.

Lemma distance_sq_spherical o s :
  distance_sq "spherical" o s
  = (o.2 - s.2) ^ 2
    + 2 * o.2 * s.2
      * (1 - (sin (degrees_to_radians s.1.2) * sin (degrees_to_radians o.1.2)
              + cos (degrees_to_radians s.1.2)
                * cos (degrees_to_radians o.1.2)
                * cos (degrees_to_radians s.1.1 - degrees_to_radians o.1.1))).
Proof. reflexivity. Qed.

Lemma pair_kernel_cases cs field k :
  pair_kernel cs field = Some k →
  (cs = "cartesian" ∧ field = "potential"
   ∧ k = cartesian_pair kernel_potential_cartesian)
  ∨ (cs = "cartesian" ∧ field = "g_z" ∧ k = cartesian_pair kernel_g_z)
  ∨ (cs = "spherical" ∧ field = "potential"
     ∧ k = spherical_pair kernel_potential_spherical)
  ∨ (cs = "spherical" ∧ field = "g_r" ∧ k = spherical_pair kernel_g_r).
Proof.
  unfold pair_kernel.
  destruct (String.eqb_spec cs "cartesian") as [->|_].
  { destruct (String.eqb_spec field "potential") as [->|_];
      [intros [= <-]; tauto|].
    destruct (String.eqb_spec field "g_z") as [->|_]; [|done].
    intros [= <-]; tauto. }
  destruct (String.eqb_spec cs "spherical") as [->|_]; [|done].
  destruct (String.eqb_spec field "potential") as [->|_];
    [intros [= <-]; tauto|].
  destruct (String.eqb_spec field "g_r") as [->|_]; [|done].
  intros [= <-]; tauto.
Qed.

(** The shape that the four kernels share: a division whose divisor is
    positive when the squared distance is, and zero when it is zero. *)
Lemma pair_kernel_division cs field k o s :
  pair_kernel cs field = Some k →
  ∃ a b, k o s = truediv a b
         ∧ (0 < distance_sq cs o s → 0 < b)
         ∧ (distance_sq cs o s = 0 → b = 0).
Proof.
  intros Hk. destruct o as [[o1 o2] o3], s as [[s1 s2] s3].
  apply pair_kernel_cases in Hk
    as [(-> & -> & ->)|[(-> & -> & ->)|[(-> & -> & ->)|(-> & -> & ->)]]].
  - rewrite distance_sq_cartesian.
    unfold cartesian_pair, kernel_potential_cartesian, _distance_cartesian.
    cbn [fst snd]. eexists _, _. split; [reflexivity|]. split.
    + apply sqrt_lt_R0.
    + intros ->. apply sqrt_0.
  - rewrite distance_sq_cartesian. unfold cartesian_pair, kernel_g_z.
    cbn [fst snd]. cbv zeta. eexists _, _. split; [reflexivity|]. split.
    + intros H. by apply power_positive.
    + intros ->. apply power_zero.
  - rewrite distance_sq_spherical.
    unfold spherical_pair, kernel_potential_spherical.
    cbn [fst snd]. cbv zeta. eexists _, _. split; [reflexivity|]. split.
    + apply sqrt_lt_R0.
    + intros ->. apply sqrt_0.
  - rewrite distance_sq_spherical. unfold spherical_pair, kernel_g_r.
    cbn [fst snd]. cbv zeta. eexists _, _. split; [reflexivity|]. split.
    + intros H. by apply power_positive.
    + intros ->. apply power_zero.
Qed.

(** Away from the source the kernel returns. *)
Lemma pair_kernel_defined cs field k o s :
  pair_kernel cs field = Some k → 0 < distance_sq cs o s →
  ∃ v, k o s = Ok v.
Proof.
  intros Hk Hd.
  destruct (pair_kernel_division cs field k o s Hk) as (a & b & -> & Hb & _).
  eexists. apply truediv_nonzero. specialize (Hb Hd). lra.
Qed.

(** At the source the kernel divides by zero. *)
Lemma pair_kernel_coincident cs field k o s :
  pair_kernel cs field = Some k → distance_sq cs o s = 0 →
  k o s = Raise ZeroDivisionError.
Proof.
  intros Hk Hd.
  destruct (pair_kernel_division cs field k o s Hk) as (a & b & -> & _ & Hb).
  rewrite (Hb Hd). apply truediv_zero.
Qed.

(** A kernel raises nothing else. *)
Lemma pair_kernel_exn cs field k o s e :
  pair_kernel cs field = Some k → k o s = Raise e → e = ZeroDivisionError.
Proof.
  intros Hk.
  destruct (pair_kernel_division cs field k o s Hk) as (a & b & -> & _).
  apply truediv_exn.
Qed.

Lemma apart_elem cs obs sources o s :
  apart cs obs sources → o ∈ obs → s ∈ sources → 0 < distance_sq cs o s.
Proof.
  unfold apart. rewrite Forall_forall. intros H Ho Hs.
  specialize (H o Ho). rewrite Forall_forall in H. by apply H.
Qed.

End Kernels.
Section PointMassGravity.
Import Numpy PointMass PointMassSpec PointMassFacts.
Local Open Scope R_scope.
Local Open Scope string_scope.
Local Open Scope list_scope.

Variable G : R.

Lemma broadcast_size_columns obs : broadcast_size (columns obs) = Ok (length obs).
Proof.
  unfold broadcast_size, columns. rewrite !length_map.
  assert (broadcast_dim (length obs) (length obs) = Ok (length obs)) as H.
  { unfold broadcast_dim. repeat case_decide; congruence. }
  rewrite H; simpl. by rewrite H.
Qed.

Lemma valid_combination_pair_kernel cs field :
  valid_combination cs field = true ↔ is_Some (pair_kernel cs field).
Proof.
  unfold valid_combination, pair_kernel.
  destruct (String.eqb_spec cs "cartesian") as [->|Hc]; simpl.
  { destruct (String.eqb field "potential"), (String.eqb field "g_z"); simpl;
      split; try done; try (intros _; eexists; done); by intros [? [=]]. }
  destruct (String.eqb cs "spherical"); simpl.
  { destruct (String.eqb field "potential"), (String.eqb field "g_r"); simpl;
      split; try done; try (intros _; eexists; done); by intros [? [=]]. }
  split; [done|by intros [? [=]]].
Qed.

Lemma point_mass_gravity_dispatch c0 c1 c2 p0 p1 p2 masses field cs
    kernels_cs kernel dispatch :
  str_in cs ["cartesian"; "spherical"] = true →
  dict_get kernels cs = Some kernels_cs →
  dict_get kernels_cs field = Some kernel →
  dict_get dispatchers cs = Some dispatch →
  point_mass_gravity G (c0, c1, c2) (p0, p1, p2) masses field cs =
  (cast_size ← broadcast_size (c0, c1, c2);
   result ← dispatch c0 c1 c2 p0 p1 p2 masses (replicate cast_size 0) kernel;
   Ok (if str_in field ["g_r"; "g_z"]
       then map (fun r => r * 100000) (map (fun r => r * G) result)
       else map (fun r => r * G) result)).
Proof.
  intros H1 H2 H3 H4. unfold point_mass_gravity, dict_item, dict_mem.
  rewrite H1, H2. cbn [negb mbind result_bind Ok]. rewrite H3, H4.
  cbn [negb mbind result_bind Ok]. done.
Qed.

Lemma covers_columns (points : list point) :
  covers points (map (fun p : point => p.1.2) points)
                (map (fun p : point => p.2) points).
Proof.
  intros l o Ho.
  split; [apply (lookup_map_Some (fun p : point => p.1.2))
         |apply (lookup_map_Some (fun p : point => p.2))]; done.
Qed.

Lemma map_scale_replicate (c : R) n :
  map (fun r => r * c) (replicate n 0) = replicate n 0.
Proof.
  induction n as [|n IH]; simpl; [done|]. rewrite IH. f_equal. lra.
Qed.

(** The call on observation arrays that hold the points [obs] followed by
    [pad] further values in the second and third array, and on source arrays
    that hold at least the points [sources]: with no source at an
    observation point, the raw pairwise sums times the gravitational
    constant, and times [1e5] for the acceleration fields; with a source at
    an observation point, the [ZeroDivisionError] of the kernel. *)
Lemma point_mass_gravity_prefix obs sources c1 c2 p1 p2 masses field cs k pad :
  pair_kernel cs field = Some k →
  covers obs c1 c2 → covers sources p1 p2 →
  (∀ m, (m < length sources)%nat → is_Some (masses !! m)) →
  broadcast_size (map (fun p : point => p.1.1) obs, c1, c2)
  = Ok (length obs + pad)%nat →
  let r :=
    point_mass_gravity G (map (fun p : point => p.1.1) obs, c1, c2)
      (map (fun p : point => p.1.1) sources, p1, p2) masses field cs in
  (apart cs obs sources →
   r = Ok (map (fun o =>
                  let raw := pairwise_sum (pair_value k) sources masses o in
                  if acceleration_field field then raw * G * 100000
                  else raw * G) obs
           ++ replicate pad 0))
  ∧ (coincide cs obs sources → r = Raise ZeroDivisionError).
Proof.
  intros Hk Hobs Hsrc Hmass Hb r.
  assert (∀ o s e, k o s = Raise e → e = ZeroDivisionError) as Hexn
    by (intros o s e; by apply (pair_kernel_exn cs field)).
  assert (apart cs obs sources →
          ∀ o s, o ∈ obs → s ∈ sources → ∃ v, k o s = Ok v) as Hdef.
  { intros Hap o s Ho Hs. apply (pair_kernel_defined cs field k o s Hk).
    by apply (apart_elem cs obs sources). }
  assert (coincide cs obs sources →
          ∃ o s, o ∈ obs ∧ s ∈ sources ∧ k o s = Raise ZeroDivisionError)
    as Hzero.
  { intros (o & s & Ho & Hs & Hd). exists o, s. split; [done|].
    split; [done|]. by apply (pair_kernel_coincident cs field). }
  destruct (jit_point_mass_cartesian_prefix kernel_potential_cartesian
              obs sources c1 c2 p1 p2 masses pad Hobs Hsrc Hmass)
    as [Hcp Hcp'].
  destruct (jit_point_mass_cartesian_prefix kernel_g_z
              obs sources c1 c2 p1 p2 masses pad Hobs Hsrc Hmass)
    as [Hcz Hcz'].
  destruct (jit_point_mass_spherical_prefix kernel_potential_spherical
              obs sources c1 c2 p1 p2 masses pad Hobs Hsrc Hmass)
    as [Hsp Hsp'].
  destruct (jit_point_mass_spherical_prefix kernel_g_r
              obs sources c1 c2 p1 p2 masses pad Hobs Hsrc Hmass)
    as [Hsr Hsr'].
  subst r.
  apply pair_kernel_cases in Hk
    as [(-> & -> & ->)|[(-> & -> & ->)|[(-> & -> & ->)|(-> & -> & ->)]]];
    erewrite point_mass_gravity_dispatch by reflexivity;
    rewrite Hb; cbn [mbind result_bind Ok];
    (split; [intros Hap; specialize (Hdef Hap)
            |intros Hco; specialize (Hzero Hco)]).
  - rewrite Hcp by done. cbn [mbind result_bind Ok].
    by rewrite ?map_app, ?map_scale_replicate, ?map_map.
  - by rewrite Hcp'.
  - rewrite Hcz by done. cbn [mbind result_bind Ok].
    by rewrite ?map_app, ?map_scale_replicate, ?map_map.
  - by rewrite Hcz'.
  - rewrite Hsp by done. cbn [mbind result_bind Ok].
    by rewrite ?map_app, ?map_scale_replicate, ?map_map.
  - by rewrite Hsp'.
  - rewrite Hsr by done. cbn [mbind result_bind Ok].
    by rewrite ?map_app, ?map_scale_replicate, ?map_map.
  - by rewrite Hsr'.
Qed.

(** On a valid combination, well-shaped arrays and no source at an
    observation point the call returns, for every observation point, the
    raw pairwise sum times the gravitational constant, and times [1e5] for
    the acceleration fields. *)
Lemma point_mass_gravity_valid obs sources masses field cs k :
  pair_kernel cs field = Some k → length masses = length sources →
  apart cs obs sources →
  point_mass_gravity G (columns obs) (columns sources) masses field cs
  = Ok (map (fun o =>
               let raw := pairwise_sum (pair_value k) sources masses o in
               if acceleration_field field then raw * G * 100000
               else raw * G) obs).
Proof.
  intros Hk Hlen Hap. unfold columns.
  destruct (point_mass_gravity_prefix obs sources
              (map (fun p : point => p.1.2) obs)
              (map (fun p : point => p.2) obs)
              (map (fun p : point => p.1.2) sources)
              (map (fun p : point => p.2) sources)
              masses field cs k 0 Hk) as [H _].
  - apply covers_columns.
  - apply covers_columns.
  - intros m Hm. apply lookup_lt_is_Some_2. lia.
  - rewrite Nat.add_0_r. apply broadcast_size_columns.
  - rewrite (H Hap). simpl. by rewrite app_nil_r.
Qed.


End PointMassGravity.
Section PointMassClaims.
Import Numpy NumpySpec PointMass PointMassSpec.
Local Open Scope R_scope.
Local Open Scope string_scope.







Variable G : R.




Lemma valid_combination_system cs field :
  valid_combination cs field = true →
  str_in cs ["cartesian"; "spherical"] = true.
Proof.
  unfold valid_combination, str_in. cbn [existsb].
  destruct (String.eqb cs "cartesian"), (String.eqb cs "spherical"); done.
Qed.

Lemma zip_with_map_same {A B C D} (f : B → C → D) (g : A → B) (h : A → C)
    (l : list A) :
  zip_with f (map g l) (map h l) = map (fun a => f (g a) (h a)) l.
Proof. induction l as [|a l IH]; simpl; [done|]. by rewrite IH. Qed.



End PointMassClaims.
Section PointMassTheorems.
Import Numpy NumpySpec PointMass PointMassSpec.
Local Open Scope R_scope.
Local Open Scope string_scope.
Local Open Scope list_scope.











End PointMassTheorems.
Section UpdateTopBottom.
Import Numpy PrismLayer PrismLayerSpec.
Local Open Scope Qc_scope.

Lemma cell_zip_with {A B C} (f : A → B → C) (a : list (list A))
    (b : list (list B)) j i :
  cell (zip_with (zip_with f) a b) j i =
  x ← cell a j i; y ← cell b j i; Some (f x y).
Proof.
  unfold cell. rewrite lookup_zip_with.
  destruct (a !! j) as [ra|]; simpl; [|done].
  destruct (b !! j) as [rb|]; simpl.
  - rewrite lookup_zip_with. by destruct (ra !! i).
  - by destruct (ra !! i).
Qed.

Lemma cell_masked_assign dst mask src j i :
  cell (masked_assign dst mask src) j i =
  d ← cell dst j i; m ← cell mask j i; s ← cell src j i;
  Some (if m : bool then s else d).
Proof.
  unfold masked_assign, cell. rewrite !lookup_zip_with.
  destruct (dst !! j) as [rd|]; simpl; [|done].
  destruct (mask !! j) as [rm|]; simpl; [|by destruct (rd !! i)].
  destruct (src !! j) as [rs|]; simpl; [|by destruct (rd !! i), (rm !! i)].
  rewrite lookup_zip_with. destruct (rd !! i); simpl; [|done].
  rewrite lookup_zip_with.
  destruct (rm !! i); simpl; [|done]. by destruct (rs !! i).
Qed.

Lemma cell_replicate {A} rows cols (v : A) j i :
  cell (replicate rows (replicate cols v)) j i =
  if decide (j < rows ∧ i < cols)%nat then Some v else None.
Proof.
  unfold cell. case_decide as H.
  - rewrite lookup_replicate_2 by lia. simpl.
    by rewrite lookup_replicate_2 by lia.
  - destruct (decide (j < rows)%nat).
    + rewrite lookup_replicate_2 by lia. simpl.
      apply lookup_replicate_None. lia.
    + by rewrite (proj1 (lookup_replicate_None _ _ _)) by lia.
Qed.

Lemma has_shape_cell (a : array2) rows cols j i :
  has_shape a (rows, cols) = true →
  (j < rows)%nat → (i < cols)%nat → is_Some (cell a j i).
Proof.
  unfold has_shape. intros [Hr Hc]%andb_prop Hj Hi. simpl in *.
  apply Nat.eqb_eq in Hr. unfold cell.
  destruct (lookup_lt_is_Some_2 a j) as [row Hrow]; [lia|].
  rewrite Hrow; simpl. apply lookup_lt_is_Some_2.
  rewrite forallb_forall in Hc.
  assert (In row a) as Hin by (eapply list_elem_of_In, list_elem_of_lookup_2; eauto).
  apply Hc, Nat.eqb_eq in Hin. lia.
Qed.

Lemma has_shape_cell_inv (a : array2) rows cols j i v :
  has_shape a (rows, cols) = true → cell a j i = Some v →
  (j < rows)%nat ∧ (i < cols)%nat.
Proof.
  unfold has_shape, cell. intros [Hr Hc]%andb_prop. simpl in *.
  apply Nat.eqb_eq in Hr.
  destruct (a !! j) as [row|] eqn:Hrow; simpl; [|done]. intros Hv.
  split; [apply lookup_lt_Some in Hrow; lia|].
  rewrite forallb_forall in Hc.
  assert (In row a) as Hin by (eapply list_elem_of_In, list_elem_of_lookup_2; eauto).
  apply Hc, Nat.eqb_eq in Hin. apply lookup_lt_Some in Hv. lia.
Qed.

Lemma fle_swap (s r : float) :
  isnan s = false → isnan r = false →
  fle (if flt s r then s else r) (if flt s r then r else s) = true.
Proof.
  destruct s as [|x], r as [|y]; try done. intros _ _. simpl.
  case_bool_decide as H; simpl; apply bool_decide_eq_true.
  - by apply Qclt_le_weak.
  - by apply Qcnot_lt_le.
Qed.

End UpdateTopBottom.
Section UpdateTopBottomClaims.
Import Numpy PrismLayer PrismLayerSpec.
Local Open Scope Qc_scope.

(** C10 as stated fails: a surface cell that is not-a-number is not
    reordered, and [bottom <= top] is false on it. *)
Lemma C10_nan_cell_is_not_ordered :
  ∃ updated,
    update_top_bottom (mk_layer [0] [0] [[Num 1]] [[Num 0]])
      [[NaN]] (Scalar (Num 0)) = Ok updated
    ∧ ¬ bottom_below_top updated.
Proof.
  eexists. split; [reflexivity|].
  intros H. by specialize (H 0%nat 0%nat (Num 0) NaN eq_refl eq_refl).
Qed.

(** C10, amended: [update_top_bottom] accepts every surface of the layer's
    shape and every reference that is a scalar or has the layer's shape; in
    each cell [top] and [bottom] are the surface and the reference, swapped
    exactly where [surface < reference], so that [bottom <= top] holds in
    every cell whose surface and reference are both numbers (a cell with a
    not-a-number surface or reference is left unswapped and is not
    ordered). *)
Theorem C10_update_top_bottom_orders_numbers (self : layer)
    (surface : array2) (reference : reference_arg) :
  has_shape surface (shape self) = true →
  reference_fits self reference = true →
  ∃ updated,
    update_top_bottom self surface reference = Ok updated
    ∧ ∀ j i, (j < (shape self).1)%nat → (i < (shape self).2)%nat →
        ∃ s r t b,
          cell surface j i = Some s ∧ reference_at reference j i = Some r
          ∧ cell (top updated) j i = Some t
          ∧ cell (bottom updated) j i = Some b
          ∧ t = (if flt s r then r else s)
          ∧ b = (if flt s r then s else r)
          ∧ (isnan s = false → isnan r = false → fle b t = true).
Proof.
  intros Hs Hr. unfold update_top_bottom, reference_fits in *.
  destruct (shape self) as [rows cols]. rewrite Hs. cbn [negb fst snd].
  set (ref := match reference with
              | Grid a => a
              | Scalar v => replicate rows (replicate cols v)
              end).
  assert ((match reference with
           | Grid a =>
               if negb (has_shape a (rows, cols))
               then Raise (ValueError "Invalid reference array")
               else Ok a
           | Scalar v => Ok (replicate rows (replicate cols v))
           end) = Ok ref) as ->.
  { destruct reference as [v|a]; [done|]. by rewrite Hr. }
  cbn [mbind result_bind Ok]. eexists. split; [done|].
  intros j i Hj Hi. cbn [top bottom].
  destruct (has_shape_cell surface rows cols j i Hs Hj Hi) as [s Hcs].
  assert (∃ r, cell ref j i = Some r ∧ reference_at reference j i = Some r)
    as (r & Hcr & Hrr).
  { subst ref. destruct reference as [v|a]; simpl.
    - exists v. by rewrite cell_replicate, decide_True.
    - destruct (has_shape_cell a rows cols j i Hr Hj Hi) as [r ->].
      by exists r. }
  exists s, r, (if flt s r then r else s), (if flt s r then s else r).
  split; [done|]. split; [done|].
  rewrite !cell_masked_assign, cell_zip_with, Hcs, Hcr. simpl.
  split; [done|]. split; [done|]. split; [done|]. split; [done|].
  apply fle_swap.
Qed.

Lemma C10_update_top_bottom_orders_numbers_witness :
  ∃ updated,
    update_top_bottom (mk_layer [0; 1] [0] [] [])
      [[Num (of_Z 5); Num (of_Z (-3))]] (Scalar (Num 0)) = Ok updated
    ∧ ∀ j i, (j < 1)%nat → (i < 2)%nat →
        ∃ s r t b,
          cell [[Num (of_Z 5); Num (of_Z (-3))]] j i = Some s
          ∧ reference_at (Scalar (Num 0)) j i = Some r
          ∧ cell (top updated) j i = Some t
          ∧ cell (bottom updated) j i = Some b
          ∧ t = (if flt s r then r else s)
          ∧ b = (if flt s r then s else r)
          ∧ (isnan s = false → isnan r = false → fle b t = true).
Proof.
  apply (C10_update_top_bottom_orders_numbers (mk_layer [0; 1] [0] [] [])
           [[Num (of_Z 5); Num (of_Z (-3))]] (Scalar (Num 0))); reflexivity.
Defined.

End UpdateTopBottomClaims.
Section PureLoops.
Import Numpy.
Context {A B St : Type}.

(** A loop whose body never raises is a left fold. *)
Lemma for_each_pure (l : list A) (body : A → St → result St)
    (g : St → A → St) s :
  (∀ a s, a ∈ l → body a s = Ok (g s a)) →
  for_each l body s = Ok (fold_left g l s).
Proof.
  revert s; induction l as [|a l IH]; intros s H; simpl; [done|].
  rewrite H by left. simpl. apply IH. intros b t Hb. apply H. by right.
Qed.

Lemma fold_left_flat_map (g : St → B → St) (h : A → list B) (l : list A) s :
  fold_left g (flat_map h l) s = fold_left (fun s a => fold_left g (h a) s) l s.
Proof.
  revert s; induction l as [|a l IH]; intros s; simpl; [done|].
  by rewrite fold_left_app, IH.
Qed.

Lemma fold_left_filter (keep : A → bool) (g : St → A → St) (l : list A) s :
  fold_left (fun s a => if keep a then g s a else s) l s =
  fold_left g (filter (fun a => keep a = true) l) s.
Proof.
  revert s; induction l as [|a l IH]; intros s; simpl; [done|].
  rewrite filter_cons. destruct (keep a) eqn:Hk.
  - rewrite decide_True by done. simpl. apply IH.
  - rewrite decide_False by done. apply IH.
Qed.

Lemma fold_left_map (f : A → B) (g : St → B → St) (l : list A) s :
  fold_left g (map f l) s = fold_left (fun s a => g s (f a)) l s.
Proof. revert s; induction l as [|a l IH]; intros s; simpl; [done|apply IH]. Qed.

Lemma fold_left_ext_in (g1 g2 : St → A → St) (l : list A) s :
  (∀ a s, a ∈ l → g1 s a = g2 s a) → fold_left g1 l s = fold_left g2 l s.
Proof.
  revert s; induction l as [|a l IH]; intros s H; simpl; [done|].
  rewrite H by left. apply IH. intros b t Hb. apply H. by right.
Qed.

End PureLoops.

Section Ranges.
Import Numpy PrismLayer PrismLayerSpec.
Local Open Scope Z_scope.

Lemma elem_of_zrange lo hi k : k ∈ zrange lo hi ↔ lo ≤ k < hi.
Proof.
  unfold zrange. change (map ?f ?l) with (f <$> l).
  rewrite list_elem_of_fmap. split.
  - intros (n & -> & Hn%elem_of_seq). lia.
  - intros H. exists (Z.to_nat (k - lo)). split; [lia|].
    apply elem_of_seq. lia.
Qed.

Lemma elem_of_steps stop step k :
  0 < step → k ∈ steps stop step → 0 ≤ k < stop ∧ (step | k).
Proof.
  intros Hstep. unfold steps. change (map ?f ?l) with (f <$> l).
  rewrite list_elem_of_fmap. intros (n & -> & Hn%elem_of_seq).
  split; [|by apply Z.divide_factor_r].
  assert (Z.of_nat n < (stop + step - 1) / step) as Hlt by lia.
  pose proof (Z.mul_div_le (stop + step - 1) step Hstep).
  nia.
Qed.

Lemma range_step_positive stop step :
  0 < step → range_step stop step = Ok (steps stop step).
Proof.
  intros H. unfold range_step.
  rewrite decide_False by lia. by rewrite decide_False by lia.
Qed.

Lemma item_nonneg {A} (a : list A) (i : Z) :
  0 ≤ i → item a i = index a (Z.to_nat i).
Proof.
  intros Hi. unfold item.
  assert ((i <? 0) = false) as Hlt by (apply Z.ltb_ge; lia).
  rewrite Hlt. cbv zeta. by rewrite Hlt.
Qed.

Lemma item_in_bounds {A} (a : list A) (i : Z) :
  0 ≤ i < size a → ∃ v, a !! Z.to_nat i = Some v ∧ item a i = Ok v.
Proof.
  intros Hi. unfold size in *. rewrite item_nonneg by lia.
  destruct (lookup_lt_is_Some_2 a (Z.to_nat i)) as [v Hv]; [lia|].
  exists v. split; [done|]. unfold index. by rewrite Hv.
Qed.

Lemma item_centre (a : list Qc) (i : Z) :
  0 ≤ i < size a → item a i = Ok (centre a i).
Proof.
  intros Hi. destruct (item_in_bounds a i Hi) as (v & Hv & ->).
  unfold centre. by rewrite Hv.
Qed.

Lemma item2_value (a : array2) rows cols (j i : Z) :
  has_shape a (rows, cols) = true →
  0 ≤ j < Z.of_nat rows → 0 ≤ i < Z.of_nat cols →
  item2 a j i = Ok (value a j i).
Proof.
  intros Hs Hj Hi.
  destruct (has_shape_cell a rows cols (Z.to_nat j) (Z.to_nat i) Hs)
    as [v Hv]; [lia..|].
  unfold value. rewrite Hv. simpl.
  unfold cell in Hv. destruct (a !! Z.to_nat j) as [row|] eqn:Hrow; [|done].
  simpl in Hv. unfold item2. rewrite item_nonneg by lia.
  unfold index at 1. rewrite Hrow. simpl. rewrite item_nonneg by lia.
  unfold index. by rewrite Hv.
Qed.

End Ranges.
Section DriverLoops.
Import Numpy PrismLayer PrismLayerSpec.
Local Open Scope Z_scope.
Local Open Scope Qc_scope.

Context {V : Type} (zero : V) (add : V → V → V).
Variable forward_func : @forward_kernel V.
Variables (easting northing upward : Qc).
Variables (prisms_easting prisms_northing : list Qc).
Variables (prisms_bottom prisms_top prisms_densities : array2).
Hypothesis fits :
  grid_fits prisms_easting prisms_northing
            prisms_bottom prisms_top prisms_densities.

Local Abbreviation accumulate :=
  (fun (acc : V) (c : call) => add acc (apply_kernel forward_func c)).
Local Abbreviation fine_sized :=
  (fine_prism_sized easting northing upward prisms_easting prisms_northing
     prisms_bottom prisms_top prisms_densities).
Local Abbreviation coarse_sized :=
  (coarse_prism_sized easting northing upward prisms_easting prisms_northing
     prisms_bottom prisms_top prisms_densities).

(** The fine loops call the kernel once for every cell of the window, in
    order, on that cell's own prism. *)
Lemma forward_finer_fold size_e size_n box acc :
  window_in_grid prisms_easting prisms_northing box →
  forward_finer add forward_func easting northing upward
    prisms_easting prisms_northing prisms_bottom prisms_top prisms_densities
    size_e size_n box acc
  = Ok (fold_left accumulate
          (map (fine_sized size_e size_n) (near_cells box)) acc).
Proof using fits.
  destruct box as [[[i_min i_max] j_min] j_max].
  intros (Hi0 & Hi1 & Hj0 & Hj1). destruct fits as (Hb & Ht & Hd).
  unfold forward_finer, near_cells.
  rewrite fold_left_map, fold_left_flat_map.
  apply for_each_pure. intros i acc' Hi%elem_of_zrange.
  rewrite item_centre by lia. cbn [mbind result_bind Ok].
  rewrite fold_left_map.
  apply for_each_pure. intros j acc'' Hj%elem_of_zrange.
  rewrite item_centre by lia. cbn [mbind result_bind Ok].
  rewrite (item2_value _ _ _ j i Hb), (item2_value _ _ _ j i Ht),
    (item2_value _ _ _ j i Hd) by (unfold size in *; lia).
  done.
Qed.

(** The coarse loops call the kernel once for every block whose origin is
    outside the window and whose mean density is a number. *)
Lemma forward_coarser_fold size_e size_n factor box acc :
  (0 < factor)%Z →
  forward_coarser add forward_func easting northing upward
    prisms_easting prisms_northing prisms_bottom prisms_top prisms_densities
    size_e size_n factor box acc
  = Ok (fold_left accumulate
          (map (coarse_sized size_e size_n factor)
               (evaluated_blocks prisms_easting prisms_northing
                  prisms_densities factor box)) acc).
Proof using Type.
  destruct box as [[[i_min i_max] j_min] j_max]. intros Hfactor.
  unfold forward_coarser, evaluated_blocks, block_origins.
  rewrite !range_step_positive by done. cbn [mbind result_bind Ok].
  rewrite fold_left_map, <- fold_left_filter, fold_left_flat_map.
  apply for_each_pure. intros i acc' [Hi _]%elem_of_steps; [|done].
  rewrite item_centre by lia. cbn [mbind result_bind Ok].
  rewrite fold_left_map.
  apply for_each_pure. intros j acc'' [Hj _]%elem_of_steps; [|done].
  unfold evaluated, in_window. cbn [fst snd].
  destruct ((i_min <=? i)%Z && (i <? i_max)%Z && (j_min <=? j)%Z
            && (j <? j_max)%Z); cbn [negb andb]; [done|].
  rewrite item_centre by lia. cbn [mbind result_bind Ok].
  by destruct (isnan (np_mean (slice2 prisms_densities j i factor))).
Qed.

End DriverLoops.
Section Rationals.
Import Numpy PrismLayer PrismLayerSpec.
Local Open Scope Z_scope.
Local Open Scope Qc_scope.

Lemma of_Z_succ (i : Z) : of_Z (i + 1) = of_Z i + 1.
Proof.
  apply Qc_is_canon. unfold of_Z, Qcplus. cbn [this Q2Qc].
  rewrite !Qred_correct, inject_Z_plus. reflexivity.
Qed.

Lemma of_Z_one : of_Z 1 = 1.
Proof. by apply Qc_is_canon. Qed.

Lemma of_Z_zero : of_Z 0 = 0.
Proof. by apply Qc_is_canon. Qed.

(** [floor_div a b] is the largest integer [q] with [q * b <= a]. *)
Lemma floor_div_spec (a b : Qc) (q i : Z) :
  0 < b → floor_div a b = Ok q → (i ≤ q)%Z ↔ of_Z i * b ≤ a.
Proof.
  intros Hb. unfold floor_div.
  destruct (decide (b = 0)) as [->|Hne]; [by apply Qclt_not_eq in Hb|].
  intros Hq. assert (q = Qfloor (this a / this b)) as ->
    by (unfold Ok in Hq; congruence).
  clear Hq.
  assert (this (of_Z i * b) == inject_Z i * this b)%Q as Hmul.
  { unfold Qcmult, of_Z. cbn [this Q2Qc]. by rewrite !Qred_correct. }
  unfold Qcle, Qclt in *. rewrite Hmul.
  change (this 0) with 0%Q in Hb.
  split.
  - intros Hi.
    assert (inject_Z i <= this a / this b)%Q as Hle.
    { eapply Qle_trans; [|apply Qfloor_le]. by rewrite <- Zle_Qle. }
    apply Qnot_lt_le. intros Hlt.
    apply (Qlt_shift_div_r _ _ _ Hb) in Hlt.
    apply (Qlt_not_le _ _ Hlt Hle).
  - intros Hle. apply (Qle_shift_div_l _ _ _ Hb) in Hle.
    apply Qfloor_resp_le in Hle.
    by rewrite Qfloor_Z in Hle.
Qed.

Lemma floor_div_spec_lt (a b : Qc) (q i : Z) :
  0 < b → floor_div a b = Ok q → (q ≤ i)%Z ↔ a < (of_Z i + 1) * b.
Proof.
  intros Hb Hq. rewrite <- of_Z_succ. split.
  - intros Hi. apply Qcnot_le_lt. intros Hle.
    apply (floor_div_spec a b q (i + 1) Hb Hq) in Hle. lia.
  - intros Hlt. destruct (decide (q ≤ i)%Z) as [|Hn]; [done|].
    exfalso. apply (Qclt_not_le _ _ Hlt).
    apply (floor_div_spec a b q (i + 1) Hb Hq). lia.
Qed.

(** Within the bounds of [int64_quotient] the floor quotient and its
    successor are 64-bit integers. *)
Lemma floor_div_int64 (a b : Qc) (q : Z) :
  0 < b → int64_quotient a b → floor_div a b = Ok q →
  (- 2 ^ 63 ≤ q ∧ q + 1 < 2 ^ 63)%Z.
Proof.
  intros Hb [Hlo Hhi] Hq. split.
  - by apply (floor_div_spec a b q (- 2 ^ 63) Hb Hq).
  - assert (q ≤ 2 ^ 63 - 2)%Z; [|lia].
    apply (floor_div_spec_lt a b q (2 ^ 63 - 2) Hb Hq).
    rewrite <- of_Z_succ.
    by replace (2 ^ 63 - 2 + 1)%Z with (2 ^ 63 - 1)%Z by lia.
Qed.

Lemma floor_div_positive (a b : Qc) : 0 < b → ∃ q, floor_div a b = Ok q.
Proof.
  intros Hb. unfold floor_div. rewrite decide_False; [by eexists|].
  intros ->. by apply Qclt_not_eq in Hb.
Qed.

End Rationals.
Section DriverStructure.
Import Numpy PrismLayer PrismLayerSpec.
Local Open Scope Z_scope.
Local Open Scope Qc_scope.

Lemma item_ok_centre (a : list Qc) (i : Z) v :
  (0 ≤ i)%Z → item a i = Ok v → v = centre a i.
Proof.
  intros Hi. rewrite item_nonneg by done. unfold index, centre.
  destruct (a !! Z.to_nat i); [|done]. by intros [= <-].
Qed.

Lemma bounding_indices_in_grid easting northing prisms_easting prisms_northing
    fine_distance spacing_easting spacing_northing box :
  bounding_indices easting northing prisms_easting prisms_northing
    fine_distance spacing_easting spacing_northing = Ok box →
  window_in_grid prisms_easting prisms_northing box.
Proof.
  unfold bounding_indices. intros H.
  repeat match type of H with
         | context [?c ≫= _] =>
             match c with
             | np_min _ => destruct c; [done|]
             | floor_div _ _ => destruct c; [done|]
             end; cbn [mbind result_bind Ok] in H
         end.
  injection H as <-. unfold window_in_grid, size. lia.
Qed.

Context {V : Type} (zero : V) (add : V → V → V).
Variable forward_func : @forward_kernel V.
Variables (easting northing upward : Qc).
Variables (prisms_easting prisms_northing : list Qc).
Variables (prisms_bottom prisms_top prisms_densities : array2).
Hypothesis fits :
  grid_fits prisms_easting prisms_northing
            prisms_bottom prisms_top prisms_densities.

(** The run of [_gravity_coarser]: the kernel on the fine prisms of the
    window, then on the evaluated blocks, accumulated from zero. *)
Lemma gravity_coarser_fold fine_distance factor box :
  (0 < factor)%Z →
  near_window easting northing prisms_easting prisms_northing
    fine_distance factor = Ok box →
  _gravity_coarser zero add forward_func easting northing upward
    prisms_easting prisms_northing prisms_bottom prisms_top prisms_densities
    fine_distance factor
  = Ok (fold_left (fun acc c => add acc (apply_kernel forward_func c))
          (map (fine_prism easting northing upward prisms_easting
                  prisms_northing prisms_bottom prisms_top prisms_densities)
               (near_cells box)
           ++ map (coarse_prism easting northing upward prisms_easting
                     prisms_northing prisms_bottom prisms_top prisms_densities
                     factor)
                  (evaluated_blocks prisms_easting prisms_northing
                     prisms_densities factor box))
          zero).
Proof using fits.
  intros Hfactor. unfold near_window, _gravity_coarser.
  destruct (item prisms_easting 1) as [|e1] eqn:He1; [done|].
  destruct (item prisms_easting 0) as [|e0] eqn:He0; [done|].
  destruct (item prisms_northing 1) as [|n1] eqn:Hn1; [done|].
  destruct (item prisms_northing 0) as [|n0] eqn:Hn0; [done|].
  cbn [mbind result_bind Ok]. intros Hbox. rewrite Hbox.
  cbn [mbind result_bind Ok].
  apply item_ok_centre in He1, He0, Hn1, Hn0; [|lia..]. subst.
  rewrite forward_finer_fold
    by (done || by eapply bounding_indices_in_grid).
  cbn [mbind result_bind Ok].
  rewrite forward_coarser_fold by done.
  by rewrite fold_left_app.
Qed.

End DriverStructure.
Section Reordering.
Context {A B C St : Type}.

Lemma flat_map_cons_perm (g : B → C) (h : B → list C) (l : list B) :
  flat_map (fun b => g b :: h b) l ≡ₚ map g l ++ flat_map h l.
Proof.
  induction l as [|b l IH]; simpl; [done|].
  rewrite IH. apply Permutation_skip.
  rewrite !app_assoc. apply Permutation_app_tail, Permutation_app_comm.
Qed.

Lemma flat_map_nil_const (l : list B) :
  flat_map (fun _ : B => @nil C) l = [].
Proof. induction l; simpl; done. Qed.

(** Exchanging the two loops permutes the cells. *)
Lemma flat_map_swap (f : A → B → C) (la : list A) (lb : list B) :
  flat_map (fun a => map (fun b => f a b) lb) la
  ≡ₚ flat_map (fun b => map (fun a => f a b) la) lb.
Proof.
  induction la as [|a la IH]; simpl.
  - by rewrite flat_map_nil_const.
  - rewrite IH. symmetry. apply flat_map_cons_perm.
Qed.

(** A left fold with an order-insensitive step does not depend on the
    order of the list. *)
Lemma fold_left_permutation (g : St → A → St) (l1 l2 : list A) s :
  (∀ s a b, g (g s a) b = g (g s b) a) →
  l1 ≡ₚ l2 → fold_left g l1 s = fold_left g l2 s.
Proof.
  intros Hg Hp. revert s.
  induction Hp as [|x l1 l2 _ IH|x y l|l1 l2 l3 _ IH1 _ IH2]; intros s;
    simpl.
  - done.
  - apply IH.
  - by rewrite Hg.
  - by rewrite IH1.
Qed.

Lemma filter_all_false (P : A → Prop) `{∀ x, Decision (P x)} (l : list A) :
  (∀ x, x ∈ l → ¬ P x) → filter P l = [].
Proof.
  induction l as [|a l IH]; intros Hl; [done|].
  rewrite filter_cons, decide_False by (apply Hl; left).
  apply IH. intros x Hx. apply Hl. by right.
Qed.

Lemma elem_of_product (la : list A) (lb : list B) a b :
  (a, b) ∈ flat_map (fun a => map (fun b => (a, b)) lb) la ↔ a ∈ la ∧ b ∈ lb.
Proof.
  rewrite !list_elem_of_In, in_flat_map. split.
  - intros (a' & Ha & Hb). apply in_map_iff in Hb as (b' & [= <- <-] & Hb).
    done.
  - intros [Ha Hb]. exists a. split; [done|]. apply in_map_iff. by exists b.
Qed.

End Reordering.

Section CoveringWindow.
Import Numpy PrismLayer PrismLayerSpec.
Local Open Scope Z_scope.

Variables (prisms_easting prisms_northing : list Qc).
Variables (prisms_densities : array2).

Lemma in_window_full i j :
  0 ≤ i < size prisms_easting → 0 ≤ j < size prisms_northing →
  in_window (0, size prisms_easting, 0, size prisms_northing) i j = true.
Proof.
  intros Hi Hj. unfold in_window.
  repeat (apply andb_true_intro; split); first [apply Z.leb_le|apply Z.ltb_lt];
    lia.
Qed.

(** When the window is the whole grid every block origin is inside it: no
    block is evaluated. *)
Lemma evaluated_blocks_full factor :
  0 < factor →
  evaluated_blocks prisms_easting prisms_northing prisms_densities factor
    (0, size prisms_easting, 0, size prisms_northing) = [].
Proof.
  intros Hfactor. unfold evaluated_blocks.
  apply filter_all_false. intros [i j] Hin.
  apply elem_of_product in Hin as [Hi Hj].
  apply elem_of_steps in Hi as [Hi _]; [|done].
  apply elem_of_steps in Hj as [Hj _]; [|done].
  unfold evaluated. cbn [fst snd]. by rewrite in_window_full.
Qed.

(** The cells of the full window are the cells of the layer, in another
    order. *)
Lemma near_cells_full :
  near_cells (0, size prisms_easting, 0, size prisms_northing)
  ≡ₚ layer_cells prisms_easting prisms_northing.
Proof.
  unfold near_cells, layer_cells.
  apply (flat_map_swap (fun i j => (i, j))).
Qed.

End CoveringWindow.
Section ExactSummation.
Import Numpy PrismLayer PrismLayerSpec.
Local Open Scope Z_scope.

(** C4: for every observation point and every [factor >= 1], when the near
    window that the driver computes covers the entire grid, no coarse block
    is evaluated and the output is the exact summation over all fine prisms
    of the layer (the accumulation being associative and commutative, as
    addition of exact numbers is). *)
Theorem C4_full_window_is_exact_summation {V : Type} (zero : V)
    (add : V → V → V) (forward_func : @forward_kernel V)
    (easting northing upward : Qc) (prisms_easting prisms_northing : list Qc)
    (prisms_bottom prisms_top prisms_densities : array2)
    (fine_distance : Qc) (factor : Z) :
  (∀ x y z, add x (add y z) = add (add x y) z) →
  (∀ x y, add x y = add y x) →
  grid_fits prisms_easting prisms_northing
    prisms_bottom prisms_top prisms_densities →
  1 ≤ factor →
  near_window easting northing prisms_easting prisms_northing
    fine_distance factor
  = Ok (0, size prisms_easting, 0, size prisms_northing) →
  _gravity_coarser zero add forward_func easting northing upward
    prisms_easting prisms_northing prisms_bottom prisms_top prisms_densities
    fine_distance factor
  = Ok (exact_summation easting northing upward prisms_easting
          prisms_northing prisms_bottom prisms_top prisms_densities
          zero add forward_func)
  ∧ evaluated_blocks prisms_easting prisms_northing prisms_densities factor
      (0, size prisms_easting, 0, size prisms_northing) = [].
Proof.
  intros Hassoc Hcomm Hfits Hfactor Hbox.
  split; [|apply evaluated_blocks_full; lia].
  rewrite (gravity_coarser_fold zero add forward_func _ _ _ _ _ _ _ _ Hfits
             fine_distance factor _ ltac:(lia) Hbox).
  rewrite evaluated_blocks_full by lia. simpl. rewrite app_nil_r.
  unfold exact_summation. f_equal.
  apply fold_left_permutation.
  - intros s a b. by rewrite <- !Hassoc, (Hcomm (apply_kernel _ a)).
  - apply Permutation_map, near_cells_full.
Qed.

Lemma C4_full_window_is_exact_summation_witness :
  let grid := [[Num (of_Z 2); Num (of_Z 3)]; [Num (of_Z 5); Num (of_Z 7)]] in
  let coordinates := [of_Z 0; of_Z 1] in
  let count : @forward_kernel Z := fun _ _ _ _ _ _ _ _ _ _ => 1 in
  _gravity_coarser 0 Z.add count (of_Z 0) (of_Z 0) (of_Z 0)
    coordinates coordinates grid grid grid (of_Z 10) 2
  = Ok (exact_summation (of_Z 0) (of_Z 0) (of_Z 0)
          coordinates coordinates grid grid grid 0 Z.add count)
  ∧ evaluated_blocks coordinates coordinates grid 2 (0, 2, 0, 2) = [].
Proof.
  apply (C4_full_window_is_exact_summation 0 Z.add
           (fun _ _ _ _ _ _ _ _ _ _ => 1)).
  - intros; lia.
  - intros; lia.
  - repeat split; reflexivity.
  - lia.
  - vm_compute. reflexivity.
Defined.

End ExactSummation.
(** Turn an order statement on canonical rationals into one on plain
    rationals, where linear arithmetic is available. *)
Ltac qc_to_q :=
  unfold Qcle, Qclt, Qcminus, Qcdiv, Qcplus, Qcmult, Qcopp, Qcinv,
    PrismLayer.of_Z in *;
  cbn [this Q2Qc] in *;
  repeat (setoid_rewrite Qred_correct);
  repeat match goal with
         | H : context [Qred _] |- _ => setoid_rewrite Qred_correct in H
         end.

Section RegularGrid.
Import Numpy PrismLayer PrismLayerSpec.
Local Open Scope Z_scope.
Local Open Scope Qc_scope.

Lemma of_Z_nonneg (k : Z) : (0 ≤ k)%Z → 0 ≤ of_Z k.
Proof.
  intros Hk. qc_to_q. change 0%Q with (inject_Z 0). by rewrite <- Zle_Qle.
Qed.

Lemma of_Z_pos (k : Z) : (0 < k)%Z → 0 < of_Z k.
Proof.
  intros Hk. qc_to_q. change 0%Q with (inject_Z 0). by rewrite <- Zlt_Qlt.
Qed.

Lemma Qcmult_pos (a b : Qc) : 0 < a → 0 < b → 0 < a * b.
Proof.
  intros Ha Hb. rewrite <- (Qcmult_0_l b). by apply Qcmult_lt_compat_r.
Qed.

Lemma Qcmult_nonneg (a b : Qc) : 0 ≤ a → 0 ≤ b → 0 ≤ a * b.
Proof.
  intros Ha Hb. rewrite <- (Qcmult_0_l b). by apply Qcmult_le_compat_r.
Qed.

Lemma np_min_first (x : Qc) (xs : list Qc) :
  (∀ y, y ∈ xs → x ≤ y) → np_min (x :: xs) = Ok x.
Proof.
  intros H. unfold np_min. f_equal.
  induction xs as [|y xs IH]; simpl; [done|].
  destruct (Qclt_le_dec y x) as [Hlt|_].
  - exfalso. apply (Qclt_not_le _ _ Hlt). apply H. by left.
  - apply IH. intros z Hz. apply H. by right.
Qed.

Variables (a : list Qc) (first spacing : Qc).
Hypothesis Hregular : regular a first spacing.

Lemma regular_centre (i : Z) :
  (0 ≤ i < size a)%Z → centre a i = first + of_Z i * spacing.
Proof using Hregular.
  intros Hi. destruct Hregular as (_ & _ & Hk). unfold centre, size in *.
  rewrite Hk by lia. simpl. by rewrite Z2Nat.id by lia.
Qed.

Lemma regular_size : (2 ≤ size a)%Z.
Proof using Hregular. destruct Hregular as (_ & ? & _). unfold size. lia. Qed.

Lemma regular_prism_size : centre a 1 - centre a 0 = spacing.
Proof using Hregular.
  pose proof regular_size.
  rewrite !regular_centre by lia. rewrite of_Z_one, of_Z_zero. ring.
Qed.

Lemma regular_min : np_min a = Ok first.
Proof using Hregular.
  destruct Hregular as (Hs & Hlen & Hk).
  destruct a as [|x xs] eqn:Ha; [simpl in Hlen; lia|].
  assert (x = first) as ->.
  { pose proof (Hk 0%nat ltac:(simpl; lia)) as H0.
    change ((x :: xs) !! 0%nat) with (Some x) in H0.
    change (Z.of_nat 0) with 0%Z in H0. rewrite of_Z_zero in H0.
    injection H0 as ->. ring. }
  apply np_min_first. intros y [k Hy]%list_elem_of_lookup_1.
  assert (S k < length (first :: xs))%nat as Hlt
    by (simpl; apply lookup_lt_Some in Hy; lia).
  specialize (Hk (S k) Hlt).
  change ((first :: xs) !! S k) with (xs !! k) in Hk. rewrite Hy in Hk.
  injection Hk as ->.
  rewrite <- (Qcplus_0_r first) at 1.
  apply Qcplus_le_compat; [apply Qcle_refl|].
  apply Qcmult_nonneg; [apply of_Z_nonneg; lia|by apply Qclt_le_weak].
Qed.

(** Along one axis at [factor = 1]: the window holds every centre within
    the fine distance, and every centre it holds is within the fine
    distance on the high side and within the fine distance plus one
    spacing on the low side. *)
Lemma window_axis (x fine_distance : Qc) (q1 q2 i : Z) :
  floor_div (x - first - fine_distance) (spacing * of_Z 1) = Ok q1 →
  floor_div (x - first + fine_distance) (spacing * of_Z 1) = Ok q2 →
  (0 ≤ i < size a)%Z →
  (within (centre a i) x fine_distance →
   (Z.max q1 0 ≤ i < Z.min (q2 + 1) (size a))%Z)
  ∧ ((Z.max q1 0 ≤ i < Z.min (q2 + 1) (size a))%Z →
     x - fine_distance - spacing < centre a i
     ∧ centre a i ≤ x + fine_distance).
Proof using Hregular.
  intros Hq1 Hq2 Hi. rewrite regular_centre by done.
  destruct Hregular as (Hs & _ & _).
  rewrite of_Z_one, Qcmult_1_r in Hq1, Hq2.
  pose proof (floor_div_spec_lt _ _ q1 i Hs Hq1) as H1.
  pose proof (floor_div_spec _ _ q2 i Hs Hq2) as H2.
  unfold within. split.
  - intros [Hlo Hhi].
    assert (q1 ≤ i)%Z by (apply H1; clear H1 H2; qc_to_q; Lqa.lra).
    assert (i ≤ q2)%Z by (apply H2; clear H1 H2; qc_to_q; Lqa.lra).
    lia.
  - intros Hwin.
    assert (q1 ≤ i)%Z as Hq1i by lia. assert (i ≤ q2)%Z as Hq2i by lia.
    apply H1 in Hq1i. apply H2 in Hq2i. clear H1 H2.
    split; qc_to_q; Lqa.lra.
Qed.

End RegularGrid.
Section NearWindow.
Import Numpy PrismLayer PrismLayerSpec.
Local Open Scope Z_scope.
Local Open Scope Qc_scope.

Lemma NoDup_zrange lo hi : NoDup (zrange lo hi).
Proof.
  unfold zrange. change (map ?f ?l) with (f <$> l).
  apply NoDup_fmap_2; [|apply NoDup_seq]. intros x y. lia.
Qed.

Lemma NoDup_product {A B} (la : list A) (lb : list B) :
  NoDup la → NoDup lb →
  NoDup (flat_map (fun a => map (fun b => (a, b)) lb) la).
Proof.
  intros Ha Hb. induction Ha as [|a la Hnotin _ IH]; simpl; [constructor|].
  apply NoDup_app. split; [|split; [|done]].
  - change (map ?f ?l) with (f <$> l). apply NoDup_fmap_2; [|done].
    by intros x y [= ->].
  - intros [a' b'] Hin1 Hin2.
    change (map ?f ?l) with (f <$> l) in Hin1.
    apply list_elem_of_fmap in Hin1 as (b & [= -> ->] & _).
    by apply elem_of_product in Hin2 as [? _].
Qed.

Lemma near_cells_spec box i j :
  (i, j) ∈ near_cells box ↔ in_window box i j = true.
Proof.
  destruct box as [[[i_min i_max] j_min] j_max]. unfold near_cells, in_window.
  rewrite elem_of_product, !elem_of_zrange, !andb_true_iff,
    !Z.leb_le, !Z.ltb_lt. tauto.
Qed.

Lemma NoDup_near_cells box : NoDup (near_cells box).
Proof.
  destruct box as [[[i_min i_max] j_min] j_max].
  apply NoDup_product; apply NoDup_zrange.
Qed.

Lemma near_window_regular_unfold easting northing prisms_easting
    prisms_northing first_e spacing_e first_n spacing_n fine_distance factor :
  regular prisms_easting first_e spacing_e →
  regular prisms_northing first_n spacing_n →
  near_window easting northing prisms_easting prisms_northing
    fine_distance factor
  = (q1 ← floor_div (easting - first_e - fine_distance)
            (spacing_e * of_Z factor);
     q2 ← floor_div (easting - first_e + fine_distance)
            (spacing_e * of_Z factor);
     q3 ← floor_div (northing - first_n - fine_distance)
            (spacing_n * of_Z factor);
     q4 ← floor_div (northing - first_n + fine_distance)
            (spacing_n * of_Z factor);
     Ok (Z.max q1 0, Z.min (q2 + 1) (size prisms_easting),
         Z.max q3 0, Z.min (q4 + 1) (size prisms_northing))).
Proof.
  intros He Hn. unfold near_window.
  pose proof (regular_size _ _ _ He). pose proof (regular_size _ _ _ Hn).
  rewrite !item_centre by lia. cbn [mbind result_bind Ok].
  rewrite (regular_prism_size _ _ _ He), (regular_prism_size _ _ _ Hn).
  unfold bounding_indices.
  rewrite (regular_min _ _ _ He), (regular_min _ _ _ Hn).
  by cbn [mbind result_bind Ok].
Qed.

Lemma near_window_regular easting northing prisms_easting prisms_northing
    first_e spacing_e first_n spacing_n fine_distance factor box :
  regular prisms_easting first_e spacing_e →
  regular prisms_northing first_n spacing_n →
  near_window easting northing prisms_easting prisms_northing
    fine_distance factor = Ok box →
  ∃ q1 q2 q3 q4,
    floor_div (easting - first_e - fine_distance) (spacing_e * of_Z factor)
    = Ok q1
    ∧ floor_div (easting - first_e + fine_distance) (spacing_e * of_Z factor)
      = Ok q2
    ∧ floor_div (northing - first_n - fine_distance)
        (spacing_n * of_Z factor) = Ok q3
    ∧ floor_div (northing - first_n + fine_distance)
        (spacing_n * of_Z factor) = Ok q4
    ∧ box = (Z.max q1 0, Z.min (q2 + 1) (size prisms_easting),
             Z.max q3 0, Z.min (q4 + 1) (size prisms_northing)).
Proof.
  intros He Hn. rewrite (near_window_regular_unfold _ _ _ _ _ _ _ _ _ _ He Hn).
  destruct (floor_div (easting - first_e - fine_distance) _) as [|q1]; [done|].
  cbn [mbind result_bind Ok].
  destruct (floor_div (easting - first_e + fine_distance) _) as [|q2]; [done|].
  cbn [mbind result_bind Ok].
  destruct (floor_div (northing - first_n - fine_distance) _) as [|q3]; [done|].
  cbn [mbind result_bind Ok].
  destruct (floor_div (northing - first_n + fine_distance) _) as [|q4]; [done|].
  cbn [mbind result_bind Ok]. intros [= <-]. by exists q1, q2, q3, q4.
Qed.

(** On an evenly spaced grid, for every [factor >= 1], a fine distance that
    reaches from the observation point beyond [factor] times the extent of
    the grid makes the window the whole grid. *)
Lemma near_window_covers_grid easting northing prisms_easting prisms_northing
    first_e spacing_e first_n spacing_n fine_distance factor :
  regular prisms_easting first_e spacing_e →
  regular prisms_northing first_n spacing_n →
  (1 ≤ factor)%Z →
  easting - first_e - fine_distance < spacing_e * of_Z factor →
  of_Z (size prisms_easting - 1) * (spacing_e * of_Z factor)
    ≤ easting - first_e + fine_distance →
  northing - first_n - fine_distance < spacing_n * of_Z factor →
  of_Z (size prisms_northing - 1) * (spacing_n * of_Z factor)
    ≤ northing - first_n + fine_distance →
  near_window easting northing prisms_easting prisms_northing
    fine_distance factor
  = Ok (0, size prisms_easting, 0, size prisms_northing)%Z.
Proof.
  intros He Hn Hfactor He1 He2 Hn1 Hn2.
  rewrite (near_window_regular_unfold _ _ _ _ _ _ _ _ _ _ He Hn).
  assert (0 < spacing_e * of_Z factor) as Hse
    by (apply Qcmult_pos; [apply He|apply of_Z_pos; lia]).
  assert (0 < spacing_n * of_Z factor) as Hsn
    by (apply Qcmult_pos; [apply Hn|apply of_Z_pos; lia]).
  destruct (floor_div_positive (easting - first_e - fine_distance) _ Hse)
    as [q1 Hq1].
  destruct (floor_div_positive (easting - first_e + fine_distance) _ Hse)
    as [q2 Hq2].
  destruct (floor_div_positive (northing - first_n - fine_distance) _ Hsn)
    as [q3 Hq3].
  destruct (floor_div_positive (northing - first_n + fine_distance) _ Hsn)
    as [q4 Hq4].
  rewrite Hq1, Hq2, Hq3, Hq4. cbn [mbind result_bind Ok].
  assert (q1 ≤ 0)%Z.
  { apply (floor_div_spec_lt _ _ q1 0 Hse Hq1).
    by rewrite of_Z_zero, Qcplus_0_l, Qcmult_1_l. }
  assert (size prisms_easting - 1 ≤ q2)%Z
    by (by apply (floor_div_spec _ _ q2 _ Hse Hq2)).
  assert (q3 ≤ 0)%Z.
  { apply (floor_div_spec_lt _ _ q3 0 Hsn Hq3).
    by rewrite of_Z_zero, Qcplus_0_l, Qcmult_1_l. }
  assert (size prisms_northing - 1 ≤ q4)%Z
    by (by apply (floor_div_spec _ _ q4 _ Hsn Hq4)).
  unfold Ok. do 2 f_equal; [f_equal; [f_equal|]|]; lia.
Qed.

End NearWindow.
Section KernelCalls.
Import Numpy PrismLayer PrismLayerSpec.
Local Open Scope Z_scope.
Local Open Scope Qc_scope.

Lemma fold_left_record_call (l acc : list call) :
  fold_left (fun acc c => acc ++ apply_kernel record_call c) l acc = acc ++ l.
Proof.
  revert acc; induction l as [|c l IH]; intros acc; simpl.
  - by rewrite app_nil_r.
  - rewrite IH. destruct c. unfold apply_kernel, record_call. simpl.
    by rewrite <- app_assoc.
Qed.

(** The kernel calls of a run: one for every cell of the window, on that
    cell's own prism, then one for every evaluated block. *)
Lemma kernel_calls_spec easting northing upward prisms_easting prisms_northing
    prisms_bottom prisms_top prisms_densities fine_distance factor box :
  grid_fits prisms_easting prisms_northing
    prisms_bottom prisms_top prisms_densities →
  (0 < factor)%Z →
  near_window easting northing prisms_easting prisms_northing
    fine_distance factor = Ok box →
  kernel_calls easting northing upward prisms_easting prisms_northing
    prisms_bottom prisms_top prisms_densities fine_distance factor
  = Ok (map (fine_prism easting northing upward prisms_easting
               prisms_northing prisms_bottom prisms_top prisms_densities)
            (near_cells box)
        ++ map (coarse_prism easting northing upward prisms_easting
                  prisms_northing prisms_bottom prisms_top prisms_densities
                  factor)
               (evaluated_blocks prisms_easting prisms_northing
                  prisms_densities factor box)).
Proof.
  intros Hfits Hfactor Hbox. unfold kernel_calls.
  rewrite (gravity_coarser_fold [] (@app call) record_call _ _ _ _ _ _ _ _
             Hfits fine_distance factor box Hfactor Hbox).
  by rewrite fold_left_record_call.
Qed.

End KernelCalls.

Section CoarseningClaims.
Import Numpy PrismLayer PrismLayerSpec.
Local Open Scope Z_scope.
Local Open Scope Qc_scope.

(** C2 as stated fails: with [factor = 1], centres 0, 1, 2, 3 on both axes,
    the observation point at (2, 2) and a fine distance of 1/2, the window
    is [1, 3) x [1, 3); it holds the prism with centre (1, 1), which is 1
    away from the point on both axes. *)
Lemma C2_window_holds_prism_beyond_fine_distance :
  let centres := [of_Z 0; of_Z 1; of_Z 2; of_Z 3] in
  ∃ box,
    near_window (of_Z 2) (of_Z 2) centres centres half 1 = Ok box
    ∧ ¬ (∀ i j, (0 ≤ i < 4)%Z → (0 ≤ j < 4)%Z →
                in_window box i j = true
                ↔ within (centre centres i) (of_Z 2) half
                  ∧ within (centre centres j) (of_Z 2) half).
Proof.
  exists (1, 3, 1, 3)%Z. split; [by vm_compute|].
  intros H. destruct (H 1%Z 1%Z) as [Hin _]; [lia..|].
  destruct (Hin eq_refl) as [[Hlo _] _]. by vm_compute in Hlo.
Qed.

(** C2, amended: the near region is the index window of the driver, clipped
    to the grid; every fine prism of the window is evaluated by exactly one
    kernel call, on its own horizontal extent, bottom, top and density
    (the calls for the window come first, one per cell, no cell twice).
    With [factor = 1] on a grid whose centres increase by a constant
    positive spacing, and with floor quotients that are 64-bit integers,
    the window holds every prism whose centre lies within the fine distance
    of the observation point along both axes, and every prism it holds has
    its centre within the fine distance on the high side and within the
    fine distance plus one prism spacing on the low side of each axis. *)
Theorem C2_near_window_prisms (easting northing upward : Qc)
    (prisms_easting prisms_northing : list Qc)
    (prisms_bottom prisms_top prisms_densities : array2)
    (fine_distance : Qc) (factor : Z) (box : Z * Z * Z * Z) :
  grid_fits prisms_easting prisms_northing
    prisms_bottom prisms_top prisms_densities →
  (1 ≤ factor)%Z →
  near_window easting northing prisms_easting prisms_northing
    fine_distance factor = Ok box →
  window_in_grid prisms_easting prisms_northing box
  ∧ NoDup (near_cells box)
  ∧ (∀ i j, (i, j) ∈ near_cells box ↔ in_window box i j = true)
  ∧ kernel_calls easting northing upward prisms_easting prisms_northing
      prisms_bottom prisms_top prisms_densities fine_distance factor
    = Ok (map (fine_prism easting northing upward prisms_easting
                 prisms_northing prisms_bottom prisms_top prisms_densities)
              (near_cells box)
          ++ map (coarse_prism easting northing upward prisms_easting
                    prisms_northing prisms_bottom prisms_top
                    prisms_densities factor)
                 (evaluated_blocks prisms_easting prisms_northing
                    prisms_densities factor box))
  ∧ (∀ i j, prism_bottom
              (fine_prism easting northing upward prisms_easting
                 prisms_northing prisms_bottom prisms_top prisms_densities
                 (i, j)) = value prisms_bottom j i
            ∧ prism_top
                (fine_prism easting northing upward prisms_easting
                   prisms_northing prisms_bottom prisms_top prisms_densities
                   (i, j)) = value prisms_top j i
            ∧ prism_density
                (fine_prism easting northing upward prisms_easting
                   prisms_northing prisms_bottom prisms_top prisms_densities
                   (i, j)) = value prisms_densities j i)
  ∧ (factor = 1%Z →
     ∀ first_e spacing_e first_n spacing_n,
       regular prisms_easting first_e spacing_e →
       regular prisms_northing first_n spacing_n →
       window_int64 easting first_e fine_distance spacing_e →
       window_int64 northing first_n fine_distance spacing_n →
       ∀ i j, (0 ≤ i < size prisms_easting)%Z →
              (0 ≤ j < size prisms_northing)%Z →
         (within (centre prisms_easting i) easting fine_distance →
          within (centre prisms_northing j) northing fine_distance →
          in_window box i j = true)
         ∧ (in_window box i j = true →
            easting - fine_distance - spacing_e < centre prisms_easting i
            ∧ centre prisms_easting i ≤ easting + fine_distance
            ∧ northing - fine_distance - spacing_n < centre prisms_northing j
            ∧ centre prisms_northing j ≤ northing + fine_distance)).
Proof.
  intros Hfits Hfactor Hbox.
  split.
  { unfold near_window in Hbox.
    repeat match type of Hbox with
           | context [item ?a ?i ≫= _] =>
               destruct (item a i); [done|];
               cbn [mbind result_bind Ok] in Hbox
           end.
    by eapply bounding_indices_in_grid. }
  split; [apply NoDup_near_cells|]. split; [apply near_cells_spec|].
  split; [apply kernel_calls_spec; [done|lia|done]|]. split; [done|].
  intros -> first_e spacing_e first_n spacing_n He Hn _ _ i j Hi Hj.
  destruct (near_window_regular _ _ _ _ _ _ _ _ _ _ _ He Hn Hbox)
    as (q1 & q2 & q3 & q4 & Hq1 & Hq2 & Hq3 & Hq4 & ->).
  destruct (window_axis _ _ _ He easting fine_distance q1 q2 i Hq1 Hq2 Hi)
    as [He1 He2].
  destruct (window_axis _ _ _ Hn northing fine_distance q3 q4 j Hq3 Hq4 Hj)
    as [Hn1 Hn2].
  unfold in_window. rewrite !andb_true_iff, !Z.leb_le, !Z.ltb_lt. split.
  - intros Hwe Hwn. specialize (He1 Hwe). specialize (Hn1 Hwn). lia.
  - intros Hwin.
    destruct He2 as [? ?]; [lia|]. destruct Hn2 as [? ?]; [lia|]. done.
Qed.

Lemma centres_regular :
  regular [of_Z 0; of_Z 1; of_Z 2; of_Z 3] (of_Z 0) (of_Z 1).
Proof.
  split; [done|]. split; [simpl; lia|].
  intros [|[|[|[|k]]]] Hk; simpl in Hk; try lia;
    simpl; f_equal; by apply Qc_is_canon.
Qed.

Lemma centres_window_int64 : window_int64 (of_Z 2) (of_Z 0) half (of_Z 1).
Proof. by repeat split. Qed.

Lemma C2_near_window_prisms_witness :
  let centres := [of_Z 0; of_Z 1; of_Z 2; of_Z 3] in
  let grid := replicate 4 (replicate 4 (Num (of_Z 1))) in
  window_in_grid centres centres (1, 3, 1, 3)%Z
  ∧ kernel_calls (of_Z 2) (of_Z 2) (of_Z 0) centres centres grid grid grid
      half 1
    = Ok (map (fine_prism (of_Z 2) (of_Z 2) (of_Z 0) centres centres
                 grid grid grid)
              (near_cells (1, 3, 1, 3)%Z)
          ++ map (coarse_prism (of_Z 2) (of_Z 2) (of_Z 0) centres centres
                    grid grid grid 1)
                 (evaluated_blocks centres centres grid 1 (1, 3, 1, 3)%Z))
  ∧ in_window (1, 3, 1, 3)%Z 2 2 = true.
Proof.
  intros centres grid.
  destruct (C2_near_window_prisms (of_Z 2) (of_Z 2) (of_Z 0) centres centres
              grid grid grid half 1 (1, 3, 1, 3)%Z)
    as (H1 & _ & _ & H2 & _ & H3).
  - repeat split; reflexivity.
  - lia.
  - by vm_compute.
  - split; [done|]. split; [done|].
    apply (H3 eq_refl (of_Z 0) (of_Z 1) (of_Z 0) (of_Z 1)
             centres_regular centres_regular
             centres_window_int64 centres_window_int64 2%Z 2%Z);
      by vm_compute.
Defined.

(** The containment needs increasing centres: on the decreasing centres
    3, 2, 1, 0, which are evenly spaced as well, the spacing is negative,
    and the window for an observation point at the centre (2, 2) is empty;
    it misses the prism at the observation point. *)
Example near_window_decreasing_centres :
  let centres := [of_Z 3; of_Z 2; of_Z 1; of_Z 0] in
  near_window (of_Z 2) (of_Z 2) centres centres half 1
  = Ok (0, -2, 0, -2)%Z
  ∧ centre centres 1 = of_Z 2
  ∧ in_window (0, -2, 0, -2)%Z 1 1 = false.
Proof. split; [by vm_compute|]. split; [by apply Qc_is_canon|done]. Qed.

Lemma NoDup_steps stop step : (0 < step)%Z → NoDup (steps stop step).
Proof.
  intros Hstep. unfold steps. change (map ?f ?l) with (f <$> l).
  apply NoDup_fmap_2; [|apply NoDup_seq]. intros x y H. nia.
Qed.

(** The part of C1 that the code does satisfy: a block of the tiling whose
    index range does not meet the window, and whose mean density is a
    number, is evaluated, as one coarse prism carrying the means of the
    block's bottom, top and density; no block is evaluated twice, and a
    block with a not-a-number mean density is not evaluated. *)
Lemma block_outside_window_is_evaluated easting northing upward
    prisms_easting prisms_northing prisms_bottom prisms_top prisms_densities
    fine_distance factor box bi bj :
  grid_fits prisms_easting prisms_northing
    prisms_bottom prisms_top prisms_densities →
  (0 < factor)%Z →
  near_window easting northing prisms_easting prisms_northing
    fine_distance factor = Ok box →
  (bi, bj) ∈ block_origins prisms_easting prisms_northing factor →
  (∀ i j, in_block factor bi bj i j = true → in_window box i j = false) →
  let block := coarse_prism easting northing upward prisms_easting
                 prisms_northing prisms_bottom prisms_top prisms_densities
                 factor (bi, bj) in
  let blocks := evaluated_blocks prisms_easting prisms_northing
                  prisms_densities factor box in
  prism_bottom block = np_mean (slice2 prisms_bottom bj bi factor)
  ∧ prism_top block = np_mean (slice2 prisms_top bj bi factor)
  ∧ prism_density block = np_mean (slice2 prisms_densities bj bi factor)
  ∧ NoDup blocks
  ∧ ((bi, bj) ∈ blocks ↔ isnan (prism_density block) = false)
  ∧ ∃ near,
      kernel_calls easting northing upward prisms_easting prisms_northing
        prisms_bottom prisms_top prisms_densities fine_distance factor
      = Ok (near
            ++ map (coarse_prism easting northing upward prisms_easting
                      prisms_northing prisms_bottom prisms_top
                      prisms_densities factor) blocks).
Proof.
  intros Hfits Hfactor Hbox Hin Hout block blocks.
  split; [done|]. split; [done|]. split; [done|]. split.
  { apply NoDup_filter, NoDup_product; by apply NoDup_steps. }
  split.
  - subst blocks. unfold evaluated_blocks.
    rewrite list_elem_of_filter. unfold evaluated. cbn [fst snd].
    rewrite (Hout bi bj).
    + cbn [negb andb]. rewrite negb_true_iff. tauto.
    + unfold in_block. rewrite !andb_true_iff, !Z.leb_le, !Z.ltb_lt. lia.
  - eexists. by apply kernel_calls_spec.
Qed.

(** C1 (the code departs from the claim): with [factor = 2], centres 0, 1,
    2, 3 on both axes, the observation point at (3, 3) and a fine distance
    of 1/2, the window is the single cell (1, 1).  No block origin lies in
    the window, so all four blocks are evaluated, among them the block
    with origin (0, 0) that contains cell (1, 1): that fine prism is
    counted in the window and again in a coarse block.  With a kernel
    that returns the number of cells a prism covers the run returns 17 for
    a grid of 16 cells. *)
Theorem C1_fine_prism_counted_twice :
  let centres := [of_Z 0; of_Z 1; of_Z 2; of_Z 3] in
  let bottom := replicate 4 (replicate 4 (Num (of_Z 0))) in
  let ones := replicate 4 (replicate 4 (Num (of_Z 1))) in
  let footprint : @forward_kernel Z :=
    fun _ _ _ west east south north _ _ _ =>
      Qfloor ((east - west) * (north - south))%Qc in
  near_window (of_Z 3) (of_Z 3) centres centres half 2 = Ok (1, 2, 1, 2)%Z
  ∧ kernel_calls (of_Z 3) (of_Z 3) (of_Z 0) centres centres bottom ones ones
      half 2
    = Ok (map (fine_prism (of_Z 3) (of_Z 3) (of_Z 0) centres centres
                 bottom ones ones) [(1, 1)%Z]
          ++ map (coarse_prism (of_Z 3) (of_Z 3) (of_Z 0) centres centres
                    bottom ones ones 2)
                 [(0, 0); (0, 2); (2, 0); (2, 2)]%Z)
  ∧ in_window (1, 2, 1, 2)%Z 1 1 = true
  ∧ in_block 2 0 0 1 1 = true
  ∧ _gravity_coarser 0%Z Z.add footprint (of_Z 3) (of_Z 3) (of_Z 0)
      centres centres bottom ones ones half 2 = Ok 17%Z
  ∧ (size centres * size centres = 16)%Z.
Proof.
  intros centres bottom ones footprint.
  assert (near_window (of_Z 3) (of_Z 3) centres centres half 2
          = Ok (1, 2, 1, 2)%Z) as Hbox by (by vm_compute).
  split; [done|]. split.
  { rewrite (kernel_calls_spec _ _ _ _ _ _ _ _ _ _ (1, 2, 1, 2)%Z);
      [|repeat split; reflexivity|lia|done].
    do 2 f_equal; by vm_compute. }
  split; [done|]. split; [done|]. split; [by vm_compute|done].
Qed.

End CoarseningClaims.

(** ** Part IV: further properties of the embedded code *)

Section LegendreEntries.
Import Numpy Legendre LegendreSpec LegendreFacts.
Local Open Scope R_scope.

(** Every entry on or below the diagonal holds the recursion's value. *)
Lemma legendre_table_entry cf x max_degree :
  ∃ p, legendre_table cf x max_degree = Ok p
       ∧ ∀ n m, (n ≤ max_degree)%nat → (m ≤ n)%nat →
           getitem p n m = Ok (legendre_value cf x (np_sqrt (1 - x ^ 2)) n m).
Proof.
  destruct (legendre_table_spec cf x max_degree) as (p & Hp & Hst).
  apply table_state_final in Hst as (_ & Hget & _).
  exists p. split; [done|]. intros n m Hn Hm.
  rewrite Hget by lia. by rewrite decide_True.
Qed.

(** X1 (assoc_legendre, assoc_legendre_schmidt, assoc_legendre_full).
    Raising [max_degree] only appends rows and columns: the tables for two
    bounds agree wherever both are defined. *)
Theorem X1_table_extends_with_max_degree (cf : coefficients) (x : R)
    (small large : nat) :
  (small ≤ large)%nat →
  ∃ p q, legendre_table cf x small = Ok p
         ∧ legendre_table cf x large = Ok q
         ∧ ∀ n m, (n ≤ small)%nat → (m ≤ small)%nat →
                  getitem p n m = getitem q n m.
Proof.
  intros Hle.
  destruct (legendre_table_spec cf x small) as (p & Hp & Hsp).
  destruct (legendre_table_spec cf x large) as (q & Hq & Hsq).
  apply table_state_final in Hsp as (_ & Hgp & _).
  apply table_state_final in Hsq as (_ & Hgq & _).
  exists p, q. split; [done|]. split; [done|].
  intros n m Hn Hm. by rewrite Hgp, Hgq by lia.
Qed.

Lemma X1_table_extends_with_max_degree_witness :
  ∃ p q, legendre_table schmidt (1 / 2) 2 = Ok p
         ∧ legendre_table schmidt (1 / 2) 5 = Ok q
         ∧ ∀ n m, (n ≤ 2)%nat → (m ≤ 2)%nat → getitem p n m = getitem q n m.
Proof. apply (X1_table_extends_with_max_degree schmidt (1 / 2) 2 5). lia. Defined.

(** X2 (assoc_legendre, assoc_legendre_schmidt, assoc_legendre_full).
    The returned table satisfies the recursion between its own entries. *)
Theorem X2_table_satisfies_recursion (cf : coefficients) (x : R)
    (max_degree : nat) :
  ∃ p, legendre_table cf x max_degree = Ok p
    ∧ getitem p 0 0 = Ok (p_00 cf)
    ∧ ∀ n, (1 ≤ n ≤ max_degree)%nat →
        ∃ diagonal,
          getitem p (n - 1) (n - 1) = Ok diagonal
          ∧ getitem p n n
            = Ok (fmul (fmul (d_nm cf n) (np_sqrt (1 - x ^ 2))) diagonal)
          ∧ getitem p n (n - 1)
            = Ok (fmul (fmul (c_nm cf n) (Num x)) diagonal)
          ∧ ∀ m, (m + 2 ≤ n)%nat →
              ∃ p1 p2,
                getitem p (n - 1) m = Ok p1 ∧ getitem p (n - 2) m = Ok p2
                ∧ getitem p n m
                  = Ok (fadd (fmul (fmul (a_nm cf n m) (Num x)) p1)
                             (fmul (b_nm cf n m) p2)).
Proof.
  destruct (legendre_table_entry cf x max_degree) as (p & Hp & Hget).
  exists p. split; [done|]. split; [by rewrite Hget by lia|].
  intros n Hn. destruct n as [|n1]; [lia|].
  replace (S n1 - 1)%nat with n1 by lia.
  eexists. split; [by rewrite Hget by lia|].
  split; [by rewrite Hget, value_diagonal by lia|].
  split; [by rewrite Hget, value_sectoral by lia|].
  intros m Hm. destruct n1 as [|n2]; [lia|].
  replace (S (S n2) - 1)%nat with (S n2) by lia.
  replace (S (S n2) - 2)%nat with n2 by lia.
  do 2 eexists. split; [by rewrite Hget by lia|].
  split; [by rewrite Hget by lia|].
  by rewrite Hget, value_off_diagonal by lia.
Qed.

End LegendreEntries.
Section LegendreCoefficients.
Import Numpy Legendre LegendreSpec LegendreFacts.
Local Open Scope R_scope.

Lemma np_sqrt_nonneg r : 0 <= r → np_sqrt r = Num (sqrt r).
Proof. intros H. unfold np_sqrt. by destruct (Rle_dec 0 r). Qed.

Lemma np_sqrt_negative r : r < 0 → np_sqrt r = NaN.
Proof. intros H. unfold np_sqrt. destruct (Rle_dec 0 r); [lra|done]. Qed.

Lemma isnan_np_sqrt r : 0 <= r → isnan (np_sqrt r) = false.
Proof. intros H. by rewrite np_sqrt_nonneg. Qed.

Lemma div_nonneg a b : 0 <= a → 0 < b → 0 <= a / b.
Proof. intros Ha Hb. by apply Rle_mult_inv_pos. Qed.

Lemma of_int_gap n m : (m + 2 ≤ n)%nat → of_int m + 2 <= of_int n.
Proof.
  intros H. unfold of_int. apply le_INR in H.
  rewrite plus_INR in H. simpl in H. lra.
Qed.

Lemma of_int_nonneg n : 0 <= of_int n.
Proof. apply pos_INR. Qed.

Lemma of_int_ge_1 n : (1 ≤ n)%nat → 1 <= of_int n.
Proof. intros H. unfold of_int. apply le_INR in H. simpl in H. lra. Qed.

Lemma unnormalized_finite : coefficients_finite unnormalized.
Proof. repeat split. Qed.

Lemma schmidt_finite : coefficients_finite schmidt.
Proof.
  split; [done|]. split.
  - intros n Hn. pose proof (of_int_ge_1 n Hn). cbn [schmidt c_nm d_nm].
    split; [apply isnan_np_sqrt; lra|].
    case_decide; [done|]. apply isnan_np_sqrt.
    assert (1 / (2 * of_int n) <= 1); [|lra].
    unfold Rdiv. rewrite Rmult_1_l, <- Rinv_1 at 1.
    apply Rinv_le_contravar; lra.
  - intros n m Hnm. pose proof (of_int_gap n m Hnm).
    pose proof (of_int_nonneg m). cbn [schmidt a_nm b_nm]. split.
    + rewrite np_sqrt_nonneg; [done|]. apply Rmult_le_pos; lra.
    + rewrite np_sqrt_nonneg; [done|].
      apply div_nonneg; [apply Rmult_le_pos; lra|].
      apply Rmult_lt_0_compat; lra.
Qed.

Lemma full_finite : coefficients_finite full.
Proof.
  split; [apply isnan_np_sqrt; lra|]. split.
  - intros n Hn. pose proof (of_int_ge_1 n Hn). cbn [full c_nm d_nm].
    split; apply isnan_np_sqrt; [lra|].
    assert (0 < 1 / (2 * of_int n)); [|lra].
    apply Rdiv_lt_0_compat; lra.
  - intros n m Hnm. pose proof (of_int_gap n m Hnm).
    pose proof (of_int_nonneg m). cbn [full a_nm b_nm]. split.
    + apply isnan_np_sqrt. apply div_nonneg.
      * apply Rmult_le_pos; lra.
      * apply Rmult_lt_0_compat; lra.
    + rewrite np_sqrt_nonneg; [done|]. apply div_nonneg.
      * repeat apply Rmult_le_pos; lra.
      * repeat apply Rmult_lt_0_compat; lra.
Qed.

Lemma constructors_finite cf : cf ∈ constructors → coefficients_finite cf.
Proof.
  unfold constructors. rewrite !elem_of_cons, elem_of_nil.
  intros [->|[->|[->|[]]]];
    [apply unnormalized_finite|apply schmidt_finite|apply full_finite].
Qed.

Lemma isnan_lift2 (op : R → R → R) (a b : float) :
  isnan (lift2 op a b) = isnan a || isnan b.
Proof. by destruct a, b. Qed.

Variables (cf : coefficients) (x : R) (sqrt_x : float).
Hypothesis Hcf : coefficients_finite cf.

(** With a number for [sqrt_x] the whole lower triangle holds numbers. *)
Lemma value_finite n m :
  isnan sqrt_x = false → (m ≤ n)%nat →
  isnan (legendre_value cf x sqrt_x n m) = false.
Proof using Hcf.
  intros Hs. destruct Hcf as (H0 & Hcd & Hab).
  revert m. induction (lt_wf n) as [n _ IH]. intros m Hm.
  destruct n as [|n1].
  { by assert (m = 0%nat) as -> by lia. }
  destruct (decide (m = S n1)) as [->|Hd].
  { rewrite value_diagonal. unfold fmul. rewrite !isnan_lift2, Hs.
    destruct (Hcd (S n1)) as [_ ->]; [lia|]. by rewrite (IH n1) by lia. }
  destruct (decide (m = n1)) as [->|Hsec].
  { rewrite value_sectoral. unfold fmul. rewrite !isnan_lift2.
    destruct (Hcd (S n1)) as [-> _]; [lia|]. by rewrite (IH n1) by lia. }
  destruct n1 as [|n2]; [lia|].
  rewrite value_off_diagonal by lia. unfold fadd, fmul.
  rewrite !isnan_lift2.
  destruct (Hab (S (S n2)) m) as [-> ->]; [lia|].
  by rewrite (IH (S n2)), (IH n2) by lia.
Qed.

(** With not-a-number for [sqrt_x] every entry of order [m >= 1] is
    not-a-number. *)
Lemma value_nan n m :
  sqrt_x = NaN → (1 ≤ m ≤ n)%nat → legendre_value cf x sqrt_x n m = NaN.
Proof using Type.
  intros ->. revert m. induction (lt_wf n) as [n _ IH]. intros m Hm.
  destruct n as [|n1]; [lia|].
  destruct (decide (m = S n1)) as [->|Hd].
  { rewrite value_diagonal. unfold fmul. by destruct (d_nm cf (S n1)). }
  destruct (decide (m = n1)) as [->|Hsec].
  { rewrite value_sectoral, (IH n1) by lia. unfold fmul.
    by destruct (lift2 Rmult (c_nm cf (S n1)) (Num x)). }
  destruct n1 as [|n2]; [lia|].
  rewrite value_off_diagonal, (IH (S n2)) by lia. unfold fadd, fmul.
  by destruct (lift2 Rmult (a_nm cf (S (S n2)) m) (Num x)).
Qed.

End LegendreCoefficients.

Section LegendreDomain.
Import Numpy Legendre LegendreSpec LegendreFacts.
Local Open Scope R_scope.

(** X4 (assoc_legendre, assoc_legendre_schmidt, assoc_legendre_full).
    For an argument outside [-1, 1] no constructor raises, and every entry
    of order [1 <= m <= n] of the table is not-a-number: the square root of
    [1 - x^2] is not-a-number and enters every entry off column 0. *)
Theorem X4_outside_domain_orders_are_nan (cf : coefficients) (x : R)
    (max_degree : nat) :
  cf ∈ constructors → (x < -1 ∨ 1 < x) →
  ∃ p, legendre_table cf x max_degree = Ok p
       ∧ ∀ n m, (n ≤ max_degree)%nat → (1 ≤ m ≤ n)%nat →
           getitem p n m = Ok NaN.
Proof.
  intros _ Hx.
  destruct (legendre_table_entry cf x max_degree) as (p & Hp & Hget).
  exists p. split; [done|]. intros n m Hn Hm. rewrite Hget by lia. f_equal.
  apply value_nan; [|done]. apply np_sqrt_negative. nra.
Qed.

Lemma X4_outside_domain_orders_are_nan_witness :
  ∃ p, legendre_table unnormalized 2 2 = Ok p
       ∧ ∀ n m, (n ≤ 2)%nat → (1 ≤ m ≤ n)%nat → getitem p n m = Ok NaN.
Proof.
  apply (X4_outside_domain_orders_are_nan unnormalized 2 2);
    [apply list_elem_of_In; simpl; tauto|lra].
Defined.

End LegendreDomain.
Section LegendreParity.
Import Numpy Legendre LegendreSpec LegendreFacts.
Local Open Scope R_scope.

Lemma sign_S k : sign (S k) = - sign k.
Proof. unfold sign. simpl. ring. Qed.

Lemma sign_double k : sign (k + k) = 1.
Proof.
  unfold sign. induction k as [|k IH]; simpl; [done|].
  replace (k + S k)%nat with (S (k + k)) by lia. simpl. rewrite IH. ring.
Qed.

Ltac float_ring :=
  unfold fmul, fadd, lift2;
  repeat match goal with
         | |- context [match ?v with NaN => _ | Num _ => _ end] =>
             is_var v; destruct v
         end;
  try done; f_equal; ring.

Lemma value_parity (cf : coefficients) (x : R) (sqrt_x : float) n m :
  (m ≤ n)%nat →
  legendre_value cf (- x) sqrt_x n m =
  fmul (Num (sign (n + m))) (legendre_value cf x sqrt_x n m).
Proof.
  revert m. induction (lt_wf n) as [n _ IH]. intros m Hm.
  destruct n as [|n1].
  { assert (m = 0%nat) as -> by lia. cbn [legendre_value]. simpl.
    unfold sign. simpl. generalize (p_00 cf). intros v. float_ring. }
  destruct (decide (m = S n1)) as [->|Hd].
  { rewrite !value_diagonal, (IH n1) by lia.
    rewrite sign_double, (sign_double (S n1)).
    generalize (legendre_value cf x sqrt_x n1 n1) (d_nm cf (S n1)).
    intros v d. destruct sqrt_x; float_ring. }
  destruct (decide (m = n1)) as [->|Hsec].
  { rewrite !value_sectoral, (IH n1) by lia.
    replace (S n1 + n1)%nat with (S (n1 + n1)) by lia.
    rewrite sign_S, sign_double.
    generalize (legendre_value cf x sqrt_x n1 n1) (c_nm cf (S n1)).
    intros v c. float_ring. }
  destruct n1 as [|n2]; [lia|].
  rewrite !value_off_diagonal, (IH (S n2)), (IH n2) by lia.
  replace (S (S n2) + m)%nat with (S (S (n2 + m))) by lia.
  replace (S n2 + m)%nat with (S (n2 + m)) by lia.
  rewrite !sign_S.
  generalize (legendre_value cf x sqrt_x (S n2) m)
    (legendre_value cf x sqrt_x n2 m) (a_nm cf (S (S n2)) m)
    (b_nm cf (S (S n2)) m) (sign (n2 + m)).
  intros v1 v2 a b s. float_ring.
Qed.

(** X5 (assoc_legendre, assoc_legendre_schmidt, assoc_legendre_full).
    Parity: for every constructor, negating the argument multiplies the
    entry of degree [n] and order [m] by [(-1)^(n + m)]. *)
Theorem X5_parity_in_the_argument (x : R) (max_degree : nat) :
  Forall (fun cf =>
            ∃ p q, legendre_table cf x max_degree = Ok p
                   ∧ legendre_table cf (- x) max_degree = Ok q
                   ∧ ∀ n m, (n ≤ max_degree)%nat → (m ≤ n)%nat →
                       ∃ v, getitem p n m = Ok v
                            ∧ getitem q n m
                              = Ok (fmul (Num (sign (n + m))) v))
         constructors.
Proof.
  apply Forall_forall. intros cf _.
  destruct (legendre_table_entry cf x max_degree) as (p & Hp & Hgp).
  destruct (legendre_table_entry cf (- x) max_degree) as (q & Hq & Hgq).
  exists p, q. split; [done|]. split; [done|]. intros n m Hn Hm.
  eexists. split; [by apply Hgp|]. rewrite Hgq by done.
  replace ((- x) ^ 2) with (x ^ 2) by ring.
  by rewrite value_parity.
Qed.

End LegendreParity.

Section LegendreLowDegrees.
Import Numpy Legendre LegendreSpec LegendreFacts.
Local Open Scope R_scope.

(** X6 (assoc_legendre).  The unnormalized functions of degree 1 and 2 in
    closed form (without the Condon-Shortley phase): [P10 = x], [P11 = sqrt(1 - x^2)],
    [P20 = (3 x^2 - 1) / 2], [P21 = 3 x sqrt(1 - x^2)],
    [P22 = 3 (1 - x^2)]. *)
Theorem X6_unnormalized_low_degrees (x : R) (max_degree : nat) :
  -1 <= x <= 1 → (2 ≤ max_degree)%nat →
  ∃ p, assoc_legendre x max_degree = Ok p
       ∧ getitem p 0 0 = Ok (Num 1)
       ∧ getitem p 1 0 = Ok (Num x)
       ∧ getitem p 1 1 = Ok (Num (sqrt (1 - x ^ 2)))
       ∧ getitem p 2 0 = Ok (Num ((3 * x ^ 2 - 1) / 2))
       ∧ getitem p 2 1 = Ok (Num (3 * x * sqrt (1 - x ^ 2)))
       ∧ getitem p 2 2 = Ok (Num (3 * (1 - x ^ 2))).
Proof.
  intros Hx Hmax.
  destruct (legendre_table_entry unnormalized x max_degree) as (p & Hp & Hget).
  exists p. split; [done|].
  assert (0 <= 1 - x ^ 2) as Hpos by nra.
  rewrite (np_sqrt_nonneg _ Hpos) in Hget.
  pose proof (sqrt_sqrt _ Hpos) as Hsq.
  set (s := sqrt (1 - x ^ 2)) in *.
  rewrite !Hget by lia. clear Hget.
  assert (legendre_value unnormalized x (Num s) 0 0 = Num 1) as V00 by done.
  assert (legendre_value unnormalized x (Num s) 1 0 = Num x) as V10.
  { rewrite value_sectoral, V00. cbn [unnormalized c_nm fmul lift2].
    f_equal. unfold of_int. simpl. ring. }
  assert (legendre_value unnormalized x (Num s) 1 1 = Num s) as V11.
  { rewrite value_diagonal, V00. cbn [unnormalized d_nm fmul lift2].
    f_equal. unfold of_int. simpl. ring. }
  assert (legendre_value unnormalized x (Num s) 2 0
          = Num ((3 * x ^ 2 - 1) / 2)) as V20.
  { rewrite value_off_diagonal, V10, V00 by lia.
    cbn [unnormalized a_nm b_nm fmul fadd lift2].
    f_equal. unfold of_int. simpl. field. }
  assert (legendre_value unnormalized x (Num s) 2 1 = Num (3 * x * s)) as V21.
  { rewrite value_sectoral, V11. cbn [unnormalized c_nm fmul lift2].
    f_equal. unfold of_int. simpl. ring. }
  assert (legendre_value unnormalized x (Num s) 2 2
          = Num (3 * (1 - x ^ 2))) as V22.
  { rewrite value_diagonal, V11. cbn [unnormalized d_nm fmul lift2].
    f_equal. unfold of_int. simpl (INR 2). rewrite <- Hsq. ring. }
  by rewrite V00, V10, V11, V20, V21, V22.
Qed.

Lemma X6_unnormalized_low_degrees_witness :
  ∃ p, assoc_legendre (1 / 2) 4 = Ok p
       ∧ getitem p 0 0 = Ok (Num 1)
       ∧ getitem p 1 0 = Ok (Num (1 / 2))
       ∧ getitem p 1 1 = Ok (Num (sqrt (1 - (1 / 2) ^ 2)))
       ∧ getitem p 2 0 = Ok (Num ((3 * (1 / 2) ^ 2 - 1) / 2))
       ∧ getitem p 2 1 = Ok (Num (3 * (1 / 2) * sqrt (1 - (1 / 2) ^ 2)))
       ∧ getitem p 2 2 = Ok (Num (3 * (1 - (1 / 2) ^ 2))).
Proof. apply (X6_unnormalized_low_degrees (1 / 2) 4); [lra|lia]. Defined.

End LegendreLowDegrees.
Section LegendrePoles.
Import Numpy Legendre LegendreSpec LegendreFacts.
Local Open Scope R_scope.

Lemma value_zero_at_pole cf x n m :
  coefficients_finite cf → (1 ≤ m ≤ n)%nat →
  legendre_value cf x (Num 0) n m = Num 0.
Proof.
  intros (H0 & Hcd & Hab). revert m.
  induction (lt_wf n) as [n _ IH]. intros m Hm.
  destruct n as [|n1]; [lia|].
  destruct (decide (m = S n1)) as [->|Hd].
  { rewrite value_diagonal. destruct (Hcd (S n1)) as [_ Hdn]; [lia|].
    pose proof (value_finite cf x (Num 0) (conj H0 (conj Hcd Hab)) n1 n1
                  eq_refl ltac:(lia)) as Hv.
    destruct (d_nm cf (S n1)); [done|].
    destruct (legendre_value cf x (Num 0) n1 n1); [done|].
    cbn. f_equal. ring. }
  destruct (decide (m = n1)) as [->|Hsec].
  { rewrite value_sectoral, (IH n1) by lia.
    destruct (Hcd (S n1)) as [Hcn _]; [lia|].
    destruct (c_nm cf (S n1)); [done|]. cbn. f_equal. ring. }
  destruct n1 as [|n2]; [lia|].
  rewrite value_off_diagonal, (IH (S n2)), (IH n2) by lia.
  destruct (Hab (S (S n2)) m) as [Ha Hb]; [lia|].
  destruct (a_nm cf (S (S n2)) m); [done|].
  destruct (b_nm cf (S (S n2)) m); [done|]. cbn. f_equal. ring.
Qed.

(** X7 (assoc_legendre, assoc_legendre_schmidt, assoc_legendre_full).
    On the polar axis, [x = 1] or [x = -1], every entry of order
    [1 <= m <= n] is zero, for each of the three constructors. *)
Theorem X7_orders_vanish_at_the_poles (cf : coefficients) (x : R)
    (max_degree : nat) :
  cf ∈ constructors → (x = 1 ∨ x = -1) →
  ∃ p, legendre_table cf x max_degree = Ok p
       ∧ ∀ n m, (n ≤ max_degree)%nat → (1 ≤ m ≤ n)%nat →
           getitem p n m = Ok (Num 0).
Proof.
  intros Hcf%constructors_finite Hx.
  destruct (legendre_table_entry cf x max_degree) as (p & Hp & Hget).
  exists p. split; [done|]. intros n m Hn Hm. rewrite Hget by lia.
  assert (np_sqrt (1 - x ^ 2) = Num 0) as ->.
  { replace (1 - x ^ 2) with 0 by (destruct Hx as [->| ->]; ring).
    rewrite np_sqrt_nonneg by lra. by rewrite sqrt_0. }
  by rewrite value_zero_at_pole.
Qed.

Lemma X7_orders_vanish_at_the_poles_witness :
  ∃ p, legendre_table schmidt (-1) 3 = Ok p
       ∧ ∀ n m, (n ≤ 3)%nat → (1 ≤ m ≤ n)%nat → getitem p n m = Ok (Num 0).
Proof.
  apply (X7_orders_vanish_at_the_poles schmidt (-1) 3);
    [apply list_elem_of_In; simpl; tauto|by right].
Defined.

End LegendrePoles.
Section PointMassKernels.
Import Numpy PointMass PointMassSpec.
Local Open Scope R_scope.

(** X8 (the kernels of point_mass.py).
    The distance does not depend on which point is the observation point
    and which the source: both potential kernels are symmetric under the
    exchange, and the downward-acceleration kernel changes sign (at zero
    distance the kernels raise the same [ZeroDivisionError] in both
    orders). *)
Theorem X8_kernels_under_exchange :
  (∀ a b, _distance_cartesian_sq a b = _distance_cartesian_sq b a)
  ∧ (∀ a b, _distance_cartesian a b = _distance_cartesian b a)
  ∧ (∀ e n d e_p n_p d_p,
       kernel_potential_cartesian e n d e_p n_p d_p
       = kernel_potential_cartesian e_p n_p d_p e n d)
  ∧ (∀ e n d e_p n_p d_p,
       kernel_g_z e n d e_p n_p d_p
       = (v ← kernel_g_z e_p n_p d_p e n d; Ok (- v)))
  ∧ (∀ lon c s r lon_p c_p s_p r_p,
       kernel_potential_spherical lon c s r lon_p c_p s_p r_p
       = kernel_potential_spherical lon_p c_p s_p r_p lon c s r).
Proof.
  assert (∀ a b, _distance_cartesian_sq a b = _distance_cartesian_sq b a)
    as Hsq.
  { intros [[e n] d] [[e_p n_p] d_p]. unfold _distance_cartesian_sq. ring. }
  split; [done|]. split.
  { intros a b. unfold _distance_cartesian. by rewrite Hsq. }
  split.
  { intros. unfold kernel_potential_cartesian, _distance_cartesian.
    by rewrite Hsq. }
  split.
  { intros. unfold kernel_g_z. cbv zeta.
    rewrite (Hsq (e_p, n_p, d_p) (e, n, d)). unfold truediv.
    destruct (Req_EM_T _ 0); simpl; [done|].
    f_equal. unfold Rdiv. ring. }
  intros. unfold kernel_potential_spherical. cbv zeta.
  replace (lon - lon_p) with (- (lon_p - lon)) by ring.
  rewrite cos_neg. do 2 f_equal. ring.
Qed.

End PointMassKernels.
Section PointMassSums.
Import Numpy PointMass PointMassSpec.
Local Open Scope R_scope.
Local Open Scope string_scope.
Local Open Scope list_scope.

Lemma columns_app (a b : list point) :
  columns (a ++ b)
  = ((columns a).1.1 ++ (columns b).1.1, (columns a).1.2 ++ (columns b).1.2,
     (columns a).2 ++ (columns b).2).
Proof. unfold columns. cbn [fst snd]. by rewrite !map_app. Qed.









(** X11 (point_mass_gravity).
    Without sources the result is an array of zeros, one per observation
    point. *)
Theorem X11_no_sources_gives_zeros (G : R) (obs : list point)
    (field cs : string) :
  valid_combination cs field = true →
  point_mass_gravity G (columns obs) (columns []) [] field cs
  = Ok (replicate (length obs) 0).
Proof.
  intros [k Hk]%valid_combination_pair_kernel.
  rewrite (point_mass_gravity_valid G obs [] [] field cs k);
    [|done..|apply Forall_forall; by constructor].
  f_equal. transitivity (map (fun _ : point => 0) obs).
  - apply map_ext. intros o. unfold pairwise_sum. simpl.
    destruct (acceleration_field field); ring.
  - induction obs as [|o obs IH]; simpl; [done|]. by rewrite IH.
Qed.

Lemma X11_no_sources_gives_zeros_witness :
  point_mass_gravity gravitational_const_sample
    (columns [(0, 0, 0); (5, 5, 5)]) (columns []) [] "potential" "spherical"
  = Ok (replicate (length [(0, 0, 0); (5, 5, 5)]) 0).
Proof.
  apply (X11_no_sources_gives_zeros gravitational_const_sample
           [(0, 0, 0); (5, 5, 5)] "potential" "spherical"). reflexivity.
Defined.

Lemma Rpower_square_three_halves h : 0 < h → Rpower (h ^ 2) (3 / 2) = h ^ 3.
Proof.
  intros Hh. rewrite <- (Rpower_pow 2 h Hh), Rpower_mult.
  replace (INR 2 * (3 / 2)) with (INR 3) by (simpl; field).
  by apply Rpower_pow.
Qed.

Lemma power_square_three_halves h : 0 < h → power (h ^ 2) (3 / 2) = h ^ 3.
Proof.
  intros Hh. assert (0 < h ^ 2) as H2 by nra.
  destruct (power_positive (h ^ 2) (3 / 2) H2) as [-> _].
  by apply Rpower_square_three_halves.
Qed.

Lemma kernel_potential_below e n d h :
  0 < h → kernel_potential_cartesian e n d e n (d + h) = Ok (1 / h).
Proof.
  intros Hh. unfold kernel_potential_cartesian, _distance_cartesian,
    _distance_cartesian_sq.
  replace ((e - e) ^ 2 + (n - n) ^ 2 + (d - (d + h)) ^ 2) with (h ^ 2) by ring.
  rewrite sqrt_pow2 by lra. apply truediv_nonzero. lra.
Qed.

Lemma kernel_g_z_below e n d h :
  0 < h → kernel_g_z e n d e n (d + h) = Ok (1 / h ^ 2).
Proof.
  intros Hh. unfold kernel_g_z, _distance_cartesian_sq.
  replace ((e - e) ^ 2 + (n - n) ^ 2 + (d - (d + h)) ^ 2) with (h ^ 2) by ring.
  rewrite power_square_three_halves by done.
  assert (h ^ 3 ≠ 0) as H3 by (apply pow_nonzero; lra).
  rewrite truediv_nonzero by done. f_equal. field. lra.
Qed.

Lemma kernel_g_z_above e n d h :
  0 < h → kernel_g_z e n d e n (d - h) = Ok (- (1 / h ^ 2)).
Proof.
  intros Hh. unfold kernel_g_z, _distance_cartesian_sq.
  replace ((e - e) ^ 2 + (n - n) ^ 2 + (d - (d - h)) ^ 2) with (h ^ 2) by ring.
  rewrite power_square_three_halves by done.
  assert (h ^ 3 ≠ 0) as H3 by (apply pow_nonzero; lra).
  rewrite truediv_nonzero by done. f_equal. field. lra.
Qed.

Lemma apart_vertical e n d d' :
  d ≠ d' → apart "cartesian" [(e, n, d)] [(e, n, d')].
Proof.
  intros Hd. repeat constructor. rewrite distance_sq_cartesian.
  unfold _distance_cartesian_sq. assert (d - d' ≠ 0) by lra. nra.
Qed.

Lemma pairwise_sum_single k s m o : pairwise_sum k [s] [m] o = 0 + m * k o s.
Proof. done. Qed.

(** X12 (point_mass_gravity, kernel_potential_cartesian, kernel_g_z).
    The inverse-square law in Cartesian coordinates: a single mass [m] at a
    distance [h > 0] straight below the observation point gives the
    potential [G m / h] and the downward acceleration [G m / h^2] in mGal
    (positive: [down] grows downwards); the same mass straight above gives
    the opposite acceleration. *)
Theorem X12_single_mass_on_the_vertical (G m e n d h : R) :
  0 < h →
  point_mass_gravity G (columns [(e, n, d)]) (columns [(e, n, d + h)]) [m]
    "potential" "cartesian" = Ok [m / h * G]
  ∧ point_mass_gravity G (columns [(e, n, d)]) (columns [(e, n, d + h)]) [m]
      "g_z" "cartesian" = Ok [m / h ^ 2 * G * 100000]
  ∧ point_mass_gravity G (columns [(e, n, d)]) (columns [(e, n, d - h)]) [m]
      "g_z" "cartesian" = Ok [- (m / h ^ 2) * G * 100000].
Proof.
  intros Hh. split; [|split].
  - rewrite (point_mass_gravity_valid G _ _ _ "potential" "cartesian"
               (cartesian_pair kernel_potential_cartesian));
      [|done..|apply apart_vertical; lra].
    cbn [map]. cbv zeta. rewrite pairwise_sum_single.
    change (acceleration_field "potential") with false. cbv iota.
    unfold pair_value, cartesian_pair. cbn [fst snd].
    rewrite kernel_potential_below by done. unfold returned, Ok.
    do 2 f_equal. field. lra.
  - rewrite (point_mass_gravity_valid G _ _ _ "g_z" "cartesian"
               (cartesian_pair kernel_g_z));
      [|done..|apply apart_vertical; lra].
    cbn [map]. cbv zeta. rewrite pairwise_sum_single.
    change (acceleration_field "g_z") with true. cbv iota.
    unfold pair_value, cartesian_pair. cbn [fst snd].
    rewrite kernel_g_z_below by done. unfold returned, Ok.
    do 2 f_equal. field. lra.
  - rewrite (point_mass_gravity_valid G _ _ _ "g_z" "cartesian"
               (cartesian_pair kernel_g_z));
      [|done..|apply apart_vertical; lra].
    cbn [map]. cbv zeta. rewrite pairwise_sum_single.
    change (acceleration_field "g_z") with true. cbv iota.
    unfold pair_value, cartesian_pair. cbn [fst snd].
    rewrite kernel_g_z_above by done. unfold returned, Ok.
    do 2 f_equal. field. lra.
Qed.

Lemma X12_single_mass_on_the_vertical_witness :
  point_mass_gravity gravitational_const_sample
    (columns [(0, 0, 0)]) (columns [(0, 0, 0 + 10)]) [1000]
    "potential" "cartesian" = Ok [1000 / 10 * gravitational_const_sample]
  ∧ point_mass_gravity gravitational_const_sample
      (columns [(0, 0, 0)]) (columns [(0, 0, 0 + 10)]) [1000]
      "g_z" "cartesian"
    = Ok [1000 / 10 ^ 2 * gravitational_const_sample * 100000]
  ∧ point_mass_gravity gravitational_const_sample
      (columns [(0, 0, 0)]) (columns [(0, 0, 0 - 10)]) [1000]
      "g_z" "cartesian"
    = Ok [- (1000 / 10 ^ 2) * gravitational_const_sample * 100000].
Proof.
  apply (X12_single_mass_on_the_vertical gravitational_const_sample
           1000 0 0 0 10). lra.
Defined.

End PointMassSums.
Section PointMassShapes.
Import Numpy NumpySpec PointMass PointMassSpec PointMassFacts.
Local Open Scope R_scope.
Local Open Scope string_scope.
Local Open Scope list_scope.



Lemma index_app_l {A} (a b : list A) m :
  (m < length a)%nat → index (a ++ b) m = index a m.
Proof. intros H. unfold index. by rewrite lookup_app_l. Qed.

(** The loops read the source arrays and the masses below the size of the
    first source array only. *)
Lemma dispatch_surplus cs dispatch c0 c1 c2 (sources : list point)
    (xn xd masses xm out : array) kernel :
  dict_get dispatchers cs = Some dispatch →
  length masses = length sources →
  dispatch c0 c1 c2
    (map (fun p : point => p.1.1) sources)
    (map (fun p : point => p.1.2) sources ++ xn)
    (map (fun p : point => p.2) sources ++ xd)
    (masses ++ xm) out kernel
  = dispatch c0 c1 c2
      (map (fun p : point => p.1.1) sources)
      (map (fun p : point => p.1.2) sources)
      (map (fun p : point => p.2) sources)
      masses out kernel.
Proof.
  intros Hd Hlen. revert Hd. unfold dispatchers, dict_get.
  destruct (String.eqb cs "cartesian"); [intros [= <-]|].
  { unfold jit_point_mass_cartesian. rewrite !length_map.
    apply for_each_ext. intros l out' _.
    apply for_each_ext. intros m out'' Hm%elem_of_range.
    by rewrite !index_app_l by (rewrite ?length_map; lia). }
  destruct (String.eqb cs "spherical"); [intros [= <-]|done].
  unfold jit_point_mass_spherical, radians. cbv zeta. rewrite !length_map.
  apply for_each_ext. intros l out' _.
  apply for_each_ext. intros m out'' Hm%elem_of_range.
  rewrite !map_app.
  by rewrite !index_app_l by (rewrite ?length_map; lia).
Qed.

(** X14 (point_mass_gravity, jit_point_mass_cartesian,
    jit_point_mass_spherical).  The sizes of the source arrays are never
    compared: the number of point masses is the size of the first array of
    [points].  Entries of the other two source arrays and of [masses] beyond
    that size are never read, so appending values to them leaves the result
    unchanged. *)
Theorem X14_surplus_source_entries_are_ignored
    (G : R) (obs sources : list point) (masses xn xd xm : array)
    (field cs : string) (k : point → point → result R) :
  pair_kernel cs field = Some k → length masses = length sources →
  point_mass_gravity G (columns obs)
    (map (fun p : point => p.1.1) sources,
     map (fun p : point => p.1.2) sources ++ xn,
     map (fun p : point => p.2) sources ++ xd)
    (masses ++ xm) field cs
  = point_mass_gravity G (columns obs) (columns sources) masses field cs.
Proof.
  intros Hk Hlen. unfold columns.
  apply pair_kernel_cases in Hk
    as [(-> & -> & _)|[(-> & -> & _)|[(-> & -> & _)|(-> & -> & _)]]];
    erewrite !point_mass_gravity_dispatch by reflexivity;
    (destruct (broadcast_size _) as [?|n]; [done|]);
    cbn [mbind result_bind Ok];
    first [ by erewrite (dispatch_surplus "cartesian") by (reflexivity || done)
          | by erewrite (dispatch_surplus "spherical") by (reflexivity || done) ].
Qed.

Lemma X14_surplus_source_entries_are_ignored_witness :
  point_mass_gravity 1 (columns [(0, 0, 1)])
    (map (fun p : point => p.1.1) [(0, 0, 0)],
     map (fun p : point => p.1.2) [(0, 0, 0)] ++ [4],
     map (fun p : point => p.2) [(0, 0, 0)] ++ [])
    ([3] ++ [8; 9]) "g_z" "cartesian"
  = point_mass_gravity 1 (columns [(0, 0, 1)]) (columns [(0, 0, 0)]) [3]
      "g_z" "cartesian".
Proof.
  apply (X14_surplus_source_entries_are_ignored 1 [(0, 0, 1)] [(0, 0, 0)]
           [3] [4] [] [8; 9] "g_z" "cartesian" (cartesian_pair kernel_g_z));
    reflexivity.
Defined.

End PointMassShapes.
Section GridCheck.
Import Numpy NumpySpec PrismLayer PrismLayerSpec PrismLayerFunctions
  PrismLayerFacts.
Local Open Scope Z_scope.
Local Open Scope Qc_scope.

Lemma np_abs_nonneg x : 0 ≤ np_abs x.
Proof.
  unfold np_abs. destruct (Qclt_le_dec x 0) as [H|H]; [|done].
  qc_to_q. Lqa.lra.
Qed.

Lemma np_abs_zero : np_abs 0 = 0.
Proof. done. Qed.

Lemma isclose_refl x : isclose x x = true.
Proof.
  unfold isclose. apply bool_decide_eq_true.
  replace (x - x) with 0 by ring. rewrite np_abs_zero.
  pose proof (np_abs_nonneg x) as H.
  assert (0 ≤ rtol * np_abs x) as H1 by (apply Qcmult_nonneg; done).
  assert (0 ≤ atol) as H2 by done.
  qc_to_q. Lqa.lra.
Qed.

Lemma differences_lookup (a : list Qc) k x y :
  a !! k = Some x → a !! S k = Some y → differences a !! k = Some (y - x).
Proof.
  intros Hx Hy. unfold differences.
  rewrite lookup_zip_with, lookup_drop. simpl. rewrite Hy. simpl.
  apply lookup_lt_Some in Hy.
  rewrite lookup_take_lt by lia. by rewrite Hx.
Qed.

Lemma differences_lookup_inv (a : list Qc) k d :
  differences a !! k = Some d →
  ∃ x y, a !! k = Some x ∧ a !! S k = Some y ∧ d = y - x.
Proof.
  unfold differences. rewrite lookup_zip_with, lookup_drop. simpl.
  destruct (a !! S k) as [y|] eqn:Hy; simpl; [|done].
  destruct (take (length a - 1) a !! k) as [x|] eqn:Hx; simpl; [|done].
  intros [= <-]. apply lookup_take_Some in Hx as [Hx _]. by exists x, y.
Qed.

Lemma np_allclose_spec s (b : list Qc) :
  np_allclose s b = true ↔ ∀ k d, b !! k = Some d → isclose s d = true.
Proof.
  unfold np_allclose. rewrite forallb_forall. split.
  - intros H k d Hd. apply H, list_elem_of_In. by eapply list_elem_of_lookup_2.
  - intros H d [k Hd]%list_elem_of_In%list_elem_of_lookup_1. by eapply H.
Qed.

Lemma evenly_spaced_item a first spacing i :
  evenly_spaced a first spacing → (0 ≤ i < size a)%Z →
  item a i = Ok (first + of_Z i * spacing).
Proof.
  intros [_ Hk] Hi. rewrite item_centre by done. unfold centre, size in *.
  rewrite Hk by lia. simpl. by rewrite Z2Nat.id by lia.
Qed.

Lemma evenly_spaced_size a first spacing :
  evenly_spaced a first spacing → (2 ≤ size a)%Z.
Proof. intros [? _]. unfold size. lia. Qed.

Lemma evenly_spaced_first_two a first spacing :
  evenly_spaced a first spacing →
  item a 1 = Ok (first + spacing) ∧ item a 0 = Ok first.
Proof.
  intros H. pose proof (evenly_spaced_size _ _ _ H).
  rewrite !(evenly_spaced_item a first spacing) by (done || lia).
  rewrite of_Z_one, of_Z_zero. split; f_equal; ring.
Qed.

Lemma evenly_spaced_allclose a first spacing :
  evenly_spaced a first spacing →
  np_allclose (first + spacing - first) (differences a) = true.
Proof.
  intros [Hlen Hk]. apply np_allclose_spec. intros k d Hd.
  apply differences_lookup_inv in Hd as (x & y & Hx & Hy & ->).
  pose proof (lookup_lt_Some _ _ _ Hy) as Hlt.
  rewrite Hk in Hx, Hy by lia. injection Hx as <-. injection Hy as <-.
  replace (Z.of_nat (S k)) with (Z.of_nat k + 1)%Z by lia.
  rewrite of_Z_succ.
  replace (first + (of_Z (Z.of_nat k) + 1) * spacing
           - (first + of_Z (Z.of_nat k) * spacing))
    with (first + spacing - first) by ring.
  apply isclose_refl.
Qed.

Lemma regular_evenly_spaced a first spacing :
  regular a first spacing → evenly_spaced a first spacing.
Proof. intros (_ & H1 & H2). by split. Qed.

Lemma check_regular_grid_evenly_spaced e n first_e spacing_e first_n spacing_n :
  evenly_spaced e first_e spacing_e → evenly_spaced n first_n spacing_n →
  _check_regular_grid e n = Ok tt.
Proof.
  intros He Hn. unfold _check_regular_grid.
  destruct (evenly_spaced_first_two _ _ _ He) as [-> ->].
  destruct (evenly_spaced_first_two _ _ _ Hn) as [-> ->].
  cbn [mbind result_bind Ok].
  rewrite (evenly_spaced_allclose _ _ _ He). cbn [negb].
  by rewrite (evenly_spaced_allclose _ _ _ Hn).
Qed.

(** X16 (_check_regular_grid, spacing).  Centres that are evenly spaced pass
    the grid check whatever the sign of the spacing: increasing, decreasing
    and constant centres are all accepted.  On such a layer [spacing]
    returns the two spacings, northing first. *)
Theorem X16_evenly_spaced_centres_pass_the_check
    (self : layer) (first_e spacing_e first_n spacing_n : Qc) :
  evenly_spaced (easting self) first_e spacing_e →
  evenly_spaced (northing self) first_n spacing_n →
  _check_regular_grid (easting self) (northing self) = Ok tt
  ∧ DatasetAccessorPrismLayer.spacing self = Ok (spacing_n, spacing_e).
Proof.
  intros He Hn.
  pose proof (check_regular_grid_evenly_spaced _ _ _ _ _ _ He Hn) as Hcheck.
  split; [done|]. unfold DatasetAccessorPrismLayer.spacing.
  rewrite Hcheck.
  destruct (evenly_spaced_first_two _ _ _ He) as [-> ->].
  destruct (evenly_spaced_first_two _ _ _ Hn) as [-> ->].
  cbn [mbind result_bind Ok]. do 2 f_equal; ring.
Qed.

Lemma X16_evenly_spaced_centres_pass_the_check_witness :
  let self := mk_layer [of_Z 6; of_Z 4; of_Z 2] [of_Z 1; of_Z 1] [] [] in
  _check_regular_grid (easting self) (northing self) = Ok tt
  ∧ DatasetAccessorPrismLayer.spacing self = Ok (of_Z 0, of_Z (-2)).
Proof.
  apply (X16_evenly_spaced_centres_pass_the_check
           (mk_layer [of_Z 6; of_Z 4; of_Z 2] [of_Z 1; of_Z 1] [] [])
           (of_Z 6) (of_Z (-2)) (of_Z 1) (of_Z 0)).
  - split; [simpl; lia|]. intros [|[|[|k]]] Hk; simpl in Hk; try lia;
      simpl; f_equal; by apply Qc_is_canon.
  - split; [simpl; lia|]. intros [|[|k]] Hk; simpl in Hk; try lia;
      simpl; f_equal; by apply Qc_is_canon.
Defined.

End GridCheck.
Section GridCheckInverse.
Import Numpy NumpySpec PrismLayer PrismLayerSpec PrismLayerFunctions
  PrismLayerFacts.
Local Open Scope Z_scope.
Local Open Scope Qc_scope.

Lemma item_Ok_lookup {A} (a : list A) (i : Z) v :
  (0 ≤ i)%Z → item a i = Ok v → a !! Z.to_nat i = Some v.
Proof.
  intros Hi. rewrite item_nonneg by done. unfold index.
  destruct (a !! Z.to_nat i); [by intros [= ->]|done].
Qed.

Lemma item_out_of_bounds {A} (a : list A) (i : Z) :
  (size a ≤ i)%Z → item a i = Raise IndexError.
Proof.
  intros Hi. unfold size in Hi. rewrite item_nonneg by lia. unfold index.
  by rewrite lookup_ge_None_2 by lia.
Qed.

(** What a successful check has established. *)
Lemma check_regular_grid_inv e n :
  _check_regular_grid e n = Ok tt →
  ∃ e0 e1 n0 n1,
    e !! 0%nat = Some e0 ∧ e !! 1%nat = Some e1
    ∧ n !! 0%nat = Some n0 ∧ n !! 1%nat = Some n1
    ∧ np_allclose (e1 - e0) (differences e) = true
    ∧ np_allclose (n1 - n0) (differences n) = true.
Proof.
  unfold _check_regular_grid. intros H.
  destruct (item e 1) as [|e1] eqn:He1; [done|].
  destruct (item e 0) as [|e0] eqn:He0; [done|].
  cbn [mbind result_bind Ok] in H.
  destruct (np_allclose (e1 - e0) (differences e)) eqn:Hce; [|done].
  cbn [negb] in H.
  destruct (item n 1) as [|n1] eqn:Hn1; [done|].
  destruct (item n 0) as [|n0] eqn:Hn0; [done|].
  cbn [mbind result_bind Ok] in H.
  destruct (np_allclose (n1 - n0) (differences n)) eqn:Hcn; [|done].
  apply item_Ok_lookup in He1, He0, Hn1, Hn0; try done.
  by exists e0, e1, n0, n1.
Qed.

Lemma isclose_positive s d : isclose s d = true → atol < s → 0 < d.
Proof.
  unfold isclose, np_abs, atol, rtol. intros H%bool_decide_eq_true Hs.
  destruct (Qclt_le_dec d 0) as [Hd|Hd];
    destruct (Qclt_le_dec (s - d) 0) as [Hsd|Hsd];
    destruct (Qclt_le_dec 0 d) as [Hpos|Hneg]; try done;
    exfalso; qc_to_q; Lqa.lra.
Qed.

Lemma allclose_increasing (a : list Qc) a0 a1 :
  a !! 0%nat = Some a0 → a !! 1%nat = Some a1 →
  np_allclose (a1 - a0) (differences a) = true →
  atol < a1 - a0 → strictly_increasing a.
Proof.
  intros H0 H1 Hclose Hs k x y Hx Hy.
  pose proof (differences_lookup a k x y Hx Hy) as Hd.
  pose proof (proj1 (np_allclose_spec _ _) Hclose k _ Hd) as Hc.
  pose proof (isclose_positive _ _ Hc Hs). qc_to_q. Lqa.lra.
Qed.

(** X17 (_check_regular_grid).  The check compares every difference of
    neighbouring centres with the first one, within the tolerances of
    [np.allclose].  When it passes, there are at least two centres along
    each axis, and an axis whose first spacing exceeds the absolute
    tolerance [1e-8] is strictly increasing. *)
Theorem X17_checked_centres_are_increasing (e n : list Qc) :
  _check_regular_grid e n = Ok tt →
  (2 ≤ length e)%nat ∧ (2 ≤ length n)%nat
  ∧ (atol < centre e 1 - centre e 0 → strictly_increasing e)
  ∧ (atol < centre n 1 - centre n 0 → strictly_increasing n).
Proof.
  intros (e0 & e1 & n0 & n1 & He0 & He1 & Hn0 & Hn1 & Hce & Hcn)
    %check_regular_grid_inv.
  pose proof (lookup_lt_Some _ _ _ He1). pose proof (lookup_lt_Some _ _ _ Hn1).
  split; [lia|]. split; [lia|].
  unfold centre. change (Z.to_nat 1) with 1%nat. change (Z.to_nat 0) with 0%nat.
  rewrite He0, He1, Hn0, Hn1. simpl.
  split; intros Hs; by eapply allclose_increasing.
Qed.

Lemma X17_checked_centres_are_increasing_witness :
  let e := [of_Z 0; of_Z 2; of_Z 4] in
  let n := [of_Z 5; of_Z 5] in
  (2 ≤ length e)%nat ∧ (2 ≤ length n)%nat
  ∧ (atol < centre e 1 - centre e 0 → strictly_increasing e)
  ∧ (atol < centre n 1 - centre n 0 → strictly_increasing n).
Proof.
  apply (X17_checked_centres_are_increasing
           [of_Z 0; of_Z 2; of_Z 4] [of_Z 5; of_Z 5]).
  by vm_compute.
Defined.

(** X18 (_check_regular_grid, spacing, prism_layer).  A layer needs two
    centres along each axis: with fewer than two easting centres the check
    reads [easting[1]] out of bounds and fails with an [IndexError], and so
    do [spacing] and [prism_layer]; with two or more easting centres and
    fewer than two northing centres they fail as well, with the
    [IndexError] of [northing[1]] or with the error for unevenly spaced
    easting centres. *)
Theorem X18_fewer_than_two_centres_fail (self : layer) (surface : array2)
    (reference : reference_arg) :
  let e := easting self in
  let n := northing self in
  let uneven :=
    ValueError "Passed easting coordinates are not evenly spaced." in
  ((length e < 2)%nat →
   _check_regular_grid e n = Raise IndexError
   ∧ DatasetAccessorPrismLayer.spacing self = Raise IndexError
   ∧ prism_layer (e, n) surface reference = Raise IndexError)
  ∧ ((length n < 2)%nat →
     ∃ x, (x = IndexError ∨ x = uneven)
          ∧ _check_regular_grid e n = Raise x
          ∧ DatasetAccessorPrismLayer.spacing self = Raise x
          ∧ prism_layer (e, n) surface reference = Raise x).
Proof.
  intros e n uneven. split.
  - intros He.
    assert (_check_regular_grid e n = Raise IndexError) as Hc.
    { unfold _check_regular_grid.
      rewrite (item_out_of_bounds e 1) by (unfold size; lia). done. }
    unfold DatasetAccessorPrismLayer.spacing, prism_layer. fold e n.
    by rewrite Hc.
  - intros Hn.
    assert (∃ x, (x = IndexError ∨ x = uneven)
                 ∧ _check_regular_grid e n = Raise x) as (x & Hx & Hc).
    { unfold _check_regular_grid.
      destruct (item e 1) as [ex|e1] eqn:He1.
      { exists IndexError. split; [by left|].
        destruct (decide (1 < size e)%Z) as [Hlt|Hge].
        - destruct (item_in_bounds e 1) as (v & _ & Hv); [lia|].
          rewrite Hv in He1. done.
        - rewrite item_out_of_bounds in He1 by lia. by injection He1 as <-. }
      destruct (item e 0) as [ex|e0] eqn:He0.
      { exfalso. apply item_Ok_lookup in He1; [|done].
        apply lookup_lt_Some in He1.
        destruct (item_in_bounds e 0) as (v & _ & Hv);
          [unfold size; simpl in *; lia|].
        rewrite Hv in He0. done. }
      cbn [mbind result_bind Ok].
      destruct (np_allclose (e1 - e0) (differences e)); cbn [negb].
      - exists IndexError. split; [by left|].
        by rewrite (item_out_of_bounds n 1) by (unfold size; lia).
      - exists uneven. split; [by right|done]. }
    exists x. split; [done|]. split; [done|].
    unfold DatasetAccessorPrismLayer.spacing, prism_layer. fold e n.
    by rewrite Hc.
Qed.

Lemma X18_fewer_than_two_centres_fail_witness :
  _check_regular_grid [of_Z 3] [of_Z 0; of_Z 1] = Raise IndexError
  ∧ DatasetAccessorPrismLayer.spacing
      (mk_layer [of_Z 3] [of_Z 0; of_Z 1] [] []) = Raise IndexError
  ∧ prism_layer ([of_Z 3], [of_Z 0; of_Z 1]) [] (Scalar (Num 0))
    = Raise IndexError.
Proof.
  apply (X18_fewer_than_two_centres_fail
           (mk_layer [of_Z 3] [of_Z 0; of_Z 1] [] []) [] (Scalar (Num 0))).
  simpl. lia.
Defined.

End GridCheckInverse.
Section Boundaries.
Import Numpy NumpySpec PrismLayer PrismLayerSpec PrismLayerFunctions
  PrismLayerFacts.
Local Open Scope Z_scope.
Local Open Scope Qc_scope.

Lemma of_Z_add (a b : Z) : of_Z (a + b) = of_Z a + of_Z b.
Proof.
  apply Qc_is_canon. unfold of_Z, Qcplus. cbn [this Q2Qc].
  rewrite !Qred_correct, inject_Z_plus. reflexivity.
Qed.

Lemma of_Z_le (a b : Z) : (a ≤ b)%Z → of_Z a ≤ of_Z b.
Proof. intros H. qc_to_q. by rewrite <- Zle_Qle. Qed.

Lemma fold_min_spec (xs : list Qc) (x : Qc) :
  let m := fold_left (fun m y => if Qclt_le_dec y m then y else m) xs x in
  m ∈ x :: xs ∧ ∀ y, y ∈ x :: xs → m ≤ y.
Proof.
  revert x; induction xs as [|z xs IH]; intros x; simpl.
  - split; [by left|]. intros y ->%list_elem_of_singleton. apply Qcle_refl.
  - destruct (Qclt_le_dec z x) as [Hlt|Hle].
    + destruct (IH z) as [Hin Hmin]. split.
      * by right.
      * intros y [->|Hy]%elem_of_cons; [|by apply Hmin].
        eapply Qcle_trans; [apply Hmin; by left|by apply Qclt_le_weak].
    + destruct (IH x) as [Hin Hmin]. split.
      * apply elem_of_cons in Hin as [->|Hin]; [by left|by right; right].
      * intros y [->|[->|Hy]%elem_of_cons]%elem_of_cons.
        -- apply Hmin; by left.
        -- eapply Qcle_trans; [apply Hmin; by left|done].
        -- apply Hmin; by right.
Qed.

Lemma fold_max_spec (xs : list Qc) (x : Qc) :
  let m := fold_left (fun m y => if Qclt_le_dec m y then y else m) xs x in
  m ∈ x :: xs ∧ ∀ y, y ∈ x :: xs → y ≤ m.
Proof.
  revert x; induction xs as [|z xs IH]; intros x; simpl.
  - split; [by left|]. intros y ->%list_elem_of_singleton. apply Qcle_refl.
  - destruct (Qclt_le_dec x z) as [Hlt|Hle].
    + destruct (IH z) as [Hin Hmax]. split.
      * by right.
      * intros y [->|Hy]%elem_of_cons; [|by apply Hmax].
        eapply Qcle_trans; [by apply Qclt_le_weak|apply Hmax; by left].
    + destruct (IH x) as [Hin Hmax]. split.
      * apply elem_of_cons in Hin as [->|Hin]; [by left|by right; right].
      * intros y [->|[->|Hy]%elem_of_cons]%elem_of_cons.
        -- apply Hmax; by left.
        -- eapply Qcle_trans; [done|apply Hmax; by left].
        -- apply Hmax; by right.
Qed.

Lemma np_min_is (a : list Qc) x :
  x ∈ a → (∀ y, y ∈ a → x ≤ y) → np_min a = Ok x.
Proof.
  intros Hin Hmin. destruct a as [|x0 xs]; [by apply elem_of_nil in Hin|].
  unfold np_min. f_equal.
  destruct (fold_min_spec xs x0) as [Hm1 Hm2].
  apply Qcle_antisym; [by apply Hm2|by apply Hmin].
Qed.

Lemma np_max_is (a : list Qc) x :
  x ∈ a → (∀ y, y ∈ a → y ≤ x) →
  DatasetAccessorPrismLayer.np_max a = Ok x.
Proof.
  intros Hin Hmax. destruct a as [|x0 xs]; [by apply elem_of_nil in Hin|].
  unfold DatasetAccessorPrismLayer.np_max. f_equal.
  destruct (fold_max_spec xs x0) as [Hm1 Hm2].
  apply Qcle_antisym; [by apply Hmax|by apply Hm2].
Qed.

Section Axis.

Variables (a : list Qc) (first spacing : Qc).
Hypothesis Heven : evenly_spaced a first spacing.

Local Abbreviation last_centre := (last_centre a first spacing).

Lemma evenly_spaced_elem y :
  y ∈ a ↔ ∃ k, (0 ≤ k < size a)%Z ∧ y = first + of_Z k * spacing.
Proof using Heven.
  destruct Heven as [Hlen Hk]. unfold size. split.
  - intros [k Hy]%list_elem_of_lookup_1.
    pose proof (lookup_lt_Some _ _ _ Hy) as Hlt.
    rewrite Hk in Hy by done. injection Hy as <-.
    exists (Z.of_nat k). split; [lia|done].
  - intros (k & Hrange & ->).
    apply (list_elem_of_lookup_2 _ (Z.to_nat k)).
    rewrite Hk by lia. by rewrite Z2Nat.id by lia.
Qed.

Lemma first_elem : first ∈ a.
Proof using Heven.
  pose proof (evenly_spaced_size _ _ _ Heven).
  apply evenly_spaced_elem. exists 0%Z. split; [lia|].
  rewrite of_Z_zero. ring.
Qed.

Lemma last_elem : last_centre ∈ a.
Proof using Heven.
  pose proof (evenly_spaced_size _ _ _ Heven).
  apply evenly_spaced_elem. exists (size a - 1)%Z. split; [lia|done].
Qed.

Lemma increasing_min_max :
  0 ≤ spacing →
  np_min a = Ok first
  ∧ DatasetAccessorPrismLayer.np_max a = Ok last_centre.
Proof using Heven.
  intros Hs. split.
  - apply np_min_is; [apply first_elem|].
    intros y (k & Hk & ->)%evenly_spaced_elem.
    pose proof (Qcmult_nonneg _ _ (of_Z_nonneg k ltac:(lia)) Hs).
    qc_to_q. Lqa.lra.
  - apply np_max_is; [apply last_elem|].
    intros y (k & Hk & ->)%evenly_spaced_elem. unfold last_centre.
    pose proof (Qcmult_le_compat_r _ _ _
                  (of_Z_le k (size a - 1) ltac:(lia)) Hs).
    qc_to_q. Lqa.lra.
Qed.

Lemma decreasing_min_max :
  spacing ≤ 0 →
  np_min a = Ok last_centre
  ∧ DatasetAccessorPrismLayer.np_max a = Ok first.
Proof using Heven.
  intros Hs.
  assert (0 ≤ - spacing) as Hs' by (qc_to_q; Lqa.lra).
  split.
  - apply np_min_is; [apply last_elem|].
    intros y (k & Hk & ->)%evenly_spaced_elem. unfold last_centre.
    pose proof (Qcmult_le_compat_r _ _ _
                  (of_Z_le k (size a - 1) ltac:(lia)) Hs').
    qc_to_q. Lqa.lra.
  - apply np_max_is; [apply first_elem|].
    intros y (k & Hk & ->)%evenly_spaced_elem.
    pose proof (Qcmult_nonneg _ _ (of_Z_nonneg k ltac:(lia)) Hs').
    qc_to_q. Lqa.lra.
Qed.

End Axis.

(** The extent that [boundaries] reports along one axis. *)
Lemma axis_extent (a : list Qc) first spacing :
  evenly_spaced a first spacing →
  ∃ lo hi,
    np_min a = Ok lo ∧ DatasetAccessorPrismLayer.np_max a = Ok hi
    ∧ (0 < spacing →
       lo - spacing / 2 = first - spacing / 2
       ∧ (hi + spacing / 2) - (lo - spacing / 2) = of_Z (size a) * spacing)
    ∧ (spacing < 0 →
       (hi + spacing / 2) - (lo - spacing / 2)
       = of_Z (size a - 2) * (- spacing)).
Proof.
  intros Heven.
  assert (of_Z (size a) = of_Z (size a - 1) + 1) as Hn.
  { rewrite <- of_Z_succ. f_equal. lia. }
  assert (of_Z (size a - 2) = of_Z (size a - 1) - 1) as Hn2.
  { replace (size a - 1)%Z with (size a - 2 + 1)%Z by lia.
    rewrite of_Z_succ. ring. }
  destruct (Qclt_le_dec spacing 0) as [Hneg|Hpos].
  - destruct (decreasing_min_max a first spacing Heven) as [Hmin Hmax].
    { by apply Qclt_le_weak. }
    exists (last_centre a first spacing), first.
    split; [done|]. split; [done|]. split.
    + intros Hs. exfalso. qc_to_q. Lqa.lra.
    + intros _. unfold last_centre. rewrite Hn2. field; done.
  - destruct (increasing_min_max a first spacing Heven Hpos) as [Hmin Hmax].
    exists first, (last_centre a first spacing).
    split; [done|]. split; [done|]. split.
    + intros _. split; [done|]. unfold last_centre. rewrite Hn. field; done.
    + intros Hs. exfalso. qc_to_q. Lqa.lra.
Qed.

(** X19 (boundaries, spacing).  The boundaries of a layer with evenly spaced
    centres.  Along an axis with a positive spacing they start half a
    spacing before the first centre and span the number of centres times the
    spacing: the full extent of the prisms.  Along an axis with a negative
    spacing (decreasing centres, which the grid check accepts) the signed
    half spacing is taken off the wrong way round: the reported span is the
    number of centres minus two times the spacing's magnitude, one prism
    width short on each side. *)
Theorem X19_boundaries_of_evenly_spaced_centres
    (self : layer) (first_e spacing_e first_n spacing_n : Qc) :
  evenly_spaced (easting self) first_e spacing_e →
  evenly_spaced (northing self) first_n spacing_n →
  ∃ west east south north,
    DatasetAccessorPrismLayer.boundaries self = Ok (west, east, south, north)
    ∧ (0 < spacing_e →
       west = first_e - spacing_e / 2
       ∧ east - west = of_Z (size (easting self)) * spacing_e)
    ∧ (spacing_e < 0 →
       east - west = of_Z (size (easting self) - 2) * (- spacing_e))
    ∧ (0 < spacing_n →
       south = first_n - spacing_n / 2
       ∧ north - south = of_Z (size (northing self)) * spacing_n)
    ∧ (spacing_n < 0 →
       north - south = of_Z (size (northing self) - 2) * (- spacing_n)).
Proof.
  intros He Hn.
  destruct (axis_extent _ _ _ He) as (elo & ehi & Hemin & Hemax & Hepos & Heneg).
  destruct (axis_extent _ _ _ Hn) as (nlo & nhi & Hnmin & Hnmax & Hnpos & Hnneg).
  exists (elo - spacing_e / 2), (ehi + spacing_e / 2),
    (nlo - spacing_n / 2), (nhi + spacing_n / 2).
  split; [|done].
  unfold DatasetAccessorPrismLayer.boundaries.
  pose proof (check_regular_grid_evenly_spaced _ _ _ _ _ _ He Hn) as Hcheck.
  unfold DatasetAccessorPrismLayer.spacing. rewrite Hcheck.
  destruct (evenly_spaced_first_two _ _ _ He) as [-> ->].
  destruct (evenly_spaced_first_two _ _ _ Hn) as [-> ->].
  cbn [mbind result_bind Ok].
  rewrite Hemin, Hemax, Hnmin, Hnmax. cbn [mbind result_bind Ok].
  replace (first_e + spacing_e - first_e) with spacing_e by ring.
  replace (first_n + spacing_n - first_n) with spacing_n by ring.
  done.
Qed.

Lemma X19_boundaries_of_evenly_spaced_centres_witness :
  let self := mk_layer [of_Z 6; of_Z 4; of_Z 2; of_Z 0]
                       [of_Z 1; of_Z 3] [] [] in
  ∃ west east south north,
    DatasetAccessorPrismLayer.boundaries self = Ok (west, east, south, north)
    ∧ (0 < of_Z (-2) →
       west = of_Z 6 - of_Z (-2) / 2
       ∧ east - west = of_Z (size (easting self)) * of_Z (-2))
    ∧ (of_Z (-2) < 0 →
       east - west = of_Z (size (easting self) - 2) * (- of_Z (-2)))
    ∧ (0 < of_Z 2 →
       south = of_Z 1 - of_Z 2 / 2
       ∧ north - south = of_Z (size (northing self)) * of_Z 2)
    ∧ (of_Z 2 < 0 →
       north - south = of_Z (size (northing self) - 2) * (- of_Z 2)).
Proof.
  apply (X19_boundaries_of_evenly_spaced_centres
           (mk_layer [of_Z 6; of_Z 4; of_Z 2; of_Z 0] [of_Z 1; of_Z 3] [] [])
           (of_Z 6) (of_Z (-2)) (of_Z 1) (of_Z 2)).
  - split; [simpl; lia|]. intros [|[|[|[|k]]]] Hk; simpl in Hk; try lia;
      simpl; f_equal; by apply Qc_is_canon.
  - split; [simpl; lia|]. intros [|[|k]] Hk; simpl in Hk; try lia;
      simpl; f_equal; by apply Qc_is_canon.
Defined.

End Boundaries.
Section Prisms.
Import DatasetAccessorPrismLayer Numpy NumpySpec PrismLayer PrismLayerSpec
  PrismLayerFunctions PrismLayerFacts.
Local Open Scope Z_scope.
Local Open Scope Qc_scope.

Lemma spacing_of_check (self : layer) :
  _check_regular_grid (easting self) (northing self) = Ok tt →
  spacing self = Ok (first_spacing self).
Proof.
  intros Hcheck. unfold spacing. rewrite Hcheck.
  apply check_regular_grid_inv in Hcheck
    as (e0 & e1 & n0 & n1 & He0 & He1 & Hn0 & Hn1 & _).
  pose proof (lookup_lt_Some _ _ _ He1). pose proof (lookup_lt_Some _ _ _ Hn1).
  rewrite !item_centre by (unfold size; lia). done.
Qed.

Lemma has_shape_rows {A} (a : list (list A)) rows cols :
  (length a =? rows)%nat && forallb (fun row => (length row =? cols)%nat) a
  = true →
  length a = rows ∧ Forall (fun row => length row = cols) a.
Proof.
  intros [Hr Hc]%andb_prop. apply Nat.eqb_eq in Hr. split; [done|].
  apply Forall_forall. intros row Hrow%list_elem_of_In.
  rewrite forallb_forall in Hc. by apply Nat.eqb_eq, Hc.
Qed.

Lemma length_concat_uniform {A} (a : list (list A)) cols :
  Forall (fun row => length row = cols) a →
  length (concat a) = (length a * cols)%nat.
Proof.
  induction 1 as [|row a Hrow _ IH]; simpl; [done|].
  rewrite length_app, IH, Hrow. done.
Qed.

Lemma lookup_concat_uniform {A} (a : list (list A)) cols j i :
  Forall (fun row => length row = cols) a → (i < cols)%nat →
  concat a !! (j * cols + i)%nat = (row ← a !! j; row !! i).
Proof.
  intros Ha Hi. revert j; induction Ha as [|row a Hrow _ IH]; intros j.
  - by destruct j.
  - destruct j as [|j]; simpl.
    + rewrite lookup_app_l by lia. done.
    + rewrite lookup_app_r by lia. rewrite <- IH. f_equal. lia.
Qed.

Lemma well_shaped_ravel (a : array2) rows cols (j i : nat) :
  has_shape a (rows, cols) = true → (j < rows)%nat → (i < cols)%nat →
  length (ravel a) = (rows * cols)%nat
  ∧ ravel a !! (j * cols + i)%nat
    = Some (value a (Z.of_nat j) (Z.of_nat i)).
Proof.
  intros Hshape Hj Hi.
  destruct (has_shape_rows a rows cols Hshape) as [Hlen Hrows].
  unfold ravel. split.
  - by rewrite (length_concat_uniform _ cols), Hlen.
  - rewrite (lookup_concat_uniform _ cols) by done.
    destruct (has_shape_cell a rows cols j i Hshape Hj Hi) as [v Hv].
    unfold value. rewrite !Nat2Z.id. unfold cell in *. by rewrite Hv.
Qed.

Lemma has_shape_ravel_length (a : array2) rows cols :
  has_shape a (rows, cols) = true → length (ravel a) = (rows * cols)%nat.
Proof.
  intros Hshape. destruct (has_shape_rows a rows cols Hshape) as [Hlen Hrows].
  unfold ravel. by rewrite (length_concat_uniform _ cols), Hlen.
Qed.

Lemma get_prism_in_grid (self : layer) (j i : Z) :
  _check_regular_grid (easting self) (northing self) = Ok tt →
  well_shaped self →
  (0 ≤ j < size (northing self))%Z → (0 ≤ i < size (easting self))%Z →
  get_prism self (j, i) = Ok (prism_at self j i).
Proof.
  intros Hcheck [Htop Hbottom] Hj Hi. unfold get_prism, prism_at.
  cbn [fst snd]. rewrite !item_centre by done. cbn [mbind result_bind Ok].
  unfold _get_prism_horizontal_boundaries.
  rewrite (spacing_of_check self Hcheck). cbn [mbind result_bind Ok].
  unfold shape, size in *.
  rewrite (item2_value _ _ _ _ _ Hbottom) by done.
  rewrite (item2_value _ _ _ _ _ Htop) by done. done.
Qed.

Lemma meshgrid_easting_lookup (x y : list Qc) (j i : nat) :
  (j < length y)%nat → (i < length x)%nat →
  ravel (meshgrid x y).1 !! (j * length x + i)%nat
  = Some (centre x (Z.of_nat i)).
Proof.
  intros Hj Hi. unfold ravel, meshgrid. cbn [fst].
  rewrite (lookup_concat_uniform _ (length x));
    [|apply Forall_forall;
      by intros row (? & <- & _)%list_elem_of_In%in_map_iff|done].
  change (map ?f ?l) with (f <$> l). rewrite list_lookup_fmap.
  destruct (lookup_lt_is_Some_2 y j Hj) as [yj ->]. simpl.
  unfold centre. rewrite Nat2Z.id.
  by destruct (lookup_lt_is_Some_2 x i Hi) as [xi ->].
Qed.

Lemma meshgrid_northing_lookup (x y : list Qc) (j i : nat) :
  (j < length y)%nat → (i < length x)%nat →
  ravel (meshgrid x y).2 !! (j * length x + i)%nat
  = Some (centre y (Z.of_nat j)).
Proof.
  intros Hj Hi. unfold ravel, meshgrid. cbn [snd].
  rewrite (lookup_concat_uniform _ (length x)).
  2:{ apply Forall_forall.
      intros row (? & <- & _)%list_elem_of_In%in_map_iff.
      apply length_map. }
  2: done.
  change (map ?f ?l) with (f <$> l). rewrite list_lookup_fmap.
  unfold centre. rewrite Nat2Z.id.
  destruct (lookup_lt_is_Some_2 y j Hj) as [yj ->]. simpl.
  rewrite list_lookup_fmap.
  by destruct (lookup_lt_is_Some_2 x i Hi) as [xi ->].
Qed.

Lemma meshgrid_lengths (x y : list Qc) :
  length (ravel (meshgrid x y).1) = (length y * length x)%nat
  ∧ length (ravel (meshgrid x y).2) = (length y * length x)%nat.
Proof.
  unfold ravel, meshgrid. cbn [fst snd]. split.
  - rewrite (length_concat_uniform _ (length x)), length_map; [done|].
    apply Forall_forall.
    by intros row (? & <- & _)%list_elem_of_In%in_map_iff.
  - rewrite (length_concat_uniform _ (length x)), length_map; [done|].
    apply Forall_forall.
    intros row (? & <- & _)%list_elem_of_In%in_map_iff.
    apply length_map.
Qed.

Lemma index_in_grid (rows cols j i : nat) :
  (j < rows)%nat → (i < cols)%nat → (j * cols + i < rows * cols)%nat.
Proof. nia. Qed.

(** X20 (_to_prisms, get_prism, size, _get_prism_horizontal_boundaries).  On
    a layer that passes the grid check, [_to_prisms] returns one row per
    prism, [size] rows in all, northing index outermost: the row with index
    [j * n_east + i] holds the boundaries that [get_prism] returns for the
    indices [(j, i)]. *)
Theorem X20_to_prisms_lists_get_prism_row_major (self : layer) :
  _check_regular_grid (easting self) (northing self) = Ok tt →
  well_shaped self →
  ∃ prisms,
    _to_prisms self = Ok prisms
    ∧ length prisms = DatasetAccessorPrismLayer.size self
    ∧ ∀ j i : nat,
        (j < length (northing self))%nat → (i < length (easting self))%nat →
        ∃ p, get_prism self (Z.of_nat j, Z.of_nat i) = Ok p
             ∧ prisms !! (j * length (easting self) + i)%nat = Some p.
Proof.
  intros Hcheck Hshaped. pose proof Hshaped as [Htop Hbottom].
  unfold shape in *.
  pose proof (has_shape_ravel_length _ _ _ Htop) as Hlt.
  pose proof (has_shape_ravel_length _ _ _ Hbottom) as Hlb.
  destruct (meshgrid_lengths (easting self) (northing self)) as [Hle Hln].
  unfold _to_prisms, _get_prism_horizontal_boundaries_arrays.
  destruct (meshgrid (easting self) (northing self)) as [me mn] eqn:Hmesh.
  cbn [fst snd] in Hle, Hln.
  rewrite (spacing_of_check self Hcheck). cbn [mbind result_bind Ok].
  unfold vstack_T.
  rewrite decide_True
    by (rewrite length_zip_with, Hle, Hln, Hlt, Hlb; lia).
  eexists. split; [done|]. split.
  { rewrite !length_zip_with, Hle, Hln, Hlt, Hlb.
    unfold DatasetAccessorPrismLayer.size. lia. }
  intros j i Hj Hi. exists (prism_at self (Z.of_nat j) (Z.of_nat i)).
  split.
  { apply get_prism_in_grid; unfold size; (done || lia). }
  pose proof (meshgrid_easting_lookup (easting self) (northing self) j i Hj Hi)
    as Hme.
  pose proof (meshgrid_northing_lookup (easting self) (northing self) j i Hj Hi)
    as Hmn.
  rewrite Hmesh in Hme, Hmn. cbn [fst snd] in Hme, Hmn.
  destruct (well_shaped_ravel _ _ _ j i Hbottom Hj Hi) as [_ Hb].
  destruct (well_shaped_ravel _ _ _ j i Htop Hj Hi) as [_ Ht].
  rewrite !lookup_zip_with, Hme, Hmn, Hb, Ht. done.
Qed.

Lemma X20_to_prisms_lists_get_prism_row_major_witness :
  ∃ prisms,
    _to_prisms sample_layer = Ok prisms
    ∧ length prisms = DatasetAccessorPrismLayer.size sample_layer
    ∧ ∀ j i : nat,
        (j < length (northing sample_layer))%nat →
        (i < length (easting sample_layer))%nat →
        ∃ p, get_prism sample_layer (Z.of_nat j, Z.of_nat i) = Ok p
             ∧ prisms !! (j * length (easting sample_layer) + i)%nat = Some p.
Proof.
  apply (X20_to_prisms_lists_get_prism_row_major sample_layer).
  - by vm_compute.
  - split; reflexivity.
Defined.

End Prisms.
Section Tiling.
Import DatasetAccessorPrismLayer Numpy NumpySpec PrismLayer PrismLayerSpec
  PrismLayerFunctions PrismLayerFacts.
Local Open Scope Z_scope.
Local Open Scope Qc_scope.

Lemma evenly_spaced_centre a first spacing i :
  evenly_spaced a first spacing → (0 ≤ i < size a)%Z →
  centre a i = first + of_Z i * spacing.
Proof.
  intros [_ Hk] Hi. unfold centre, size in *.
  rewrite Hk by lia. simpl. by rewrite Z2Nat.id by lia.
Qed.

Lemma first_spacing_evenly_spaced (self : layer)
    first_e spacing_e first_n spacing_n :
  evenly_spaced (easting self) first_e spacing_e →
  evenly_spaced (northing self) first_n spacing_n →
  first_spacing self = (spacing_n, spacing_e).
Proof.
  intros He Hn. unfold first_spacing.
  pose proof (evenly_spaced_size _ _ _ He).
  pose proof (evenly_spaced_size _ _ _ Hn).
  rewrite !(evenly_spaced_centre _ _ _ _ He) by lia.
  rewrite !(evenly_spaced_centre _ _ _ _ Hn) by lia.
  rewrite of_Z_one, of_Z_zero. f_equal; ring.
Qed.

Lemma boundaries_increasing (self : layer)
    first_e spacing_e first_n spacing_n :
  regular (easting self) first_e spacing_e →
  regular (northing self) first_n spacing_n →
  boundaries self
  = Ok (first_e - spacing_e / 2,
        last_centre (easting self) first_e spacing_e + spacing_e / 2,
        first_n - spacing_n / 2,
        last_centre (northing self) first_n spacing_n + spacing_n / 2).
Proof.
  intros Hre Hrn.
  pose proof (regular_evenly_spaced _ _ _ Hre) as He.
  pose proof (regular_evenly_spaced _ _ _ Hrn) as Hn.
  destruct Hre as (Hse & _). destruct Hrn as (Hsn & _).
  destruct (increasing_min_max _ _ _ He (Qclt_le_weak _ _ Hse)) as [Hemin Hemax].
  destruct (increasing_min_max _ _ _ Hn (Qclt_le_weak _ _ Hsn)) as [Hnmin Hnmax].
  unfold boundaries.
  rewrite (spacing_of_check self)
    by (by eapply check_regular_grid_evenly_spaced).
  rewrite (first_spacing_evenly_spaced self _ _ _ _ He Hn).
  cbn [mbind result_bind Ok].
  rewrite Hemin, Hemax, Hnmin, Hnmax. done.
Qed.

(** X21 (get_prism, boundaries, _get_prism_horizontal_boundaries).  On a
    layer with regular centres (positive spacings) the prisms tile the
    rectangle of [boundaries]: every prism of the grid exists, neighbours
    along an axis share a face, and the outer faces of the first and last
    prisms along each axis are the boundaries of the layer. *)
Theorem X21_prisms_tile_the_boundaries (self : layer)
    (first_e spacing_e first_n spacing_n : Qc) (j i : Z) :
  regular (easting self) first_e spacing_e →
  regular (northing self) first_n spacing_n →
  well_shaped self →
  (0 ≤ j < size (northing self))%Z → (0 ≤ i < size (easting self))%Z →
  ∃ west east south north p,
    boundaries self = Ok (west, east, south, north)
    ∧ get_prism self (j, i) = Ok p
    ∧ (i = 0%Z → west_of p = west)
    ∧ (i = (size (easting self) - 1)%Z → east_of p = east)
    ∧ (j = 0%Z → south_of p = south)
    ∧ (j = (size (northing self) - 1)%Z → north_of p = north)
    ∧ ((i + 1 < size (easting self))%Z →
       ∃ q, get_prism self (j, (i + 1)%Z) = Ok q ∧ west_of q = east_of p)
    ∧ ((j + 1 < size (northing self))%Z →
       ∃ q, get_prism self ((j + 1)%Z, i) = Ok q ∧ south_of q = north_of p).
Proof.
  intros Hre Hrn Hshaped Hj Hi.
  pose proof (regular_evenly_spaced _ _ _ Hre) as He.
  pose proof (regular_evenly_spaced _ _ _ Hrn) as Hn.
  pose proof (check_regular_grid_evenly_spaced _ _ _ _ _ _ He Hn) as Hcheck.
  pose proof (first_spacing_evenly_spaced self _ _ _ _ He Hn) as Hsp.
  do 4 eexists. exists (prism_at self j i).
  split; [by apply boundaries_increasing|].
  split; [by apply get_prism_in_grid|].
  unfold prism_at, horizontal_boundaries, west_of, east_of, south_of, north_of,
    last_centre.
  rewrite Hsp. cbn [fst snd].
  rewrite (evenly_spaced_centre _ _ _ i He), (evenly_spaced_centre _ _ _ j Hn)
    by done.
  split; [intros ->; rewrite of_Z_zero; ring|].
  split; [by intros ->|].
  split; [intros ->; rewrite of_Z_zero; ring|].
  split; [by intros ->|].
  split.
  - intros Hi'. exists (prism_at self j (i + 1)).
    split; [apply get_prism_in_grid; (done || lia)|].
    unfold prism_at, horizontal_boundaries. rewrite Hsp. cbn [fst snd].
    rewrite (evenly_spaced_centre _ _ _ (i + 1) He) by lia.
    rewrite of_Z_succ. field; done.
  - intros Hj'. exists (prism_at self (j + 1) i).
    split; [apply get_prism_in_grid; (done || lia)|].
    unfold prism_at, horizontal_boundaries. rewrite Hsp. cbn [fst snd].
    rewrite (evenly_spaced_centre _ _ _ (j + 1) Hn) by lia.
    rewrite of_Z_succ. field; done.
Qed.

Lemma sample_layer_regular :
  regular (easting sample_layer) (of_Z 0) (of_Z 2)
  ∧ regular (northing sample_layer) (of_Z 1) (of_Z 3).
Proof.
  split.
  - split; [done|]. split; [simpl; lia|].
    intros [|[|[|k]]] Hk; simpl in Hk; try lia;
      simpl; f_equal; by apply Qc_is_canon.
  - split; [done|]. split; [simpl; lia|].
    intros [|[|k]] Hk; simpl in Hk; try lia;
      simpl; f_equal; by apply Qc_is_canon.
Qed.

Lemma X21_prisms_tile_the_boundaries_witness :
  ∃ west east south north p,
    boundaries sample_layer = Ok (west, east, south, north)
    ∧ get_prism sample_layer (0%Z, 1%Z) = Ok p
    ∧ (1%Z = 0%Z → west_of p = west)
    ∧ (1%Z = (size (easting sample_layer) - 1)%Z → east_of p = east)
    ∧ (0%Z = 0%Z → south_of p = south)
    ∧ (0%Z = (size (northing sample_layer) - 1)%Z → north_of p = north)
    ∧ ((1 + 1 < size (easting sample_layer))%Z →
       ∃ q, get_prism sample_layer (0%Z, (1 + 1)%Z) = Ok q
            ∧ west_of q = east_of p)
    ∧ ((0 + 1 < size (northing sample_layer))%Z →
       ∃ q, get_prism sample_layer ((0 + 1)%Z, 1%Z) = Ok q
            ∧ south_of q = north_of p).
Proof.
  apply (X21_prisms_tile_the_boundaries sample_layer
           (of_Z 0) (of_Z 2) (of_Z 1) (of_Z 3) 0 1).
  - apply sample_layer_regular.
  - apply sample_layer_regular.
  - split; reflexivity.
  - by vm_compute.
  - by vm_compute.
Defined.

Lemma near_window_in_grid easting northing prisms_easting prisms_northing
    fine_distance factor box :
  near_window easting northing prisms_easting prisms_northing
    fine_distance factor = Ok box →
  window_in_grid prisms_easting prisms_northing box.
Proof.
  unfold near_window. intros Hbox.
  repeat match type of Hbox with
         | context [item ?a ?i ≫= _] =>
             destruct (item a i); [done|];
             cbn [mbind result_bind Ok] in Hbox
         end.
  by eapply bounding_indices_in_grid.
Qed.

Lemma near_cells_in_grid prisms_easting prisms_northing box i j :
  window_in_grid prisms_easting prisms_northing box →
  (i, j) ∈ near_cells box →
  (0 ≤ i < size prisms_easting)%Z ∧ (0 ≤ j < size prisms_northing)%Z.
Proof.
  intros Hgrid Hin%near_cells_spec.
  destruct box as [[[i_min i_max] j_min] j_max].
  unfold window_in_grid, in_window in *.
  rewrite !andb_true_iff, !Z.leb_le, !Z.ltb_lt in Hin. lia.
Qed.

(** X22 (_gravity_coarser, get_prism).  The two forward models agree on the
    prisms.  On a layer that passes the grid check, the [k]-th kernel call
    of [_gravity_coarser] is made on the [k]-th cell [(i, j)] of its
    window, and its west, east, south, north, bottom and top arguments are
    the boundaries that [get_prism] returns for the indices [(j, i)]; its
    density is the density of that cell. *)
Theorem X22_window_calls_use_the_prisms_of_get_prism (self : layer)
    (prisms_densities : array2) (easting northing upward fine_distance : Qc)
    (factor : Z) (box : Z * Z * Z * Z) :
  _check_regular_grid (PrismLayer.easting self) (PrismLayer.northing self)
  = Ok tt →
  well_shaped self → has_shape prisms_densities (shape self) = true →
  (1 ≤ factor)%Z →
  near_window easting northing (PrismLayer.easting self)
    (PrismLayer.northing self) fine_distance factor = Ok box →
  ∃ calls,
    kernel_calls easting northing upward (PrismLayer.easting self)
      (PrismLayer.northing self) (bottom self) (top self) prisms_densities
      fine_distance factor = Ok calls
    ∧ ∀ k i j, near_cells box !! k = Some (i, j) →
        ∃ c, calls !! k = Some c
             ∧ get_prism self (j, i)
               = Ok (west c, east c, south c, north c,
                     prism_bottom c, prism_top c)
             ∧ prism_density c = value prisms_densities j i.
Proof.
  intros Hcheck Hshaped Hdens Hfactor Hbox. pose proof Hshaped as [Htop Hbot].
  eexists. split.
  { apply kernel_calls_spec; [by repeat split|lia|done]. }
  intros k i j Hk.
  exists (fine_prism easting northing upward (PrismLayer.easting self)
            (PrismLayer.northing self) (bottom self) (top self)
            prisms_densities (i, j)).
  split.
  { rewrite lookup_app_l
      by (rewrite length_map; by eapply lookup_lt_Some).
    change (map ?f ?l) with (f <$> l). by rewrite list_lookup_fmap, Hk. }
  split; [|done].
  destruct (near_cells_in_grid (PrismLayer.easting self)
              (PrismLayer.northing self) box i j) as [Hi Hj].
  { by eapply near_window_in_grid. }
  { by eapply list_elem_of_lookup_2. }
  by rewrite get_prism_in_grid.
Qed.

Lemma X22_window_calls_use_the_prisms_of_get_prism_witness :
  ∃ calls,
    kernel_calls (of_Z 2) (of_Z 1) (of_Z 10) (PrismLayer.easting sample_layer)
      (PrismLayer.northing sample_layer) (bottom sample_layer)
      (top sample_layer) sample_density (of_Z 1) 2 = Ok calls
    ∧ ∀ k i j, near_cells (0, 1, 0, 1)%Z !! k = Some (i, j) →
        ∃ c, calls !! k = Some c
             ∧ get_prism sample_layer (j, i)
               = Ok (west c, east c, south c, north c,
                     prism_bottom c, prism_top c)
             ∧ prism_density c = value sample_density j i.
Proof.
  apply (X22_window_calls_use_the_prisms_of_get_prism sample_layer
           sample_density (of_Z 2) (of_Z 1) (of_Z 10) (of_Z 1) 2
           (0, 1, 0, 1)%Z).
  - by vm_compute.
  - split; reflexivity.
  - reflexivity.
  - lia.
  - by vm_compute.
Defined.

End Tiling.
Section FactorOne.
Import DatasetAccessorPrismLayer Numpy NumpySpec PrismLayer PrismLayerSpec
  PrismLayerFunctions PrismLayerFacts CoarseningFacts.
Local Open Scope Z_scope.
Local Open Scope Qc_scope.

Lemma steps_one (stop : Z) : steps stop 1 = zrange 0 stop.
Proof.
  unfold steps, zrange.
  replace ((stop + 1 - 1) / 1)%Z with (stop - 0)%Z
    by (rewrite Z.div_1_r; lia).
  apply map_ext. intros k. lia.
Qed.

Lemma block_origins_one (prisms_easting prisms_northing : list Qc) :
  block_origins prisms_easting prisms_northing 1
  = grid_cells prisms_easting prisms_northing.
Proof. unfold block_origins, grid_cells. by rewrite !steps_one. Qed.

Lemma grid_cells_spec (prisms_easting prisms_northing : list Qc) i j :
  (i, j) ∈ grid_cells prisms_easting prisms_northing
  ↔ (0 ≤ i < size prisms_easting)%Z ∧ (0 ≤ j < size prisms_northing)%Z.
Proof. unfold grid_cells. by rewrite elem_of_product, !elem_of_zrange. Qed.

Lemma filter_ext_in {A} (P Q : A → Prop) `{∀ x, Decision (P x)}
    `{∀ x, Decision (Q x)} (l : list A) :
  (∀ x, x ∈ l → P x ↔ Q x) → filter P l = filter Q l.
Proof.
  induction l as [|a l IH]; intros Hl; [done|].
  rewrite !filter_cons.
  rewrite IH by (intros x Hx; apply Hl; by right).
  pose proof (Hl a ltac:(by left)) as Ha.
  destruct (decide (P a)), (decide (Q a)); tauto || done.
Qed.

Lemma fsum_single (v : float) : fsum [v] = lift2 Qcplus (Num 0) v.
Proof. done. Qed.

Lemma np_mean_single (a : array2) rows cols (j i : Z) :
  has_shape a (rows, cols) = true →
  (0 ≤ j < Z.of_nat rows)%Z → (0 ≤ i < Z.of_nat cols)%Z →
  np_mean (slice2 a j i 1) = value a j i.
Proof.
  intros Hshape Hj Hi.
  destruct (has_shape_cell a rows cols (Z.to_nat j) (Z.to_nat i) Hshape)
    as [v Hv]; [lia..|].
  unfold value. rewrite Hv. simpl.
  unfold cell in Hv.
  destruct (a !! Z.to_nat j) as [row|] eqn:Hrow; [|done]. simpl in Hv.
  unfold slice2. change (Z.to_nat 1) with 1%nat.
  rewrite (drop_S _ _ _ Hrow). cbn [take map].
  rewrite (drop_S _ _ _ Hv). cbn [take].
  unfold np_mean. cbn [concat app]. rewrite fsum_single.
  destruct v as [|x]; [done|]. simpl. f_equal.
  change (of_Z (size [Num x])) with (of_Z 1). rewrite of_Z_one.
  change (Q2Qc 0) with 0. field. done.
Qed.

Section Grid.

Variables (easting northing upward : Qc).
Variables (prisms_easting prisms_northing : list Qc).
Variables (prisms_bottom prisms_top prisms_densities : array2).
Hypothesis Hfits :
  grid_fits prisms_easting prisms_northing
    prisms_bottom prisms_top prisms_densities.

Local Abbreviation fine :=
  (fine_prism easting northing upward prisms_easting prisms_northing
     prisms_bottom prisms_top prisms_densities).
Local Abbreviation coarse :=
  (coarse_prism easting northing upward prisms_easting prisms_northing
     prisms_bottom prisms_top prisms_densities).

Lemma coarse_prism_one i j :
  (0 ≤ i < size prisms_easting)%Z → (0 ≤ j < size prisms_northing)%Z →
  coarse 1%Z (i, j) = fine (i, j).
Proof using Hfits.
  intros Hi Hj. destruct Hfits as (Hb & Ht & Hd). unfold size in *.
  unfold coarse_prism, coarse_prism_sized, fine_prism, fine_prism_sized.
  rewrite (np_mean_single _ _ _ j i Hb), (np_mean_single _ _ _ j i Ht),
    (np_mean_single _ _ _ j i Hd) by done.
  rewrite of_Z_one.
  f_equal; unfold half; apply Qc_is_canon; qc_to_q; cbn; field.
Qed.

Lemma evaluated_blocks_one box :
  evaluated_blocks prisms_easting prisms_northing prisms_densities 1 box
  = far_cells prisms_easting prisms_northing prisms_densities box.
Proof using Hfits.
  destruct Hfits as (_ & _ & Hd).
  unfold evaluated_blocks, far_cells. rewrite block_origins_one.
  apply filter_ext_in. intros [i j] Hin.
  apply grid_cells_spec in Hin as [Hi Hj]. unfold size in *.
  unfold evaluated, far_and_dense. cbn [fst snd].
  rewrite (np_mean_single _ _ _ j i Hd) by done.
  rewrite andb_true_iff, !negb_true_iff. done.
Qed.

End Grid.

Lemma NoDup_grid_cells (prisms_easting prisms_northing : list Qc) :
  NoDup (grid_cells prisms_easting prisms_northing).
Proof. apply NoDup_product; apply NoDup_zrange. Qed.

Lemma grid_cells_layer_cells (prisms_easting prisms_northing : list Qc) :
  grid_cells prisms_easting prisms_northing
  ≡ₚ layer_cells prisms_easting prisms_northing.
Proof.
  unfold grid_cells, layer_cells. apply (flat_map_swap (fun i j => (i, j))).
Qed.

(** X23 (_gravity_coarser).  With [factor] one no prism is coarsened: every
    kernel call is made on one cell's own prism, first for the cells of the
    window, then for the cells outside it whose density is a number.  No
    cell is passed twice.  A cell is passed exactly when it is in the
    window or its density is a number: a missing density is skipped outside
    the window but handed to the kernel inside it, and a missing top or
    bottom is never skipped. *)
Theorem X23_factor_one_calls_each_prism_at_most_once
    (easting northing upward : Qc) (prisms_easting prisms_northing : list Qc)
    (prisms_bottom prisms_top prisms_densities : array2)
    (fine_distance : Qc) (box : Z * Z * Z * Z) :
  grid_fits prisms_easting prisms_northing
    prisms_bottom prisms_top prisms_densities →
  near_window easting northing prisms_easting prisms_northing
    fine_distance 1 = Ok box →
  let cells :=
    near_cells box
    ++ far_cells prisms_easting prisms_northing prisms_densities box in
  kernel_calls easting northing upward prisms_easting prisms_northing
    prisms_bottom prisms_top prisms_densities fine_distance 1
  = Ok (map (fine_prism easting northing upward prisms_easting
               prisms_northing prisms_bottom prisms_top prisms_densities)
            cells)
  ∧ NoDup cells
  ∧ ∀ i j, (i, j) ∈ cells
           ↔ ((0 ≤ i < size prisms_easting)%Z
              ∧ (0 ≤ j < size prisms_northing)%Z)
             ∧ (in_window box i j = true
                ∨ isnan (value prisms_densities j i) = false).
Proof.
  intros Hfits Hbox cells.
  pose proof (near_window_in_grid _ _ _ _ _ _ _ Hbox) as Hgrid.
  assert (∀ i j, (i, j) ∈ far_cells prisms_easting prisms_northing
                            prisms_densities box
                 ↔ ((0 ≤ i < size prisms_easting)%Z
                    ∧ (0 ≤ j < size prisms_northing)%Z)
                   ∧ in_window box i j = false
                   ∧ isnan (value prisms_densities j i) = false) as Hfar.
  { intros i j. unfold far_cells.
    rewrite list_elem_of_filter, grid_cells_spec. unfold far_and_dense.
    cbn [fst snd]. tauto. }
  split; [|split].
  - rewrite (kernel_calls_spec _ _ _ _ _ _ _ _ _ _ box Hfits) by (lia || done).
    rewrite (evaluated_blocks_one _ _ _ _ _ Hfits).
    unfold cells. rewrite map_app. do 2 f_equal.
    apply map_ext_in. intros [i j] Hin%list_elem_of_In%Hfar.
    apply (coarse_prism_one _ _ _ _ _ _ _ _ Hfits); tauto.
  - apply NoDup_app. split; [apply NoDup_near_cells|]. split.
    + intros [i j] Hnear%near_cells_spec Hfar'%Hfar. destruct Hfar' as (_ & ? & _).
      congruence.
    + apply NoDup_filter, NoDup_grid_cells.
  - intros i j. unfold cells. rewrite elem_of_app, Hfar, near_cells_spec.
    split.
    + intros [Hwin|(Hin & _ & Hd)]; [|tauto].
      split; [|by left].
      apply (near_cells_in_grid prisms_easting prisms_northing box i j Hgrid).
      by apply near_cells_spec.
    + intros (Hin & [Hwin|Hd]); [by left|].
      destruct (in_window box i j) eqn:Hw; [by left|right]. tauto.
Qed.

Lemma X23_factor_one_calls_each_prism_at_most_once_witness :
  let cells :=
    near_cells (0, 2, 0, 1)%Z
    ++ far_cells (PrismLayer.easting sample_layer)
         (PrismLayer.northing sample_layer) sample_density (0, 2, 0, 1)%Z in
  kernel_calls (of_Z 2) (of_Z 1) (of_Z 10) (PrismLayer.easting sample_layer)
    (PrismLayer.northing sample_layer) (bottom sample_layer)
    (top sample_layer) sample_density (of_Z 1) 1
  = Ok (map (fine_prism (of_Z 2) (of_Z 1) (of_Z 10)
               (PrismLayer.easting sample_layer)
               (PrismLayer.northing sample_layer) (bottom sample_layer)
               (top sample_layer) sample_density)
            cells)
  ∧ NoDup cells
  ∧ ∀ i j, (i, j) ∈ cells
           ↔ ((0 ≤ i < size (PrismLayer.easting sample_layer))%Z
              ∧ (0 ≤ j < size (PrismLayer.northing sample_layer))%Z)
             ∧ (in_window (0, 2, 0, 1)%Z i j = true
                ∨ isnan (value sample_density j i) = false).
Proof.
  apply (X23_factor_one_calls_each_prism_at_most_once (of_Z 2) (of_Z 1)
           (of_Z 10) (PrismLayer.easting sample_layer)
           (PrismLayer.northing sample_layer) (bottom sample_layer)
           (top sample_layer) sample_density (of_Z 1) (0, 2, 0, 1)%Z).
  - repeat split; reflexivity.
  - by vm_compute.
Defined.

(** X24 (_gravity_coarser).  With [factor] one the coarsened forward model
    is exact whatever the fine distance: on regular centres with no missing
    density, and an accumulation that is associative and commutative, the
    result is the exact summation over all the prisms of the layer, for
    every observation point and every [fine_distance]. *)
Theorem X24_factor_one_is_exact {V : Type} (zero : V) (add : V → V → V)
    (forward_func : @forward_kernel V)
    (easting northing upward : Qc) (prisms_easting prisms_northing : list Qc)
    (prisms_bottom prisms_top prisms_densities : array2)
    (first_e spacing_e first_n spacing_n fine_distance : Qc) :
  (∀ x y z, add x (add y z) = add (add x y) z) →
  (∀ x y, add x y = add y x) →
  regular prisms_easting first_e spacing_e →
  regular prisms_northing first_n spacing_n →
  grid_fits prisms_easting prisms_northing
    prisms_bottom prisms_top prisms_densities →
  no_missing_density prisms_easting prisms_northing prisms_densities →
  _gravity_coarser zero add forward_func easting northing upward
    prisms_easting prisms_northing prisms_bottom prisms_top prisms_densities
    fine_distance 1
  = Ok (exact_summation easting northing upward prisms_easting
          prisms_northing prisms_bottom prisms_top prisms_densities
          zero add forward_func).
Proof.
  intros Hassoc Hcomm He Hn Hfits Hdense.
  assert (∃ box, near_window easting northing prisms_easting prisms_northing
                   fine_distance 1 = Ok box) as [box Hbox].
  { rewrite (near_window_regular_unfold _ _ _ _ _ _ _ _ _ _ He Hn).
    destruct He as (Hse & _). destruct Hn as (Hsn & _).
    assert (spacing_e ≠ 0) as Hse' by (by apply not_eq_sym, Qclt_not_eq).
    assert (spacing_n ≠ 0) as Hsn' by (by apply not_eq_sym, Qclt_not_eq).
    unfold floor_div. rewrite of_Z_one, !Qcmult_1_r.
    rewrite !(decide_False (P := spacing_e = 0)) by done.
    rewrite !(decide_False (P := spacing_n = 0)) by done.
    cbn [mbind result_bind Ok]. by eexists. }
  pose proof (near_window_in_grid _ _ _ _ _ _ _ Hbox) as Hgrid.
  rewrite (gravity_coarser_fold zero add forward_func _ _ _ _ _ _ _ _ Hfits
             fine_distance 1 box ltac:(lia) Hbox).
  rewrite (evaluated_blocks_one _ _ _ _ _ Hfits).
  unfold exact_summation. f_equal.
  transitivity
    (fold_left (fun acc c => add acc (apply_kernel forward_func c))
       (map (fine_prism easting northing upward prisms_easting
               prisms_northing prisms_bottom prisms_top prisms_densities)
            (near_cells box
             ++ far_cells prisms_easting prisms_northing prisms_densities box))
       zero).
  { f_equal. rewrite map_app. f_equal.
    apply map_ext_in. intros [i j] Hin%list_elem_of_In.
    apply list_elem_of_filter in Hin as [_ Hin%grid_cells_spec].
    apply (coarse_prism_one _ _ _ _ _ _ _ _ Hfits); tauto. }
  apply fold_left_permutation.
  - intros s a b. by rewrite <- !Hassoc, (Hcomm (apply_kernel _ a)).
  - apply Permutation_map. rewrite <- grid_cells_layer_cells.
    apply NoDup_Permutation.
    + apply NoDup_app. split; [apply NoDup_near_cells|]. split.
      * intros [i j] Hnear%near_cells_spec
          [[Hw _] _]%list_elem_of_filter. cbn [fst snd] in Hw. congruence.
      * apply NoDup_filter, NoDup_grid_cells.
    + apply NoDup_grid_cells.
    + intros [i j]. rewrite elem_of_app. split.
      * intros [Hnear|[_ Hin]%list_elem_of_filter]; [|done].
        apply grid_cells_spec.
        by apply (near_cells_in_grid prisms_easting prisms_northing box).
      * intros Hin. destruct (in_window box i j) eqn:Hw.
        -- left. by apply near_cells_spec.
        -- right. apply list_elem_of_filter. split; [|done].
           split; [done|]. apply grid_cells_spec in Hin as [Hi Hj].
           by apply Hdense.
Qed.

Lemma X24_factor_one_is_exact_witness :
  let count : @forward_kernel Z := fun _ _ _ _ _ _ _ _ _ _ => 1%Z in
  _gravity_coarser 0%Z Z.add count (of_Z 2) (of_Z 1) (of_Z 10)
    (PrismLayer.easting sample_layer) (PrismLayer.northing sample_layer)
    (bottom sample_layer) (top sample_layer) (bottom sample_layer) (of_Z 1) 1
  = Ok (exact_summation (of_Z 2) (of_Z 1) (of_Z 10)
          (PrismLayer.easting sample_layer) (PrismLayer.northing sample_layer)
          (bottom sample_layer) (top sample_layer) (bottom sample_layer)
          0%Z Z.add count).
Proof.
  apply (X24_factor_one_is_exact 0%Z Z.add
           (fun _ _ _ _ _ _ _ _ _ _ => 1%Z) (of_Z 2) (of_Z 1) (of_Z 10)
           (PrismLayer.easting sample_layer) (PrismLayer.northing sample_layer)
           (bottom sample_layer) (top sample_layer) (bottom sample_layer)
           (of_Z 0) (of_Z 2) (of_Z 1) (of_Z 3) (of_Z 1)).
  - intros; lia.
  - intros; lia.
  - apply sample_layer_regular.
  - apply sample_layer_regular.
  - repeat split; reflexivity.
  - intros i j Hi Hj. unfold size in *. simpl in Hi, Hj.
    assert (i = 0 ∨ i = 1 ∨ i = 2)%Z as [->|[->| ->]] by lia;
      assert (j = 0 ∨ j = 1)%Z as [->| ->] by lia; reflexivity.
Defined.

End FactorOne.
Section ThinPrisms.
Import Numpy NumpySpec PrismLayer PrismLayerFunctions ThinPrismFacts.

Lemma select_map_filter {A} (f : A → bool) (a : list A) :
  select a (map f a) = filter (fun x => f x = true) a.
Proof.
  induction a as [|x a IH]; simpl; [done|].
  rewrite filter_cons, IH. by destruct (f x).
Qed.

Lemma select_zip {A B} (a : list A) (b : list B) (mask : list bool) :
  zip (select a mask) (select b mask) = select (zip a b) mask.
Proof.
  revert b mask; induction a as [|x a IH]; intros b mask; [done|].
  destruct b as [|y b], mask as [|m mask]; simpl; try done.
  - destruct m; simpl; [done|]. by destruct (select a mask).
  - destruct m; simpl; by rewrite IH.
Qed.

Lemma length_select {A B} (a : list A) (b : list B) (mask : list bool) :
  length a = length b → length (select a mask) = length (select b mask).
Proof.
  revert b mask; induction a as [|x a IH]; intros [|y b] [|m mask] Hlen;
    simpl in *; try done.
  destruct m; simpl; rewrite (IH b mask) by lia; done.
Qed.

Lemma select_all {A} (a : list A) (mask : list bool) :
  length mask = length a → Forall (fun m => m = true) mask →
  select a mask = a.
Proof.
  revert mask; induction a as [|x a IH]; intros [|m mask] Hlen Hall;
    simpl in *; try done.
  apply Forall_cons in Hall as [-> Hall]. rewrite IH by (lia || done). done.
Qed.

Lemma select_map_fst {A B} (f : A → bool) (a : list A) (b : list B) :
  length b = length a →
  select (zip a b) (map f a) = filter (fun ab => f ab.1 = true) (zip a b).
Proof.
  intros Hlen.
  replace (map f a) with (map (fun ab : A * B => f ab.1) (zip a b)).
  - apply select_map_filter.
  - revert b Hlen; induction a as [|x a IH]; intros [|y b] Hlen;
      simpl in *; try done.
    rewrite IH by lia. done.
Qed.

Lemma discard_thin_prisms_mask prisms threshold :
  map negb
    (map (fun t => flt t threshold)
         (map (fun p => fminus (top_of p) (bottom_of p)) prisms))
  = map (thick threshold) prisms.
Proof. rewrite !map_map. done. Qed.

(** X25 (_discard_thin_prisms).  With one density per prism the function
    keeps the prisms and their densities together and in order: the pairs
    that come out are the pairs that went in whose thickness is not below
    the threshold.  A prism whose thickness is not-a-number is kept.
    Discarding again with the same threshold changes nothing. *)
Theorem X25_discard_thin_prisms_keeps_pairs (prisms : list prism)
    (density : list float) (thickness_threshold : float) :
  length density = length prisms →
  ∃ kept_prisms kept_density,
    _discard_thin_prisms prisms density thickness_threshold
    = Ok (kept_prisms, kept_density)
    ∧ length kept_density = length kept_prisms
    ∧ zip kept_prisms kept_density
      = filter (fun pd => thick thickness_threshold pd.1 = true)
               (zip prisms density)
    ∧ (∀ p, p ∈ prisms → isnan (fminus (top_of p) (bottom_of p)) = true →
            p ∈ kept_prisms)
    ∧ _discard_thin_prisms kept_prisms kept_density thickness_threshold
      = Ok (kept_prisms, kept_density).
Proof.
  intros Hlen. unfold _discard_thin_prisms. cbv zeta.
  rewrite !discard_thin_prisms_mask. unfold boolean_index.
  rewrite !decide_True by (by rewrite length_map).
  cbn [mbind result_bind Ok].
  set (mask := map (thick thickness_threshold) prisms).
  exists (select prisms mask), (select density mask).
  split; [done|].
  assert (length (select density mask) = length (select prisms mask)) as Hk
    by (by apply length_select).
  split; [done|]. split.
  { rewrite select_zip. by apply select_map_fst. }
  assert (select prisms mask
          = filter (fun p => thick thickness_threshold p = true) prisms)
    as Hfilter by apply select_map_filter.
  split.
  { intros p Hp Hnan. rewrite Hfilter. apply list_elem_of_filter.
    split; [|done]. unfold thick.
    by destruct (fminus (top_of p) (bottom_of p)). }
  rewrite !discard_thin_prisms_mask.
  rewrite (decide_True (P := length (select prisms mask) = _))
    by (by rewrite length_map).
  cbn [mbind result_bind Ok].
  rewrite (decide_True (P := length (select density mask) = _))
    by (by rewrite length_map).
  cbn [mbind result_bind Ok].
  assert (Forall (fun m => m = true)
            (map (thick thickness_threshold) (select prisms mask))) as Hall.
  { apply Forall_forall. intros m Hm%list_elem_of_In.
    apply in_map_iff in Hm as (p & <- & Hp%list_elem_of_In).
    rewrite Hfilter in Hp. by apply list_elem_of_filter in Hp as [? _]. }
  rewrite (select_all (select prisms mask)) by (done || by rewrite length_map).
  rewrite (select_all (select density mask))
    by (done || (rewrite length_map; congruence)).
  done.
Qed.

Lemma X25_discard_thin_prisms_keeps_pairs_witness :
  let prisms : list prism :=
    [(of_Z 0, of_Z 1, of_Z 0, of_Z 1, Num (of_Z 0), Num (of_Z 5));
     (of_Z 1, of_Z 2, of_Z 0, of_Z 1, Num (of_Z 0), Num (of_Z 1));
     (of_Z 2, of_Z 3, of_Z 0, of_Z 1, Num (of_Z 0), NaN)] in
  let density := [Num (of_Z 2670); Num (of_Z 2900); Num (of_Z 3300)] in
  ∃ kept_prisms kept_density,
    _discard_thin_prisms prisms density (Num (of_Z 2))
    = Ok (kept_prisms, kept_density)
    ∧ length kept_density = length kept_prisms
    ∧ zip kept_prisms kept_density
      = filter (fun pd => thick (Num (of_Z 2)) pd.1 = true)
               (zip prisms density)
    ∧ (∀ p, p ∈ prisms → isnan (fminus (top_of p) (bottom_of p)) = true →
            p ∈ kept_prisms)
    ∧ _discard_thin_prisms kept_prisms kept_density (Num (of_Z 2))
      = Ok (kept_prisms, kept_density).
Proof.
  apply (X25_discard_thin_prisms_keeps_pairs
           [(of_Z 0, of_Z 1, of_Z 0, of_Z 1, Num (of_Z 0), Num (of_Z 5));
            (of_Z 1, of_Z 2, of_Z 0, of_Z 1, Num (of_Z 0), Num (of_Z 1));
            (of_Z 2, of_Z 3, of_Z 0, of_Z 1, Num (of_Z 0), NaN)]
           [Num (of_Z 2670); Num (of_Z 2900); Num (of_Z 3300)]
           (Num (of_Z 2))).
  reflexivity.
Defined.

End ThinPrisms.
Section RowMajor.
Import DatasetAccessorPrismLayer Numpy NumpySpec PrismLayer PrismLayerSpec
  PrismLayerFunctions PrismLayerFacts.
Local Open Scope Z_scope.

Lemma lookup_zrange (n : nat) (k : nat) :
  (k < n)%nat → zrange 0 (Z.of_nat n) !! k = Some (Z.of_nat k).
Proof.
  intros Hk. unfold zrange. change (map ?f ?l) with (f <$> l).
  rewrite list_lookup_fmap, lookup_seq_lt by lia. simpl; f_equal; lia.
Qed.

Lemma length_zrange (n : nat) : length (zrange 0 (Z.of_nat n)) = n.
Proof. unfold zrange. rewrite length_map, length_seq. lia. Qed.

Lemma map_const_length {A B C} (c : C) (l : list A) (k : list B) :
  length l = length k → map (fun _ => c) l = map (fun _ => c) k.
Proof.
  revert k; induction l as [|x l IH]; intros [|y k] Hlen; simpl in *;
    try done.
  f_equal. apply IH. lia.
Qed.

Lemma list_by_index {A} (d : A) (a : list A) :
  a = map (fun k => default d (a !! Z.to_nat k))
          (zrange 0 (Z.of_nat (length a))).
Proof.
  apply (list_eq_same_length _ _ (length a));
    [by rewrite length_map, length_zrange|done|].
  intros k x y Hk Hx. change (map ?f ?l) with (f <$> l).
  rewrite list_lookup_fmap, lookup_zrange by done. simpl.
  rewrite Nat2Z.id, Hx. simpl. congruence.
Qed.

Lemma centres_by_index (a : list Qc) :
  a = map (centre a) (zrange 0 (size a)).
Proof. apply (list_by_index 0%Qc). Qed.

Lemma array_by_cells (a : array2) rows cols :
  has_shape a (rows, cols) = true →
  a = map (fun j => map (fun i => value a j i) (zrange 0 (Z.of_nat cols)))
          (zrange 0 (Z.of_nat rows)).
Proof.
  intros Hshape. destruct (has_shape_rows a rows cols Hshape) as [Hlen Hrows].
  apply (list_eq_same_length _ _ rows);
    [by rewrite length_map, length_zrange|done|].
  intros j row row' Hj Hrow. change (map ?f ?l) with (f <$> l).
  rewrite list_lookup_fmap, lookup_zrange by done. simpl. intros [= <-].
  assert (length row = cols) as Hcols.
  { rewrite Forall_forall in Hrows. apply Hrows.
    by eapply list_elem_of_lookup_2. }
  apply (list_eq_same_length _ _ cols);
    [by rewrite length_fmap, length_zrange|done|].
  intros i x y Hi Hx. rewrite list_lookup_fmap, lookup_zrange by done.
  simpl. intros [= <-]. unfold value, cell. rewrite !Nat2Z.id, Hrow.
  simpl. by rewrite Hx.
Qed.

Lemma map_layer_cells {A} (f : Z → Z → A) (prisms_easting prisms_northing
    : list Qc) :
  map (fun ij : Z * Z => f ij.2 ij.1)
      (layer_cells prisms_easting prisms_northing)
  = concat (map (fun j => map (fun i => f j i)
                              (zrange 0 (size prisms_easting)))
                (zrange 0 (size prisms_northing))).
Proof.
  unfold layer_cells. rewrite flat_map_concat_map, concat_map, map_map.
  f_equal. apply map_ext. intros j. by rewrite map_map.
Qed.

(** A grid-shaped array, flattened, lists its values cell by cell,
    northing index outermost. *)
Lemma ravel_layer_cells (a : array2) (prisms_easting prisms_northing
    : list Qc) :
  has_shape a (length prisms_northing, length prisms_easting) = true →
  ravel a = map (fun ij : Z * Z => value a ij.2 ij.1)
                (layer_cells prisms_easting prisms_northing).
Proof.
  intros Hshape. rewrite (map_layer_cells (value a)). unfold ravel, size.
  by rewrite <- (array_by_cells a _ _ Hshape).
Qed.

Lemma ravel_meshgrid (x y : list Qc) :
  ravel (meshgrid x y).1
  = map (fun ij : Z * Z => centre x ij.1) (layer_cells x y)
  ∧ ravel (meshgrid x y).2
    = map (fun ij : Z * Z => centre y ij.2) (layer_cells x y).
Proof.
  unfold ravel, meshgrid. cbn [fst snd]. split.
  - rewrite (map_layer_cells (fun _ i => centre x i)). f_equal.
    rewrite <- centres_by_index. apply map_const_length.
    unfold size. by rewrite length_zrange.
  - rewrite (map_layer_cells (fun j _ => centre y j)). f_equal.
    rewrite (centres_by_index y) at 1. rewrite map_map.
    apply map_ext. intros j. apply map_const_length.
    unfold size. by rewrite length_zrange.
Qed.

Lemma length_layer_cells (prisms_easting prisms_northing : list Qc) :
  length (layer_cells prisms_easting prisms_northing)
  = (length prisms_northing * length prisms_easting)%nat.
Proof.
  unfold layer_cells. rewrite flat_map_concat_map.
  rewrite (length_concat_uniform _ (length prisms_easting)).
  - unfold size. by rewrite length_map, length_zrange.
  - apply Forall_forall.
    intros row (j & <- & _)%list_elem_of_In%in_map_iff.
    unfold size. by rewrite length_map, length_zrange.
Qed.

(** [_to_prisms] in closed form. *)
Lemma to_prisms_layer_cells (self : layer) :
  _check_regular_grid (easting self) (northing self) = Ok tt →
  well_shaped self →
  _to_prisms self
  = Ok (map (fun ij : Z * Z => prism_at self ij.2 ij.1)
            (layer_cells (easting self) (northing self))).
Proof.
  intros Hcheck [Htop Hbottom]. unfold shape in *.
  unfold _to_prisms, _get_prism_horizontal_boundaries_arrays.
  destruct (ravel_meshgrid (easting self) (northing self)) as [Hme Hmn].
  destruct (meshgrid (easting self) (northing self)) as [me mn].
  cbn [fst snd] in Hme, Hmn.
  rewrite (spacing_of_check self Hcheck). cbn [mbind result_bind Ok].
  rewrite Hme, Hmn, (ravel_layer_cells _ _ _ Htop),
    (ravel_layer_cells _ _ _ Hbottom).
  rewrite !zip_with_map_same. unfold vstack_T.
  rewrite decide_True by (by rewrite !length_map).
  by rewrite !zip_with_map_same.
Qed.

End RowMajor.
Section Masks.
Import DatasetAccessorPrismLayer Numpy NumpySpec PrismLayer PrismLayerSpec
  PrismLayerFunctions PrismLayerFacts CoarseningFacts ThinPrismFacts MaskFacts.
Local Open Scope Z_scope.

Lemma ravel_map {A B} (f : A → B) (a : list (list A)) :
  ravel (map (map f) a) = map f (ravel a).
Proof. unfold ravel. by rewrite concat_map. Qed.

Lemma ravel_zip_with {A B C} (f : A → B → C) (a : list (list A))
    (b : list (list B)) cols :
  length a = length b →
  Forall (fun row => length row = cols) a →
  Forall (fun row => length row = cols) b →
  ravel (zip_with (zip_with f) a b) = zip_with f (ravel a) (ravel b).
Proof.
  unfold ravel. intros Hlen Ha. revert b Hlen.
  induction Ha as [|ra a Hra _ IH]; intros [|rb b] Hlen Hb; simpl in *;
    try done.
  apply Forall_cons in Hb as [Hrb Hb].
  rewrite zip_with_app by congruence. rewrite IH by (lia || done). done.
Qed.

Lemma has_shape_map {A B} (f : A → B) (a : list (list A)) rows cols :
  length a = rows ∧ Forall (fun row => length row = cols) a →
  length (map (map f) a) = rows
  ∧ Forall (fun row => length row = cols) (map (map f) a).
Proof.
  intros [Hlen Hrows]. split; [by rewrite length_map|].
  apply Forall_forall. intros row (r & <- & Hr%list_elem_of_In)
    %list_elem_of_In%in_map_iff.
  rewrite length_map. rewrite Forall_forall in Hrows. by apply Hrows.
Qed.

Lemma has_shape_zip_with {A B C} (f : A → B → C) (a : list (list A))
    (b : list (list B)) rows cols :
  length a = rows ∧ Forall (fun row => length row = cols) a →
  length b = rows ∧ Forall (fun row => length row = cols) b →
  length (zip_with (zip_with f) a b) = rows
  ∧ Forall (fun row => length row = cols) (zip_with (zip_with f) a b).
Proof.
  intros [Hla Ha] [Hlb Hb]. split; [rewrite length_zip_with; lia|].
  clear Hla Hlb. revert b Hb.
  induction Ha as [|ra a Hra _ IH]; intros [|rb b] Hb; simpl; try done.
  apply Forall_cons in Hb as [Hrb Hb]. constructor; [|by apply IH].
  rewrite length_zip_with. lia.
Qed.

Lemma select_map_map {A B} (f : A → B) (m : A → bool) (l : list A) :
  select (map f l) (map m l) = map f (filter (fun x => m x = true) l).
Proof.
  induction l as [|x l IH]; simpl; [done|].
  rewrite filter_cons, IH. by destruct (m x).
Qed.

Lemma layer_cells_spec (prisms_easting prisms_northing : list Qc) i j :
  (i, j) ∈ layer_cells prisms_easting prisms_northing
  ↔ (0 ≤ i < size prisms_easting)%Z ∧ (0 ≤ j < size prisms_northing)%Z.
Proof. by rewrite <- grid_cells_layer_cells, grid_cells_spec. Qed.

Section Layer.

Variables (self : layer) (values : array2).
Hypothesis Hshaped : well_shaped self.
Hypothesis Hvalues : has_shape values (shape self) = true.

Local Abbreviation cells := (layer_cells (easting self) (northing self)).
Local Abbreviation number := (fun v : float => negb (isnan v)).

Lemma ravel_boundaries_mask :
  ravel (zip_with (zip_with andb) (map (map number) (top self))
           (map (map number) (bottom self)))
  = map (bounded self) cells.
Proof using Hshaped.
  destruct Hshaped as [Htop Hbottom]. unfold shape in *.
  pose proof (has_shape_rows _ _ _ Htop) as Ht.
  pose proof (has_shape_rows _ _ _ Hbottom) as Hb.
  pose proof (has_shape_map number _ _ _ Ht) as [Hlt Hrt].
  pose proof (has_shape_map number _ _ _ Hb) as [Hlb Hrb].
  rewrite (ravel_zip_with _ _ _ (length (easting self)))
    by (done || congruence).
  rewrite !ravel_map, (ravel_layer_cells _ _ _ Htop),
    (ravel_layer_cells _ _ _ Hbottom), !map_map.
  by rewrite zip_with_map_same.
Qed.

Lemma ravel_property_mask :
  ravel (map (map number) values)
  = map (fun ij : Z * Z => number (value values ij.2 ij.1)) cells.
Proof using Hvalues.
  unfold shape in *.
  by rewrite ravel_map, (ravel_layer_cells _ _ _ Hvalues), map_map.
Qed.

Lemma ravel_nonans_mask :
  ravel (_get_nonans_mask self (Some values)).1
  = map (complete self values) cells.
Proof using Hshaped Hvalues.
  pose proof ravel_boundaries_mask as Hmask.
  pose proof ravel_property_mask as Hprop.
  destruct Hshaped as [Htop Hbottom]. unfold shape in *.
  pose proof (has_shape_rows _ _ _ Htop) as Ht.
  pose proof (has_shape_rows _ _ _ Hbottom) as Hb.
  pose proof (has_shape_rows _ _ _ Hvalues) as Hv.
  pose proof (has_shape_zip_with andb _ _ _ _
                (has_shape_map number _ _ _ Ht)
                (has_shape_map number _ _ _ Hb)) as [Hlm Hrm].
  pose proof (has_shape_map number _ _ _ Hv) as [Hlv Hrv].
  unfold _get_nonans_mask. cbn [fst].
  rewrite (ravel_zip_with _ _ _ (length (easting self)))
    by (done || congruence).
  rewrite Hmask, Hprop. by rewrite zip_with_map_same.
Qed.

Lemma nonans_mask_warned :
  (_get_nonans_mask self (Some values)).2 = true
  ↔ ∃ i j, ((0 ≤ i < size (easting self))%Z
            ∧ (0 ≤ j < size (northing self))%Z)
           ∧ bounded self (i, j) = true
           ∧ isnan (value values j i) = true.
Proof using Hshaped Hvalues.
  unfold _get_nonans_mask. cbn [snd].
  rewrite ravel_boundaries_mask, ravel_property_mask, select_map_map.
  rewrite negb_true_iff, <- not_true_iff_false, forallb_forall.
  split.
  - intros Hnot.
    destruct (decide (Exists (fun ij : Z * Z =>
                bounded self ij = true ∧ isnan (value values ij.2 ij.1) = true)
                cells)) as [Hex|Hnone].
    + apply Exists_exists in Hex as ([i j] & Hin & Hb & Hnan).
      exists i, j. by apply layer_cells_spec in Hin.
    + exfalso. apply Hnot. intros b (ij & <- & Hin)%in_map_iff.
      apply list_elem_of_In, list_elem_of_filter in Hin as [Hb Hin].
      destruct (isnan (value values ij.2 ij.1)) eqn:Hnan; [|done].
      exfalso. apply Hnone, Exists_exists. by exists ij.
  - intros (i & j & Hin & Hb & Hnan) Hall.
    assert (negb (isnan (value values j i)) = true) as Hnum.
    { apply Hall, in_map_iff. exists (i, j). split; [done|].
      apply list_elem_of_In, list_elem_of_filter. split; [done|].
      by apply layer_cells_spec. }
    by rewrite Hnan in Hnum.
Qed.

End Layer.

Lemma cell_map {A B} (f : A → B) (a : list (list A)) j i :
  cell (map (map f) a) j i = f <$> cell a j i.
Proof.
  unfold cell. change (map (map f) a) with (map f <$> a).
  rewrite list_lookup_fmap. destruct (a !! j) as [row|]; simpl; [|done].
  change (map f row) with (f <$> row). by rewrite list_lookup_fmap.
Qed.

Lemma cell_value (a : array2) rows cols (j i : Z) :
  has_shape a (rows, cols) = true →
  (0 ≤ j < Z.of_nat rows)%Z → (0 ≤ i < Z.of_nat cols)%Z →
  cell a (Z.to_nat j) (Z.to_nat i) = Some (value a j i).
Proof.
  intros Hshape Hj Hi.
  destruct (has_shape_cell a rows cols (Z.to_nat j) (Z.to_nat i) Hshape)
    as [v Hv]; [lia..|].
  unfold value. by rewrite Hv.
Qed.

(** X26 (_get_nonans_mask).  On a layer whose arrays have the shape of the
    grid, the mask holds at a cell exactly when its top, its bottom and the
    value of the property are all numbers (top and bottom alone when no
    property is named), and the warning about missing property values is
    issued exactly when some cell has a top and a bottom but no value of
    the property; without a property no warning is issued. *)
Theorem X26_mask_of_complete_cells (self : layer) (values : array2) :
  well_shaped self → has_shape values (shape self) = true →
  let with_property := _get_nonans_mask self (Some values) in
  let boundaries_only := _get_nonans_mask self None in
  (∀ i j, (0 ≤ i < size (easting self))%Z → (0 ≤ j < size (northing self))%Z →
     cell with_property.1 (Z.to_nat j) (Z.to_nat i)
     = Some (complete self values (i, j))
     ∧ cell boundaries_only.1 (Z.to_nat j) (Z.to_nat i)
       = Some (bounded self (i, j)))
  ∧ (with_property.2 = true
     ↔ ∃ i j, ((0 ≤ i < size (easting self))%Z
               ∧ (0 ≤ j < size (northing self))%Z)
              ∧ bounded self (i, j) = true
              ∧ isnan (value values j i) = true)
  ∧ boundaries_only.2 = false.
Proof.
  intros Hshaped Hvalues with_property boundaries_only.
  split; [|split; [by apply nonans_mask_warned|done]].
  intros i j Hi Hj. destruct Hshaped as [Htop Hbottom].
  unfold shape, size in *.
  unfold with_property, boundaries_only, _get_nonans_mask. cbn [fst].
  rewrite !cell_zip_with, !cell_map.
  rewrite (cell_value _ _ _ j i Htop), (cell_value _ _ _ j i Hbottom),
    (cell_value _ _ _ j i Hvalues) by done.
  done.
Qed.

Lemma X26_mask_of_complete_cells_witness :
  let with_property := _get_nonans_mask sample_layer (Some sample_density) in
  let boundaries_only := _get_nonans_mask sample_layer None in
  (∀ i j, (0 ≤ i < size (easting sample_layer))%Z →
          (0 ≤ j < size (northing sample_layer))%Z →
     cell with_property.1 (Z.to_nat j) (Z.to_nat i)
     = Some (complete sample_layer sample_density (i, j))
     ∧ cell boundaries_only.1 (Z.to_nat j) (Z.to_nat i)
       = Some (bounded sample_layer (i, j)))
  ∧ (with_property.2 = true
     ↔ ∃ i j, ((0 ≤ i < size (easting sample_layer))%Z
               ∧ (0 ≤ j < size (northing sample_layer))%Z)
              ∧ bounded sample_layer (i, j) = true
              ∧ isnan (value sample_density j i) = true)
  ∧ boundaries_only.2 = false.
Proof.
  apply (X26_mask_of_complete_cells sample_layer sample_density).
  - split; reflexivity.
  - reflexivity.
Defined.

Lemma filter_all {A} (l : list A) : filter (fun _ : A => True) l = l.
Proof.
  induction l as [|x l IH]; [done|].
  by rewrite filter_cons, decide_True, IH.
Qed.

Section Gravity.

Context {Coordinates Out : Type}.
Variable prism_gravity :
  Coordinates → list prism → list float → string → result Out.

Lemma discard_thin_prisms_map {A} (f : A → prism) (g : A → float)
    (l : list A) (threshold : float) :
  _discard_thin_prisms (map f l) (map g l) threshold
  = Ok (map f (filter (fun x => thick threshold (f x) = true) l),
        map g (filter (fun x => thick threshold (f x) = true) l)).
Proof.
  unfold _discard_thin_prisms. cbv zeta.
  rewrite discard_thin_prisms_mask. unfold boolean_index.
  rewrite !decide_True by (by rewrite !length_map).
  cbn [mbind result_bind Ok].
  rewrite map_map, !select_map_map. done.
Qed.

(** X27 (gravity, _to_prisms, _get_nonans_mask, _discard_thin_prisms).
    What [gravity] hands to [prism_gravity]: on a layer that passes the grid
    check, the prisms of the cells that have a top, a bottom and a density
    and, when a thickness threshold is given, are not thinner than it, in
    row-major order, each with the density of its cell; the coordinates and
    the field are passed on unchanged, and the result is returned as it
    is, with the warning of the mask. *)
Theorem X27_gravity_passes_the_complete_prisms (self : layer)
    (coordinates : Coordinates) (field : string) (density : array2)
    (thickness_threshold : option float) :
  _check_regular_grid (easting self) (northing self) = Ok tt →
  well_shaped self → has_shape density (shape self) = true →
  let cells := passed_cells self density thickness_threshold in
  gravity prism_gravity self coordinates field density thickness_threshold
  = (out ← prism_gravity coordinates
             (map (fun ij : Z * Z => prism_at self ij.2 ij.1) cells)
             (map (fun ij : Z * Z => value density ij.2 ij.1) cells) field;
     Ok ((_get_nonans_mask self (Some density)).2, out)).
Proof.
  intros Hcheck Hshaped Hdensity cells. unfold gravity.
  rewrite (to_prisms_layer_cells self Hcheck Hshaped).
  cbn [mbind result_bind Ok].
  pose proof (ravel_nonans_mask self density Hshaped Hdensity) as Hmask.
  destruct (_get_nonans_mask self (Some density)) as [mask warned].
  cbn [fst snd] in *. unfold shape in *.
  rewrite Hmask, (ravel_layer_cells _ _ _ Hdensity).
  unfold boolean_index.
  rewrite !decide_True by (by rewrite !length_map).
  cbn [mbind result_bind Ok]. rewrite !select_map_map.
  set (full := filter (fun ij => complete self density ij = true)
                 (layer_cells (easting self) (northing self))).
  assert (match thickness_threshold with
          | Some threshold =>
              _discard_thin_prisms
                (map (fun ij : Z * Z => prism_at self ij.2 ij.1) full)
                (map (fun ij : Z * Z => value density ij.2 ij.1) full)
                threshold
          | None =>
              Ok (map (fun ij : Z * Z => prism_at self ij.2 ij.1) full,
                  map (fun ij : Z * Z => value density ij.2 ij.1) full)
          end
          = Ok (map (fun ij : Z * Z => prism_at self ij.2 ij.1) cells,
                map (fun ij : Z * Z => value density ij.2 ij.1) cells))
    as ->; [|done].
  assert (∀ (P : Z * Z → Prop) (Hdec : ∀ x, Decision (P x)),
            (∀ ij, passed self density thickness_threshold ij = true
                   ↔ P ij ∧ complete self density ij = true) →
            filter P full = cells) as Hcells.
  { intros P ? HP. unfold full, cells, passed_cells.
    rewrite list_filter_filter. apply filter_ext_in. intros ij _.
    by rewrite HP. }
  destruct thickness_threshold as [threshold|].
  - rewrite discard_thin_prisms_map.
    rewrite (Hcells (fun ij => thick threshold (prism_at self ij.2 ij.1)
                               = true) _); [done|].
    intros ij. unfold passed. rewrite andb_true_iff. tauto.
  - rewrite <- (Hcells (fun _ => True) _).
    + by rewrite filter_all.
    + intros ij. unfold passed. rewrite andb_true_iff. tauto.
Qed.

End Gravity.

Lemma X27_gravity_passes_the_complete_prisms_witness :
  let count : unit → list prism → list float → string → result (nat * nat) :=
    fun _ prisms density _ => Ok (length prisms, length density) in
  let cells := passed_cells sample_layer sample_density (Some (Num (of_Z 6))) in
  gravity count sample_layer tt "g_z" sample_density (Some (Num (of_Z 6)))
  = (out ← count tt
             (map (fun ij : Z * Z => prism_at sample_layer ij.2 ij.1) cells)
             (map (fun ij : Z * Z => value sample_density ij.2 ij.1) cells)
             "g_z";
     Ok ((_get_nonans_mask sample_layer (Some sample_density)).2, out)).
Proof.
  apply (X27_gravity_passes_the_complete_prisms
           (fun _ prisms density _ => Ok (length prisms, length density))
           sample_layer tt "g_z" sample_density (Some (Num (of_Z 6)))).
  - by vm_compute.
  - split; reflexivity.
  - reflexivity.
Defined.

End Masks.
Section AccessorGravityCoarser.
Import DatasetAccessorPrismLayer Numpy NumpySpec PrismLayer PrismLayerSpec
  PrismLayerFunctions PrismLayerFacts AccessorFacts.
Local Open Scope Z_scope.
Local Open Scope Qc_scope.
Local Open Scope string_scope.
Local Open Scope list_scope.

Lemma fplus_zero (v : float) : fplus (Num 0) v = v.
Proof. destruct v as [|x]; [done|]. simpl. f_equal. ring. Qed.

Section Loop.

Variables (prisms_easting prisms_northing : list Qc).
Variables (prisms_bottom prisms_top prisms_densities : array2).
Variables (forward_func : @forward_kernel float).
Variables (fine_distance : Qc) (factor : Z).

(** The value of [_gravity_coarser] at one observation point. *)
Local Abbreviation at_point :=
  (fun o : observation =>
     _gravity_coarser (Num 0) fplus forward_func o.1.1 o.1.2 o.2
       prisms_easting prisms_northing prisms_bottom prisms_top
       prisms_densities fine_distance factor).

Lemma gravity_coarser_loop (obs : list observation) (values : list float) :
  Forall2 (fun o v => at_point o = Ok v) obs values →
  PrismLayerFunctions.gravity_coarser (coordinate_arrays obs)
    prisms_easting prisms_northing prisms_bottom prisms_top prisms_densities
    forward_func fine_distance factor (replicate (length obs) (Num 0))
  = Ok values.
Proof.
  intros Hvalues. pose proof (Forall2_length _ _ _ Hvalues) as Hlen.
  unfold PrismLayerFunctions.gravity_coarser, coordinate_arrays.
  rewrite length_map.
  match goal with
  | |- for_each _ ?body _ = _ =>
      destruct (for_each_range
                  (fun k out =>
                     out = take k values
                           ++ replicate (length obs - k) (Num 0))
                  0 (length obs) body (replicate (length obs) (Num 0)))
        as (out & -> & Hout)
  end.
  - lia.
  - simpl. by rewrite Nat.sub_0_r.
  - intros k out Hk ->.
    destruct (lookup_lt_is_Some_2 obs k) as [o Ho]; [lia|].
    destruct (Forall2_lookup_l _ _ _ _ _ Hvalues Ho) as (v & Hv & Hov).
    assert (length (take k values) = k) as Htake
      by (rewrite length_take; lia).
    rewrite (index_lookup _ k (Num 0)).
    2:{ rewrite lookup_app_r by lia. rewrite Htake, Nat.sub_diag.
        apply lookup_replicate_2. lia. }
    cbn [mbind result_bind Ok].
    rewrite !(index_map _ _ _ _ Ho). cbn [mbind result_bind Ok].
    rewrite Hov. cbn [mbind result_bind Ok].
    eexists. split; [done|]. rewrite fplus_zero.
    rewrite insert_app_r_alt by lia. rewrite Htake, Nat.sub_diag.
    replace (length obs - k)%nat with (S (length obs - S k)) by lia.
    simpl. rewrite (take_S_r _ _ _ Hv). by rewrite <- app_assoc.
  - rewrite Hout, Hlen, firstn_all, Nat.sub_diag. by rewrite app_nil_r.
Qed.

End Loop.

Lemma broadcast_dim_same (n : nat) : PointMass.broadcast_dim n n = Ok n.
Proof. unfold PointMass.broadcast_dim. by repeat case_decide. Qed.

Lemma scale_units (field : string) (values : list float) :
  (let result := values in
   let result :=
     if PointMass.str_in field ["g_z"; "g_ez"; "g_nz"]
     then scale (of_Z (-1)) result else result in
   let result :=
     if PointMass.str_in field ["g_e"; "g_n"; "g_z"]
     then scale (of_Z 100000) result else result in
   if PointMass.str_in field ["g_ee"; "g_nn"; "g_zz"; "g_en"; "g_ez"; "g_nz"]
   then scale (of_Z 1000000000) result else result)
  = map (fun v => lift2 Qcmult v (Num (unit_factor field))) values.
Proof.
  cbv zeta. unfold unit_factor, scale.
  destruct (PointMass.str_in field ["g_z"; "g_ez"; "g_nz"]),
    (PointMass.str_in field ["g_e"; "g_n"; "g_z"]),
    (PointMass.str_in field ["g_ee"; "g_nn"; "g_zz"; "g_en"; "g_ez"; "g_nz"]);
    (rewrite <- (map_id values) at 1; rewrite ?map_map;
     apply map_ext; intros [|x]; [done|cbn; f_equal; ring]).
Qed.

(** X28 (gravity_coarser of the accessor and the compiled gravity_coarser).
    The accessor evaluates [_gravity_coarser] once per observation point
    with the kernel that [FIELDS] holds for the field, and returns these
    values times the field's unit factor: the sign flipped for [g_z],
    [g_ez] and [g_nz], times [1e5] for the accelerations and [1e9] for the
    tensor components, so [-1e5] for [g_z] and [-1e9] for [g_ez]. *)
Theorem X28_accessor_returns_scaled_point_values
    (FIELDS : list (string * @forward_kernel float)) (self : layer)
    (obs : list observation) (field : string) (fine_distance : Qc)
    (factor : Z) (density : array2) (forward_func : @forward_kernel float)
    (values : list float) :
  _check_regular_grid (easting self) (northing self) = Ok tt →
  PointMass.dict_get FIELDS field = Some forward_func →
  Forall2 (fun (o : observation) v =>
             _gravity_coarser (Num 0) fplus forward_func o.1.1 o.1.2 o.2
               (easting self) (northing self) (bottom self) (top self)
               density fine_distance factor = Ok v) obs values →
  DatasetAccessorPrismLayer.gravity_coarser FIELDS self
    (coordinate_arrays obs) field fine_distance factor density
  = Ok (map (fun v => lift2 Qcmult v (Num (unit_factor field))) values)
  ∧ unit_factor "potential" = 1
  ∧ unit_factor "g_e" = of_Z 100000
  ∧ unit_factor "g_z" = of_Z (-100000)
  ∧ unit_factor "g_ee" = of_Z 1000000000
  ∧ unit_factor "g_ez" = of_Z (-1000000000).
Proof.
  intros Hcheck Hfield Hvalues.
  split; [|by repeat split; apply Qc_is_canon].
  unfold DatasetAccessorPrismLayer.gravity_coarser, coordinate_arrays.
  rewrite !length_map.
  rewrite broadcast_dim_same. cbn [mbind result_bind Ok].
  rewrite broadcast_dim_same. cbn [mbind result_bind Ok].
  rewrite Hcheck. cbn [mbind result_bind Ok].
  unfold PointMass.dict_item. rewrite Hfield. cbn [mbind result_bind Ok].
  pose proof (gravity_coarser_loop (easting self) (northing self)
                (bottom self) (top self) density forward_func fine_distance
                factor obs values Hvalues) as Hloop.
  unfold coordinate_arrays in Hloop. cbv zeta. rewrite Hloop.
  cbn [mbind result_bind Ok]. f_equal. apply scale_units.
Qed.

Lemma X28_accessor_returns_scaled_point_values_witness :
  let obs : list observation :=
    [(of_Z 2, of_Z 1, of_Z 10); (of_Z 4, of_Z 4, of_Z 10)] in
  let values := [Num (of_Z 1); Num (of_Z 2)] in
  DatasetAccessorPrismLayer.gravity_coarser sample_fields sample_layer
    (coordinate_arrays obs) "g_z" (of_Z 1) 2 sample_density
  = Ok (map (fun v => lift2 Qcmult v (Num (unit_factor "g_z"))) values)
  ∧ unit_factor "potential" = 1
  ∧ unit_factor "g_e" = of_Z 100000
  ∧ unit_factor "g_z" = of_Z (-100000)
  ∧ unit_factor "g_ee" = of_Z 1000000000
  ∧ unit_factor "g_ez" = of_Z (-1000000000).
Proof.
  apply (X28_accessor_returns_scaled_point_values sample_fields sample_layer
           [(of_Z 2, of_Z 1, of_Z 10); (of_Z 4, of_Z 4, of_Z 10)] "g_z"
           (of_Z 1) 2 sample_density counting_kernel
           [Num (of_Z 1); Num (of_Z 2)]).
  - by vm_compute.
  - reflexivity.
  - repeat constructor; by vm_compute.
Defined.

End AccessorGravityCoarser.
Section ZeroSpacing.
Import DatasetAccessorPrismLayer Numpy NumpySpec PrismLayer PrismLayerSpec
  PrismLayerFunctions PrismLayerFacts.
Local Open Scope Z_scope.
Local Open Scope Qc_scope.

Lemma np_min_nonempty (a : list Qc) :
  (0 < length a)%nat → ∃ m, np_min a = Ok m.
Proof. destruct a as [|x xs]; simpl; [lia|]. by eexists. Qed.

(** X29 (_check_regular_grid, _gravity_coarser).  The grid check does not
    exclude a zero spacing: centres that are all equal along an axis pass
    it, but [_gravity_coarser] then divides by the zero spacing when it
    computes the window and fails with a [ZeroDivisionError], whatever the
    observation point, the fine distance and the factor. *)
Theorem X29_zero_spacing_passes_the_check_and_divides_by_zero {V : Type}
    (zero : V) (add : V → V → V) (forward_func : @forward_kernel V)
    (easting northing upward : Qc) (prisms_easting prisms_northing : list Qc)
    (prisms_bottom prisms_top prisms_densities : array2)
    (first_e spacing_e first_n spacing_n fine_distance : Qc) (factor : Z) :
  evenly_spaced prisms_easting first_e spacing_e →
  evenly_spaced prisms_northing first_n spacing_n →
  spacing_e = 0 ∨ spacing_n = 0 →
  _check_regular_grid prisms_easting prisms_northing = Ok tt
  ∧ _gravity_coarser zero add forward_func easting northing upward
      prisms_easting prisms_northing prisms_bottom prisms_top
      prisms_densities fine_distance factor
    = Raise ZeroDivisionError.
Proof.
  intros He Hn Hzero.
  split; [by eapply check_regular_grid_evenly_spaced|].
  unfold _gravity_coarser.
  destruct (evenly_spaced_first_two _ _ _ He) as [-> ->].
  destruct (evenly_spaced_first_two _ _ _ Hn) as [-> ->].
  cbn [mbind result_bind Ok]. unfold bounding_indices.
  destruct (np_min_nonempty prisms_easting) as [emin ->];
    [destruct He; lia|].
  destruct (np_min_nonempty prisms_northing) as [nmin ->];
    [destruct Hn; lia|].
  cbn [mbind result_bind Ok].
  replace (first_e + spacing_e - first_e) with spacing_e by ring.
  replace (first_n + spacing_n - first_n) with spacing_n by ring.
  unfold floor_div.
  destruct (decide (spacing_e * of_Z factor = 0)) as [He0|He0]; [done|].
  cbn [mbind result_bind Ok].
  destruct (decide (spacing_n * of_Z factor = 0)) as [Hn0|Hn0]; [done|].
  exfalso. destruct Hzero as [-> | ->].
  - apply He0. ring.
  - apply Hn0. ring.
Qed.

Lemma X29_zero_spacing_passes_the_check_and_divides_by_zero_witness :
  _check_regular_grid [of_Z 3; of_Z 3; of_Z 3] [of_Z 0; of_Z 1] = Ok tt
  ∧ _gravity_coarser 0%Z Z.add (fun _ _ _ _ _ _ _ _ _ _ => 1%Z)
      (of_Z 2) (of_Z 1) (of_Z 10) [of_Z 3; of_Z 3; of_Z 3] [of_Z 0; of_Z 1]
      (bottom sample_layer) (top sample_layer) sample_density (of_Z 1) 2
    = Raise ZeroDivisionError.
Proof.
  apply (X29_zero_spacing_passes_the_check_and_divides_by_zero 0%Z Z.add
           (fun _ _ _ _ _ _ _ _ _ _ => 1%Z) (of_Z 2) (of_Z 1) (of_Z 10)
           [of_Z 3; of_Z 3; of_Z 3] [of_Z 0; of_Z 1]
           (bottom sample_layer) (top sample_layer) sample_density
           (of_Z 3) (of_Z 0) (of_Z 0) (of_Z 1) (of_Z 1) 2).
  - split; [simpl; lia|]. intros [|[|[|k]]] Hk; simpl in Hk; try lia;
      simpl; f_equal; by apply Qc_is_canon.
  - split; [simpl; lia|]. intros [|[|k]] Hk; simpl in Hk; try lia;
      simpl; f_equal; by apply Qc_is_canon.
  - left. by apply Qc_is_canon.
Defined.

End ZeroSpacing.
Section Constructor.
Import DatasetAccessorPrismLayer Numpy NumpySpec PrismLayer PrismLayerSpec
  PrismLayerFunctions PrismLayerFacts.
Local Open Scope Z_scope.
Local Open Scope Qc_scope.

Lemma rows_has_shape {A} (a : list (list A)) rows cols :
  length a = rows ∧ Forall (fun row => length row = cols) a →
  (length a =? rows)%nat && forallb (fun row => (length row =? cols)%nat) a
  = true.
Proof.
  intros [Hlen Hrows]. apply andb_true_intro. split; [by apply Nat.eqb_eq|].
  apply forallb_forall. intros row Hrow%list_elem_of_In.
  rewrite Forall_forall in Hrows. by apply Nat.eqb_eq, Hrows.
Qed.

Lemma has_shape_replicate {A} rows cols (v : A) :
  length (replicate rows (replicate cols v)) = rows
  ∧ Forall (fun row => length row = cols) (replicate rows (replicate cols v)).
Proof.
  split; [by rewrite length_replicate|].
  apply Forall_forall. intros row ->%elem_of_replicate_inv.
  by rewrite length_replicate.
Qed.

Lemma has_shape_masked_assign (dst src : array2) (mask : list (list bool))
    rows cols :
  length dst = rows ∧ Forall (fun row => length row = cols) dst →
  length mask = rows ∧ Forall (fun row => length row = cols) mask →
  length src = rows ∧ Forall (fun row => length row = cols) src →
  has_shape (masked_assign dst mask src) (rows, cols) = true.
Proof.
  intros Hdst Hmask Hsrc. unfold has_shape, masked_assign. cbn [fst snd].
  apply rows_has_shape.
  apply (has_shape_zip_with
           (fun (d : float) (ms : bool * float) => if ms.1 then ms.2 else d));
    [done|].
  by apply (has_shape_zip_with pair).
Qed.

(** X30 (prism_layer, update_top_bottom, spacing, _to_prisms).  The
    constructor establishes what the methods rely on.  On evenly spaced
    centres, with a surface of the grid's shape and a reference that is a
    number or has that shape, [prism_layer] returns a layer with these
    centres whose [top] and [bottom] have the shape of the grid; on it
    [spacing] returns the two spacings and [_to_prisms] one row per cell.
    With a surface of another shape it fails with the surface error. *)
Theorem X30_prism_layer_builds_a_grid_shaped_layer
    (easting northing : list Qc) (surface : array2) (reference : reference_arg)
    (first_e spacing_e first_n spacing_n : Qc) :
  evenly_spaced easting first_e spacing_e →
  evenly_spaced northing first_n spacing_n →
  reference_fits (mk_layer easting northing [] []) reference = true →
  (has_shape surface (length northing, length easting) = true →
   ∃ built prisms,
     prism_layer (easting, northing) surface reference = Ok built
     ∧ PrismLayer.easting built = easting
     ∧ PrismLayer.northing built = northing
     ∧ well_shaped built
     ∧ spacing built = Ok (spacing_n, spacing_e)
     ∧ _to_prisms built = Ok prisms
     ∧ length prisms = (length northing * length easting)%nat)
  ∧ (has_shape surface (length northing, length easting) = false →
     prism_layer (easting, northing) surface reference
     = Raise (ValueError "Invalid surface array")).
Proof.
  intros He Hn Href.
  pose proof (check_regular_grid_evenly_spaced _ _ _ _ _ _ He Hn) as Hcheck.
  unfold prism_layer. rewrite Hcheck. cbn [mbind result_bind Ok].
  unfold update_top_bottom, reference_fits, shape in *.
  cbn [PrismLayer.easting PrismLayer.northing fst snd] in *.
  split; [|by intros ->].
  intros Hsurface. rewrite Hsurface. cbn [negb].
  set (rows := length northing) in *. set (cols := length easting) in *.
  set (ref := match reference with
              | Grid a => a
              | Scalar v => replicate rows (replicate cols v)
              end).
  assert ((match reference with
           | Grid a =>
               if negb (has_shape a (rows, cols))
               then Raise (ValueError "Invalid reference array")
               else Ok a
           | Scalar v => Ok (replicate rows (replicate cols v))
           end) = Ok ref) as ->.
  { destruct reference as [v|a]; [done|]. by rewrite Href. }
  cbn [mbind result_bind Ok].
  pose proof (has_shape_rows _ _ _ Hsurface) as Hs.
  assert (length ref = rows ∧ Forall (fun row => length row = cols) ref)
    as Hr.
  { subst ref. destruct reference as [v|a];
      [apply has_shape_replicate|by apply has_shape_rows]. }
  pose proof (has_shape_zip_with flt _ _ _ _ Hs Hr) as Hm.
  set (built := mk_layer easting northing _ _).
  assert (well_shaped built) as Hshaped.
  { split; unfold shape; cbn [top bottom PrismLayer.easting
                               PrismLayer.northing built];
      by apply has_shape_masked_assign. }
  assert (evenly_spaced (PrismLayer.easting built) first_e spacing_e) as He'
    by done.
  assert (evenly_spaced (PrismLayer.northing built) first_n spacing_n) as Hn'
    by done.
  exists built. eexists.
  split; [done|]. split; [done|]. split; [done|]. split; [done|].
  split.
  { rewrite (spacing_of_check built) by done.
    by rewrite (first_spacing_evenly_spaced built _ _ _ _ He' Hn'). }
  split; [by apply to_prisms_layer_cells|].
  by rewrite length_map, length_layer_cells.
Qed.

Lemma X30_prism_layer_builds_a_grid_shaped_layer_witness :
  let easting := [of_Z 0; of_Z 2; of_Z 4] in
  let northing := [of_Z 1; of_Z 4] in
  let surface := top sample_layer in
  let reference := Scalar (Num (of_Z 6)) in
  (has_shape surface (length northing, length easting) = true →
   ∃ built prisms,
     prism_layer (easting, northing) surface reference = Ok built
     ∧ PrismLayer.easting built = easting
     ∧ PrismLayer.northing built = northing
     ∧ well_shaped built
     ∧ spacing built = Ok (of_Z 3, of_Z 2)
     ∧ _to_prisms built = Ok prisms
     ∧ length prisms = (length northing * length easting)%nat)
  ∧ (has_shape surface (length northing, length easting) = false →
     prism_layer (easting, northing) surface reference
     = Raise (ValueError "Invalid surface array")).
Proof.
  apply (X30_prism_layer_builds_a_grid_shaped_layer
           [of_Z 0; of_Z 2; of_Z 4] [of_Z 1; of_Z 4] (top sample_layer)
           (Scalar (Num (of_Z 6))) (of_Z 0) (of_Z 2) (of_Z 1) (of_Z 3)).
  - apply regular_evenly_spaced, sample_layer_regular.
  - apply regular_evenly_spaced, sample_layer_regular.
  - reflexivity.
Defined.

End Constructor.
